(** * The tup backend of mozbuild: rule emission, link plans, manifests

    A shallow embedding of [python/mozbuild/mozbuild/backend/tup.py]
    (classes [BackendTupfile] and [TupOnly]) and of the record construction
    of [python/mozbuild/mozbuild/compilation/database.py]
    ([CompileDBBackend.consume_finished]).

    Python objects that are mutated in place (a [BackendTupfile] stored in
    [TupOnly._backend_files]) live in a finite map keyed by their [objdir];
    a method call on such an object is an update of the map at that key.
    Code that can [raise] returns a [result].

    The embedding covers the objects [TupOnly.consume_object] dispatches on
    itself, [consume_finished] up to the closing of the rule files, the
    IDL, IPDL and WebIDL hooks the inherited [consume_finished] calls, and
    the whole of [CompileDBBackend] (module [compiledb]).  Jar manifests
    are handled by [CommonBackend] and stay outside. *)

From Stdlib Require Import Ascii.
From stdpp Require Import base option list gmap sets strings sorting.

(** ** Python values *)

(** Python's [s[-n:]] for a positive literal [n]. *)
Definition py_last (n : nat) (s : string) : string :=
  String.substring (String.length s - n) n s.

(** [s.endswith(suffix)] for a non-empty literal suffix. *)
Definition endswith (s suffix : string) : bool :=
  String.eqb (py_last (String.length suffix) s) suffix.

(** [s.startswith(p)]. *)
Definition startswith (s p : string) : bool := String.prefix p s.

(** [c in s] for a one-character literal [c]. *)
Fixpoint char_in (c : Ascii.ascii) (s : string) : bool :=
  match s with
  | EmptyString => false
  | String a s' => if Ascii.eqb a c then true else char_in c s'
  end.

(** Truth value of a string that may be [None]. *)
Definition truthy (o : option string) : bool :=
  match o with
  | Some s => negb (String.eqb s "")
  | None => false
  end.

(** Truth value of a list that may be [None]. *)
Definition truthy_list {A} (o : option (list A)) : bool :=
  match o with
  | Some (_ :: _) => true
  | _ => false
  end.

(** [x or []]. *)
Definition or_nil {A} (o : option (list A)) : list A := default [] o.

Definition str_in (x : string) (l : list string) : bool := bool_decide (x ∈ l).

(** [' '.join(l)]. *)
Definition join_sp (l : list string) : string := String.concat " " l.

(** [sorted(l)] on strings. *)
Definition sorted (l : list string) : list string := merge_sort String.le l.

(** [uniq(seq)]: [list(OrderedDict.fromkeys(seq))]; a key keeps the position
    of its first insertion. *)
Definition fromkeys_step (acc : list string) (x : string) : list string :=
  if bool_decide (x ∈ acc) then acc else acc ++ [x].

Definition uniq (seq : list string) : list string :=
  fold_left fromkeys_step seq [].

(** ** Exceptions *)

Inductive result (A : Type) : Type :=
| Ok (a : A)
| Raise (msg : string).
Arguments Ok {A} a.
Arguments Raise {A} msg.

Global Instance result_ret : MRet result := fun _ a => Ok a.

Global Instance result_bind : MBind result := fun _ _ k m =>
  match m with
  | Ok a => k a
  | Raise e => Raise e
  end.

(** ** Frontend data ([frontend/data.py], [frontend/context.py]) *)

(** The classes [tup.py] tests with [isinstance]. *)
Module data.
Inductive class : Set :=
| Program | SimpleProgram | HostProgram | HostSimpleProgram
| Library | StaticLibrary | SharedLibrary | RustLibrary
| HostLibrary.

Global Instance class_eq_dec : EqDecision class.
Proof. solve_decision. Defined.

Inductive sources_class : Set :=
| Sources | GeneratedSources | HostSources | UnifiedSources.

Global Instance sources_class_eq_dec : EqDecision sources_class.
Proof. solve_decision. Defined.

Inductive path_class : Set :=
| SourcePath | AbsolutePath | ObjDirPath.

Global Instance path_class_eq_dec : EqDecision path_class.
Proof. solve_decision. Defined.
End data.

(** Attributes every [ContextDerived] object has. *)
Record ObjContext := {
  relativedir : string;
  obj_srcdir : string;
  obj_objdir : string;
  obj_relobjdir : string;
}.

(** A [Linkable]: programs and libraries with the libraries they link. *)
#[warnings="-register-all"] Inductive Linkable := mkLinkable {
  l_class : data.class;
  l_context : ObjContext;
  program : string;
  lib_name : string;
  import_name : string;
  basename : string;
  linked_libraries : list Linkable;
  linked_system_libs : list string;
}.

(** An entry of [obj.files] of an install mapping (a [Path]). *)
Record Path := {
  p_class : data.path_class;
  p_str : string;
  full_path : string;
  target_basename : string;
  context_relobjdir : string;
}.

(** A [GeneratedFile]; [inputs] holds the [full_path] of every input. *)
Record GeneratedFileData := {
  script : option string;
  method : option string;
  outputs : list string;
  inputs : list string;
  flags : list string;
}.

(** A [BaseSources] object of class [s_class]. *)
Record SourcesData := {
  s_class : data.sources_class;
  files : list string;
  canonical_suffix : string;
  have_unified_mapping : bool;
  unified_source_mapping : list (string * list string);
}.

(** A [ChromeManifestEntry]; [cm_entry] is [str(obj.entry)]. *)
Record ChromeManifestEntryData := {
  cm_install_target : string;
  cm_path : string;
  cm_entry : string;
}.

(** A [FinalTargetFiles] or [FinalTargetPreprocessedFiles];
    [files_walk] is [obj.files.walk()]. *)
Record FinalTargetFilesData := {
  is_ObjdirFiles : bool;
  install_target : string;
  files_walk : list (string * list Path);
}.

(** The objects of the walk.  [get_defines] is [list(obj.get_defines())]. *)
Inductive BuildObject :=
| GeneratedFile (c : ObjContext) (g : GeneratedFileData)
| ChromeManifestEntry (c : ObjContext) (m : ChromeManifestEntryData)
| Defines (c : ObjContext) (get_defines : list string)
| HostDefines (c : ObjContext) (get_defines : list string)
| FinalTargetFiles (c : ObjContext) (f : FinalTargetFilesData)
| FinalTargetPreprocessedFiles (c : ObjContext) (f : FinalTargetFilesData)
| BaseSources (c : ObjContext) (s : SourcesData)
| Link (l : Linkable)
| OtherContextDerived (c : ObjContext) (class_name : string)
| NotContextDerived (relativedir : string).

Definition context_of (obj : BuildObject) : option ObjContext :=
  match obj with
  | GeneratedFile c _ | ChromeManifestEntry c _ | Defines c _
  | HostDefines c _ | FinalTargetFiles c _
  | FinalTargetPreprocessedFiles c _ | BaseSources c _
  | OtherContextDerived c _ => Some c
  | Link l => Some (l_context l)
  | NotContextDerived _ => None
  end.

Definition obj_relativedir (obj : BuildObject) : string :=
  match obj with
  | NotContextDerived d => d
  | _ => from_option relativedir "" (context_of obj)
  end.

(** [obj.__class__.__name__] of a sources object. *)
Definition sources_class_name (k : data.sources_class) : string :=
  match k with
  | data.Sources => "Sources"
  | data.GeneratedSources => "GeneratedSources"
  | data.HostSources => "HostSources"
  | data.UnifiedSources => "UnifiedSources"
  end.

(** ** Collaborators outside these sources

    [mozpack.path], [mozbuild.shellutil], [mozpack.files.FileFinder], the
    class hierarchy of [frontend/data.py] and the inherited
    [CommonBackend.consume_object] are used by [tup.py] but defined
    elsewhere; they are parameters of the development. *)
Class Collaborators := {
  mozpath_join : string → string → string;
  mozpath_normpath : string → string;
  mozpath_relpath : string → string → string;
  mozpath_basename : string → string;
  mozpath_splitext : string → string * string;
  mozpath_basedir : string → list string → option string;
  mozpath_match : string → string → bool;
  mozpath_split : string → list string;
  os_path_split : string → string * string;
  shell_quote : string → string;
  FileFinder_find : string → string → list string;
  (** whether [RustLibrary] derives from [StaticLibrary] *)
  RustLibrary_is_StaticLibrary : bool;
  (** the value [CommonBackend.consume_object(self, obj)] returns *)
  CommonBackend_consume_object : BuildObject → bool;
  (** whether that call invokes the [_process_unified_sources] hook *)
  CommonBackend_calls_unified_hook : BuildObject → bool;
}.

(** ** Rule files: [BackendTupfile] *)

(** The dictionary [rule] formats into one line of the Tupfile. *)
Record rule_record := {
  r_inputs : list string;
  r_extra_inputs : option (list string);
  r_display : string;
  r_cmd : list string;
  r_outputs : list string;
  r_extra_outputs : option (list string);
}.

(** What has been written to [self.fh]. *)
Inductive entry :=
| Text (s : string)
| RuleLine (r : rule_record).

(** The attributes of a [BackendTupfile]; [fh] is the buffer of its
    [FileAvoidWrite]. *)
Record BackendTupfile := {
  bf_topsrcdir : string;
  srcdir : string;
  objdir : string;
  relobjdir : string;
  name : string;
  rules_included : bool;
  shell_exported : bool;
  defines : list string;
  host_defines : list string;
  delayed_generated_files : list BuildObject;
  _sources : list string;
  fh : list entry;
}.

Definition _installed_files : string := "$(MOZ_OBJ_ROOT)/<installed-files>".
Definition _includes_group : string := "$(MOZ_OBJ_ROOT)/<includes>".
Definition _objects_group : string := "$(MOZ_OBJ_ROOT)/<objects>".

Definition nl : string := String (Ascii.ascii_of_nat 10) "".

(** The text of one rule line:
    [': %(inputs)s%(extra_inputs)s |> %(display)s%(cmd)s |> %(outputs)s%(extra_outputs)s\n']. *)
Definition render_rule (r : rule_record) : string :=
  ": " +:+ join_sp (r_inputs r)
  +:+ (if truthy_list (r_extra_inputs r)
       then " | " +:+ join_sp (or_nil (r_extra_inputs r)) else "")
  +:+ " |> "
  +:+ (if truthy (Some (r_display r)) then "^" +:+ r_display r +:+ "^ " else "")
  +:+ join_sp (r_cmd r)
  +:+ " |> " +:+ join_sp (r_outputs r)
  +:+ (if truthy_list (r_extra_outputs r)
       then " | " +:+ join_sp (or_nil (r_extra_outputs r)) else "")
  +:+ nl.

Definition render_entry (e : entry) : string :=
  match e with
  | Text s => s
  | RuleLine r => render_rule r
  end.

(** The buffered content of the file. *)
Definition contents (bf : BackendTupfile) : string :=
  String.concat "" (render_entry <$> fh bf).

(** The rule records of the file, in emission order. *)
Definition rules (bf : BackendTupfile) : list rule_record :=
  omap (fun e => match e with RuleLine r => Some r | Text _ => None end) (fh bf).

Definition write_entry (e : entry) (bf : BackendTupfile) : BackendTupfile :=
  {| bf_topsrcdir := bf_topsrcdir bf; srcdir := srcdir bf; objdir := objdir bf;
     relobjdir := relobjdir bf; name := name bf;
     rules_included := rules_included bf; shell_exported := shell_exported bf;
     defines := defines bf; host_defines := host_defines bf;
     delayed_generated_files := delayed_generated_files bf;
     _sources := _sources bf; fh := fh bf ++ [e] |}.

Definition write (buf : string) : BackendTupfile → BackendTupfile :=
  write_entry (Text buf).

Definition set_rules_included (bf : BackendTupfile) : BackendTupfile :=
  {| bf_topsrcdir := bf_topsrcdir bf; srcdir := srcdir bf; objdir := objdir bf;
     relobjdir := relobjdir bf; name := name bf;
     rules_included := true; shell_exported := shell_exported bf;
     defines := defines bf; host_defines := host_defines bf;
     delayed_generated_files := delayed_generated_files bf;
     _sources := _sources bf; fh := fh bf |}.

Definition set_shell_exported (bf : BackendTupfile) : BackendTupfile :=
  {| bf_topsrcdir := bf_topsrcdir bf; srcdir := srcdir bf; objdir := objdir bf;
     relobjdir := relobjdir bf; name := name bf;
     rules_included := rules_included bf; shell_exported := true;
     defines := defines bf; host_defines := host_defines bf;
     delayed_generated_files := delayed_generated_files bf;
     _sources := _sources bf; fh := fh bf |}.

Definition include_rules (bf : BackendTupfile) : BackendTupfile :=
  if rules_included bf then bf
  else set_rules_included (write ("include_rules" +:+ nl) bf).

(** An output that makes [rule] attach the rule to the includes group. *)
Definition header_like (o : string) : bool :=
  String.eqb (py_last 2 o) ".h" || String.eqb (py_last 4 o) ".cfg".

(** [BackendTupfile.rule]; an argument left at its default [None] is
    [None]. *)
Definition rule (cmd : list string)
    (inputs extra_inputs outputs : option (list string))
    (display : option string) (extra_outputs : option (list string))
    (output_group : option string) (check_unchanged : bool)
    (bf : BackendTupfile) : BackendTupfile :=
  let inputs := or_nil inputs in
  let outputs := or_nil outputs in
  let display := if truthy display then default "" display else "" in
  let bf := include_rules bf in
  let flags := if check_unchanged then "o" else "" in
  let caret_text :=
    if truthy (Some display) then flags +:+ " " +:+ display else flags in
  let output_group :=
    if existsb header_like outputs then Some _includes_group
    else output_group in
  let outputs :=
    if truthy output_group then outputs ++ [default "" output_group]
    else outputs in
  write_entry (RuleLine {| r_inputs := inputs;
                           r_extra_inputs := extra_inputs;
                           r_display := caret_text;
                           r_cmd := cmd;
                           r_outputs := outputs;
                           r_extra_outputs := extra_outputs |}) bf.

Section BackendTupfile_paths.
Context `{Collaborators}.

(** [BackendTupfile.__init__]. *)
Definition BackendTupfile_init (srcdir objdir topsrcdir topobjdir : string)
    : BackendTupfile :=
  {| bf_topsrcdir := topsrcdir; srcdir := srcdir; objdir := objdir;
     relobjdir := mozpath_relpath objdir topobjdir;
     name := mozpath_join objdir "Tupfile";
     rules_included := false; shell_exported := false;
     defines := []; host_defines := [];
     delayed_generated_files := []; _sources := [];
     fh := [Text ("# THIS FILE WAS AUTOMATICALLY GENERATED. DO NOT EDIT." +:+ nl);
            Text nl] |}.

Definition symlink_rule (source : string) (output output_group : option string)
    : BackendTupfile → BackendTupfile :=
  let outputs :=
    if truthy output then [default "" output] else [mozpath_basename source] in
  (* The !tup_ln macro does a symlink or file copy without shelling out. *)
  rule ["!tup_ln"] (Some [source]) None (Some outputs) None None
       output_group false.
End BackendTupfile_paths.

Definition export_shell (bf : BackendTupfile) : BackendTupfile :=
  if shell_exported bf then bf
  else
    set_shell_exported
      (foldl (fun b var => write ("export " +:+ var +:+ nl) b) bf
             ["SHELL"; "MOZILLABUILD"; "COMSPEC"]).

(** ** The backend state: [TupOnly] *)

Record Environment := {
  topsrcdir : string;
  topobjdir : string;
  is_artifact_build : bool;
  substs_SHELL : string;
}.

Record TupOnly := {
  environment : Environment;
  _backend_files : gmap string BackendTupfile;
  (** [OrderedDefaultDict(set)]: destinations in first-insertion order *)
  _manifest_entries : list (string * gset string);
  (** [OrderedDefaultDict(int)]: an absent key counts 0 *)
  _missing_commands : gmap string nat;
  _commands_db : gmap (string * string) (list string);
  backend_input_files : gset string;
  (** files handed to [_write_file]: path and content *)
  written : list (string * string);
}.

Definition set_backend_files (m : gmap string BackendTupfile) (st : TupOnly)
    : TupOnly :=
  {| environment := environment st; _backend_files := m;
     _manifest_entries := _manifest_entries st;
     _missing_commands := _missing_commands st;
     _commands_db := _commands_db st;
     backend_input_files := backend_input_files st; written := written st |}.

Definition set_manifest_entries (m : list (string * gset string)) (st : TupOnly)
    : TupOnly :=
  {| environment := environment st; _backend_files := _backend_files st;
     _manifest_entries := m;
     _missing_commands := _missing_commands st;
     _commands_db := _commands_db st;
     backend_input_files := backend_input_files st; written := written st |}.

Definition set_missing_commands (m : gmap string nat) (st : TupOnly) : TupOnly :=
  {| environment := environment st; _backend_files := _backend_files st;
     _manifest_entries := _manifest_entries st;
     _missing_commands := m;
     _commands_db := _commands_db st;
     backend_input_files := backend_input_files st; written := written st |}.

Definition set_backend_input_files (s : gset string) (st : TupOnly) : TupOnly :=
  {| environment := environment st; _backend_files := _backend_files st;
     _manifest_entries := _manifest_entries st;
     _missing_commands := _missing_commands st;
     _commands_db := _commands_db st;
     backend_input_files := s; written := written st |}.

Definition set_written (w : list (string * string)) (st : TupOnly) : TupOnly :=
  {| environment := environment st; _backend_files := _backend_files st;
     _manifest_entries := _manifest_entries st;
     _missing_commands := _missing_commands st;
     _commands_db := _commands_db st;
     backend_input_files := backend_input_files st; written := w |}.

(** [self._missing_commands[k] += 1]. *)
Definition incr (k : string) (m : gmap string nat) : gmap string nat :=
  <[k := S (default 0 (m !! k))]> m.

(** [self._manifest_entries[k].add(e)]. *)
Fixpoint manifest_add (k e : string) (m : list (string * gset string))
    : list (string * gset string) :=
  match m with
  | [] => [(k, {[e]})]
  | (k', s) :: m' =>
      if String.eqb k' k then (k', s ∪ {[e]}) :: m'
      else (k', s) :: manifest_add k e m'
  end.

(** One record of [compile_commands.json]. *)
Record db_record := {
  db_file : string;
  db_command : string;
  db_directory : string;
}.

(** The comprehension of [_init] over [command.split()]. *)
Definition load_command (command : string) : list string :=
  (fun p => if String.eqb p "/dev/null" then "%o" else p) <$> String.words command.

Definition load_commands_db (json : list db_record)
    : gmap (string * string) (list string) :=
  foldl (fun db e => <[(db_file e, db_directory e) := load_command (db_command e)]> db)
        ∅ json.

(** [TupOnly._init]; an unreadable database (the [except: pass]) is [None]. *)
Definition _init (env : Environment) (json : option (list db_record)) : TupOnly :=
  {| environment := env; _backend_files := ∅; _manifest_entries := [];
     _missing_commands := ∅;
     _commands_db := from_option load_commands_db ∅ json;
     backend_input_files := ∅; written := [] |}.

Definition _compile_env_gen_files : list string :=
  ["*.c"; "*.cpp"; "*.h"; "*.inc"; "*.py"; "*.rs"].

Definition _py_action (action : string) : list string :=
  ["$(PYTHON)"; "-m"; "mozbuild.action." +:+ action].

(** [s[n:]]. *)
Definition py_drop (n : nat) (s : string) : string :=
  String.substring n (String.length s - n) s.

(** [s.split('/')[-1]]. *)
Fixpoint last_segment_go (acc s : string) : string :=
  match s with
  | EmptyString => acc
  | String c s' =>
      if Ascii.eqb c "/"%char then last_segment_go "" s'
      else last_segment_go (acc +:+ String c "") s'
  end.

Definition last_segment : string → string := last_segment_go "".

(** [l + ".desc" if l.endswith('.a') else l]. *)
Definition desc_of (l : string) : string :=
  if endswith l ".a" then l +:+ ".desc" else l.

Section TupOnly.
Context `{Collaborators}.

Global Instance BackendTupfile_inhabited : Inhabited BackendTupfile :=
  populate (BackendTupfile_init "" "" "" "").

(** The [BackendTupfile] object registered for [objdir]. *)
Definition backend_file (st : TupOnly) (objdir : string) : BackendTupfile :=
  _backend_files st !!! objdir.

(** A method call on that object. *)
Definition on_backend_file (objdir : string)
    (f : BackendTupfile → BackendTupfile) (st : TupOnly) : TupOnly :=
  set_backend_files (alter f objdir (_backend_files st)) st.

(** Returns the key of the (possibly new) backend file. *)
Definition _get_backend_file (relativedir : string)
    (objdir srcdir : option string) (st : TupOnly) : string * TupOnly :=
  let env := environment st in
  let objdir :=
    if truthy objdir then default "" objdir
    else mozpath_join (topobjdir env) relativedir in
  let objdir := mozpath_normpath objdir in
  let srcdir :=
    if truthy srcdir then default "" srcdir
    else mozpath_join (topsrcdir env) relativedir in
  match _backend_files st !! objdir with
  | Some _ => (objdir, st)
  | None =>
      (objdir,
       set_backend_files
         (<[objdir := BackendTupfile_init srcdir objdir (topsrcdir env)
                        (topobjdir env)]> (_backend_files st)) st)
  end.

Definition _get_backend_file_for (c : ObjContext) (st : TupOnly)
    : string * TupOnly :=
  _get_backend_file
    (mozpath_relpath (obj_objdir c) (topobjdir (environment st)))
    (Some (obj_objdir c)) (Some (obj_srcdir c)) st.

Definition _source_closure (bf : string) (st : TupOnly)
    : list string * TupOnly :=
  let reldir := relobjdir (backend_file st bf) in
  let '(b, st) := _get_backend_file reldir None None st in
  (_sources (backend_file st b), st).

Definition _process_generated_file (bf : string) (c : ObjContext)
    (g : GeneratedFileData) (st : TupOnly) : result TupOnly :=
  let skip_directories := ["layout/style/test"; "toolkit/library"] in
  if truthy (script g) && truthy (method g)
     && negb (str_in (obj_relobjdir c) skip_directories)
  then
    let st := on_backend_file bf export_shell st in
    match outputs g with
    | [] => Raise "IndexError: list index out of range"
    | o0 :: _ =>
        let script := default "" (script g) in
        let method := default "" (method g) in
        let full_inputs := inputs g in
        let cmd :=
          _py_action "file_generate"
          ++ [script; method; o0; o0 +:+ ".pp"]
          ++ full_inputs ++ (shell_quote <$> flags g) in
        let outs := outputs g ++ [o0 +:+ ".pp"] in
        Ok (on_backend_file bf
              (rule cmd (Some full_inputs) None (Some outs)
                 (Some ("python " +:+ script +:+ ":" +:+ method +:+ " -> [%o]"))
                 None (Some _installed_files) true) st)
    end
  else Ok st.

Definition set_defines (host : bool) (d : list string) (bf : BackendTupfile)
    : BackendTupfile :=
  {| bf_topsrcdir := bf_topsrcdir bf; srcdir := srcdir bf; objdir := objdir bf;
     relobjdir := relobjdir bf; name := name bf;
     rules_included := rules_included bf; shell_exported := shell_exported bf;
     defines := if host then defines bf else d;
     host_defines := if host then d else host_defines bf;
     delayed_generated_files := delayed_generated_files bf;
     _sources := _sources bf; fh := fh bf |}.

Definition _process_defines (bf : string) (get_defines : list string)
    (host : bool) (st : TupOnly) : TupOnly :=
  match get_defines with
  | [] => st
  | defines => on_backend_file bf (set_defines host defines) st
  end.

Definition _preprocess (bf : string) (input_file : string)
    (destdir : option string) (st : TupOnly) : TupOnly :=
  let marker := if endswith input_file ".css" then "%%" else "#" in
  let cmd :=
    _py_action "preprocessor"
    ++ (shell_quote <$> defines (backend_file st bf))
    ++ ["$(ACDEFINES)"; "%f"; "-o"; "%o"; "--marker=" +:+ marker] in
  let base_input := mozpath_basename input_file in
  let base_input :=
    if endswith base_input ".in" then (mozpath_splitext base_input).1
    else base_input in
  let output :=
    if truthy destdir then mozpath_join (default "" destdir) base_input
    else base_input in
  on_backend_file bf
    (rule cmd (Some [input_file]) None (Some [output])
       (Some ("PREPROCESS "
              +:+ (if endswith input_file ".in"
                   then last_segment input_file +:+ " -> " else "")
              +:+ base_input))
       None None true) st.

Definition _process_final_target_pp_files (bf : string)
    (f : FinalTargetFilesData) (st : TupOnly) : TupOnly :=
  foldl (fun st '(path, files) =>
           foldl (fun st p =>
                    _preprocess bf (full_path p)
                      (Some (mozpath_join
                               (mozpath_join (topobjdir (environment st))
                                  (install_target f)) path)) st)
                 st files)
        st (files_walk f).
End TupOnly.

Section Emitters.
Context `{Collaborators}.

(** *** Install mappings *)

(** [''.join(_prefix(s))]: the path components without a wildcard. *)
Definition wildcard_prefix (s : string) : string :=
  String.concat ""
    ((fun p => p +:+ "/")
       <$> filter (fun p => char_in "*"%char p = false) (mozpath_split s)).

(** The body of the loop over the files of one directory of the walk. *)
Definition install_file (target path bf : string) (f : Path) (st : TupOnly)
    : result TupOnly :=
  if negb (bool_decide (p_class f = data.ObjDirPath)) then
    if char_in "*"%char (p_str f) then
      if startswith (p_str f) "/" || bool_decide (p_class f = data.AbsolutePath)
      then
        let '(basepath, wild) := os_path_split (full_path f) in
        if char_in "*"%char basepath then
          Raise ("Wildcards are only supported in the filename part of "
                 +:+ "srcdir-relative or absolute paths.")
        else Ok st
      else
        let prefix := wildcard_prefix (full_path f) in
        let st :=
          set_backend_input_files (backend_input_files st ∪ {[prefix]}) st in
        Ok (foldl (fun st p =>
                     on_backend_file bf
                       (symlink_rule (mozpath_join prefix p)
                          (Some (mozpath_join (target_basename f) p))
                          (Some _installed_files)) st)
                  st
                  (FileFinder_find prefix
                     (py_drop (String.length prefix) (full_path f))))
    else
      Ok (on_backend_file bf
            (symlink_rule (full_path f) (Some (target_basename f))
               (Some _installed_files)) st)
  else
    if is_artifact_build (environment st)
       && existsb (mozpath_match (target_basename f)) _compile_env_gen_files
    then Ok st
    else if negb (str_in (context_relobjdir f)
                    ["layout/style/test"; "toolkit/library"])
    then
      let output :=
        mozpath_join
          (mozpath_join (mozpath_join "$(MOZ_OBJ_ROOT)" target) path)
          (target_basename f) in
      let '(gen_backend_file, st) :=
        _get_backend_file (context_relobjdir f) None None st in
      Ok (on_backend_file gen_backend_file
            (symlink_rule (full_path f) (Some output) None) st)
    else Ok st.

(** A [for] loop whose body can raise. *)
Fixpoint for_each {A S} (body : A → S → result S) (l : list A) (st : S)
    : result S :=
  match l with
  | [] => Ok st
  | x :: l' => st' ← body x st; for_each body l' st'
  end.

Definition install_roots : list string :=
  ["dist/bin"; "dist/xpi-stage"; "_tests"; "dist/include"; "dist/branding";
   "dist/sdk"].

Definition _process_final_target_files (f : FinalTargetFilesData)
    (st : TupOnly) : result TupOnly :=
  let target := install_target f in
  if negb (is_ObjdirFiles f) && negb (truthy (mozpath_basedir target install_roots))
  then Raise ("Cannot install to " +:+ target)
  else if startswith target "_tests" then Ok st
  else
    for_each
      (fun '(path, files) st =>
         let '(bf, st) :=
           _get_backend_file (mozpath_join target path) None None st in
         for_each (install_file target path bf) files st)
      (files_walk f) st.

(** *** Compile rules *)

Definition suffix_map (canonical_suffix : string) : string :=
  if String.eqb canonical_suffix ".s" then "AS"
  else if String.eqb canonical_suffix ".c" then "C"
  else if String.eqb canonical_suffix ".m" then "CM"
  else if String.eqb canonical_suffix ".mm" then "CMM"
  else if String.eqb canonical_suffix ".cpp" then "CPP"
  else if String.eqb canonical_suffix ".rs" then "RS"
  else if String.eqb canonical_suffix ".S" then "S"
  else "Compiling".

Definition append_source (o : string) (bf : BackendTupfile) : BackendTupfile :=
  {| bf_topsrcdir := bf_topsrcdir bf; srcdir := srcdir bf; objdir := objdir bf;
     relobjdir := relobjdir bf; name := name bf;
     rules_included := rules_included bf; shell_exported := shell_exported bf;
     defines := defines bf; host_defines := host_defines bf;
     delayed_generated_files := delayed_generated_files bf;
     _sources := _sources bf ++ [o]; fh := fh bf |}.

(** The two [self._commands_db.get] of [_write_sources]. *)
Definition lookup_command (db : gmap (string * string) (list string))
    (f objdir : string) (unified_inputs : list string)
    : option (list string) :=
  let cmd := db !! (f, objdir) in
  match unified_inputs, cmd with
  | u0 :: _, None => db !! (u0, objdir)
  | _, _ => cmd
  end.

(** [not cmd]: no entry, or an entry without arguments. *)
Definition missing (cmd : option (list string)) : bool :=
  negb (truthy_list cmd).

Definition _write_sources (bf : string) (class_name : string) (f : string)
    (canonical_suffix : string) (unified_inputs : list string)
    (st : TupOnly) : TupOnly :=
  let label := suffix_map canonical_suffix +:+ " %b" in
  let st :=
    on_backend_file bf
      (append_source ((mozpath_basename (mozpath_splitext f).1) +:+ ".o")) st in
  let cmd :=
    lookup_command (_commands_db st) f (objdir (backend_file st bf))
      unified_inputs in
  let '(cmd, st) :=
    if missing cmd then
      (["touch"; "%o"],
       set_missing_commands
         (incr class_name (incr canonical_suffix (_missing_commands st))) st)
    else (or_nil cmd, st) in
  on_backend_file bf
    (rule cmd (Some [f])
       (Some ([_includes_group; _installed_files] ++ unified_inputs))
       (Some ["%B.o"]) (Some label) None (Some _objects_group) true) st.

(** [dict(pairs)]: a later pair replaces an earlier one with the same key. *)
Definition py_dict (pairs : list (string * list string))
    : gmap string (list string) :=
  foldl (fun m '(k, v) => <[k := v]> m) ∅ pairs.

(** The variables [mapping] and [files] of [_process_sources]. *)
Definition unified_mapping (s : SourcesData) : gmap string (list string) :=
  if bool_decide (s_class s = data.UnifiedSources) && have_unified_mapping s
  then py_dict (unified_source_mapping s) else ∅.

Definition source_files (s : SourcesData) : list string :=
  if bool_decide (s_class s = data.UnifiedSources)
  then (map_to_list (unified_mapping s)).*1 else files s.

Definition _process_sources (c : ObjContext) (s : SourcesData) (bf : string)
    (st : TupOnly) : TupOnly :=
  foldl (fun st f =>
           _write_sources bf (sources_class_name (s_class s)) f
             (canonical_suffix s) (default [] (unified_mapping s !! f)) st)
        st (sorted (source_files s)).

(** CommonBackend calls this one. *)
Definition _process_unified_sources (c : ObjContext) (s : SourcesData)
    (st : TupOnly) : TupOnly :=
  let '(bf, st) := _get_backend_file_for c st in
  _process_sources c s bf st.
End Emitters.

Section Linking.
Context `{Collaborators}.

(** *** [isinstance] on linkables

    Modelled from the spec: the class hierarchy of [frontend/data.py],
    which is not among the sources.  Executables ([Program],
    [SimpleProgram] and their host variants) are [BaseProgram]s;
    [StaticLibrary], [SharedLibrary] and [RustLibrary] are the [Library]
    kinds of link target.  Whether a [RustLibrary] also is a
    [StaticLibrary] is the parameter [RustLibrary_is_StaticLibrary]. *)
Definition is_Program (l : Linkable) : bool :=
  bool_decide (l_class l = data.Program).
Definition is_SimpleProgram (l : Linkable) : bool :=
  bool_decide (l_class l = data.SimpleProgram).
Definition is_BaseProgram (l : Linkable) : bool :=
  bool_decide (l_class l ∈ [data.Program; data.SimpleProgram;
                            data.HostProgram; data.HostSimpleProgram]).
Definition is_RustLibrary (l : Linkable) : bool :=
  bool_decide (l_class l = data.RustLibrary).
Definition is_StaticLibrary (l : Linkable) : bool :=
  bool_decide (l_class l = data.StaticLibrary)
  || (is_RustLibrary l && RustLibrary_is_StaticLibrary).
Definition is_SharedLibrary (l : Linkable) : bool :=
  bool_decide (l_class l = data.SharedLibrary).
Definition is_Library (l : Linkable) : bool :=
  bool_decide (l_class l ∈ [data.Library; data.StaticLibrary;
                            data.SharedLibrary; data.RustLibrary]).

(** ['%s/%s' % (l.objdir, l.import_name)]. *)
Definition lib_path (l : Linkable) : string :=
  obj_objdir (l_context l) +:+ "/" +:+ import_name l.

(** The link plan under construction: the lists [libs] and [system_libs]
    that [_process_program] and its local function append to. *)
Definition plan : Type := list string * list string.

Definition plan_app (p q : plan) : plan := (p.1 ++ q.1, p.2 ++ q.2).

(** The local function [write_shared_and_system_libs]: what one call
    appends to [libs] and to [system_libs]. *)
Fixpoint write_shared_and_system_libs (lib : Linkable) : plan :=
  match lib with
  | mkLinkable _ _ _ _ _ _ libraries system_libs =>
      plan_app
        ((fix each (ls : list Linkable) : plan :=
            match ls with
            | [] => ([], [])
            | l :: ls' =>
                plan_app
                  (if is_StaticLibrary l || is_RustLibrary l
                   then write_shared_and_system_libs l
                   else ([lib_path l], []))
                  (each ls')
            end) libraries)
        ([], system_libs)
  end.

(** The body of the loop [for lib in obj.linked_libraries]. *)
Definition link_library (obj lib : Linkable) : plan :=
  if is_Library obj then
    if is_RustLibrary lib then
      (* We don't need to do anything here; we will handle linkage for
         any RustLibrary elsewhere. *)
      ([], [])
    else if is_StaticLibrary lib then
      plan_app ([lib_path lib], [])
        (if is_SharedLibrary obj then write_shared_and_system_libs lib
         else ([], []))
    else if is_SharedLibrary lib then ([lib_path lib], [])
    else ([], [])
  else if is_Program obj || is_SimpleProgram obj then
    if is_StaticLibrary lib then
      plan_app ([lib_path lib], []) (write_shared_and_system_libs lib)
    else ([lib_path lib], [])
  else ([], []).

(** [libs] and [system_libs] when the emission starts. *)
Definition link_plan (obj : Linkable) : plan :=
  plan_app
    (foldl (fun p lib => plan_app p (link_library obj lib)) ([], [])
       (linked_libraries obj))
    ([], linked_system_libs obj).

Definition OBJS : string := "'<OBJS>'".

(** The command of a link rule, from the database entry of [target]. *)
Definition link_command (st : TupOnly) (objdir target : string)
    (inputs system_libs : list string) : list string :=
  let cmd :=
    removelast
      (default ["ld.gold"; "-o"; "%o"; ""]
         (_commands_db st !! (mozpath_join objdir target, objdir))) in
  let cmd := if negb (str_in OBJS cmd) then cmd ++ inputs else cmd in
  ((fun e => if String.eqb e OBJS then join_sp inputs else e) <$> cmd)
  ++ uniq system_libs.

Definition _process_program (bf : string) (obj : Linkable) (st : TupOnly)
    : TupOnly :=
  let '(libs, system_libs) := link_plan obj in
  if is_Program obj then
    let cmd_of := link_command st (objdir (backend_file st bf)) (program obj) in
    let '(closure, st) := _source_closure bf st in
    let inputs := closure ++ uniq libs in
    on_backend_file bf
      (rule (cmd_of inputs system_libs) (Some (desc_of <$> inputs)) None
         (Some [program obj]) (Some "LINK %o") None None true) st
  else if is_SharedLibrary obj then
    let cmd_of := link_command st (objdir (backend_file st bf)) (lib_name obj) in
    let '(closure, st) := _source_closure bf st in
    let inputs := closure ++ uniq libs in
    on_backend_file bf
      (rule (cmd_of inputs system_libs) (Some (desc_of <$> inputs)) None
         (Some [lib_name obj]) (Some "LINK %o") None None true) st
  else if is_StaticLibrary obj then
    let '(closure, st) := _source_closure bf st in
    let inputs := closure ++ uniq libs in
    let cmd :=
      ["SHELL=" +:+ substs_SHELL (environment st); "$(PYTHON_PATH)";
       "$(topsrcdir)/config/expandlibs_gen.py"; "-o";
       lib_name obj +:+ ".desc"] ++ inputs in
    on_backend_file bf
      (rule cmd (Some (desc_of <$> inputs)) None
         (Some [lib_name obj +:+ ".desc"]) (Some "AR %o") None None true) st
  else
    on_backend_file bf
      (rule ["touch"; "%o"] (Some []) None
         (Some [lib_name obj; mozpath_join (basename obj) (lib_name obj)])
         (Some "LINK %o") None None true) st.
End Linking.

(** ** The hooks [CommonBackend] calls *)

(** What [_handle_idl_manager] reads of the [XPIDLManager]. *)
Record XPIDLManager := {
  (** [idl['source']] for [idl] in [manager.idls.values()] *)
  idls : list string;
  (** [manager.modules]: the destination and the idls of every module *)
  modules : gmap string (string * list string);
  (** [manager.interface_manifests.items()] *)
  interface_manifests : list (string * list string);
  chrome_manifests : list string;
}.

(** Python's order on lists of strings and on pairs, as [sorted] uses it on
    the tuples of a unified mapping. *)
Fixpoint list_leb (l1 l2 : list string) : bool :=
  match l1, l2 with
  | [], _ => true
  | _ :: _, [] => false
  | x :: l1', y :: l2' =>
      match String.compare x y with
      | Lt => true
      | Eq => list_leb l1' l2'
      | Gt => false
      end
  end.

Definition pair_le (a b : string * list string) : Prop :=
  match String.compare a.1 b.1 with
  | Lt => True
  | Eq => list_leb a.2 b.2
  | Gt => False
  end.

Global Instance pair_le_dec : RelDecision pair_le.
Proof.
  intros a b. unfold pair_le. destruct (String.compare a.1 b.1); apply _.
Defined.

Definition sorted_pairs (l : list (string * list string))
    : list (string * list string) :=
  merge_sort pair_le l.

Section Hooks.
Context `{Collaborators}.

Definition _handle_idl_manager (manager : XPIDLManager) (st : TupOnly)
    : TupOnly :=
  if is_artifact_build (environment st) then st
  else
    let '(dist_idl_backend_file, st) :=
      _get_backend_file "dist/idl" None None st in
    let st :=
      foldl (fun st source =>
               on_backend_file dist_idl_backend_file
                 (symlink_rule source None (Some _installed_files)) st)
            st (idls manager) in
    let '(backend_file, st) := _get_backend_file "xpcom/xpidl" None None st in
    let st := on_backend_file backend_file export_shell st in
    let st :=
      foldl (fun st module =>
               let '(dest, idls) := modules manager !!! module in
               let cmd :=
                 ["$(PYTHON_PATH)"; "$(PLY_INCLUDE)"; "-I$(IDL_PARSER_DIR)";
                  "-I$(IDL_PARSER_CACHE_DIR)";
                  "$(topsrcdir)/python/mozbuild/mozbuild/action/xpidl-process.py";
                  "--cache-dir"; "$(IDL_PARSER_CACHE_DIR)"; "$(DIST)/idl";
                  "$(DIST)/include";
                  "$(MOZ_OBJ_ROOT)/" +:+ dest +:+ "/components"; module]
                 ++ sorted idls in
               let outputs :=
                 ["$(MOZ_OBJ_ROOT)/" +:+ dest +:+ "/components/" +:+ module
                  +:+ ".xpt"]
                 ++ ((fun f => "$(MOZ_OBJ_ROOT)/dist/include/" +:+ f +:+ ".h")
                       <$> sorted idls) in
               on_backend_file backend_file
                 (rule cmd
                    (Some ["$(MOZ_OBJ_ROOT)/xpcom/idl-parser/xpidl/xpidllex.py";
                           "$(MOZ_OBJ_ROOT)/xpcom/idl-parser/xpidl/xpidlyacc.py";
                           _installed_files])
                    None (Some outputs) (Some ("XPIDL " +:+ module)) None None
                    true) st)
            st (sorted (map_to_list (modules manager)).*1) in
    let entries :=
      foldl (fun m '(manifest, entries) =>
               foldl (fun m xpt => manifest_add manifest ("interfaces " +:+ xpt) m)
                     m entries)
            (_manifest_entries st) (interface_manifests manager) in
    let entries :=
      foldl (fun m c => manifest_add c "manifest components/interfaces.manifest" m)
            entries (chrome_manifests manager) in
    set_manifest_entries entries st.

(** The rule that runs [ipdl.py] is commented out in the source: what is
    left of the hook are the compile rules of the unified sources, written
    for the object [None]. *)
Definition _handle_ipdl_sources (ipdl_dir : string)
    (sorted_ipdl_sources : list string)
    (unified_ipdl_cppsrcs_mapping : list (string * list string))
    (st : TupOnly) : TupOnly :=
  let '(backend_file, st) := _get_backend_file ipdl_dir None None st in
  foldl (fun st '(source, extra_sources) =>
           _write_sources backend_file "NoneType" source ".cpp" extra_sources st)
        st (sorted_pairs unified_ipdl_cppsrcs_mapping).

(** [all_preprocessed_sources] and [all_non_static_basenames] are the values
    of the methods of [webidls] with these names. *)
Definition _handle_webidl_build
    (all_preprocessed_sources all_non_static_basenames : list string)
    (expected_build_output_files : list string) (st : TupOnly) : TupOnly :=
  let '(backend_file, st) := _get_backend_file "dom/bindings" None None st in
  let st := on_backend_file backend_file export_shell st in
  let st :=
    foldl (fun st source => _preprocess backend_file source None st)
          st (sorted all_preprocessed_sources) in
  let cmd :=
    _py_action "webidl"
    ++ [mozpath_join (mozpath_join (topsrcdir (environment st)) "dom")
          "bindings"] in
  (* The WebIDLCodegenManager knows all of the .cpp and .h files that will
     be created, but there are a few additional files that are also created
     by the webidl py_action. *)
  let outputs :=
    ["_cache/webidlyacc.py"; "codegen.json"; "codegen.pp"; "parser.out"]
    ++ expected_build_output_files in
  on_backend_file backend_file
    (rule cmd (Some all_non_static_basenames) None (Some outputs)
       (Some "WebIDL code generation") None None true) st.
End Hooks.

(** A call of one of the three hooks, with its arguments. *)
Inductive hook_call :=
| handle_idl_manager (manager : XPIDLManager)
| handle_ipdl_sources (ipdl_dir : string) (sorted_ipdl_sources : list string)
    (unified_ipdl_cppsrcs_mapping : list (string * list string))
| handle_webidl_build
    (all_preprocessed_sources all_non_static_basenames : list string)
    (expected_build_output_files : list string).

Section Inherited.
Context `{Collaborators}.

Definition call_hook (st : TupOnly) (call : hook_call) : TupOnly :=
  match call with
  | handle_idl_manager manager => _handle_idl_manager manager st
  | handle_ipdl_sources ipdl_dir sorted_ipdl_sources mapping =>
      _handle_ipdl_sources ipdl_dir sorted_ipdl_sources mapping st
  | handle_webidl_build sources basenames expected =>
      _handle_webidl_build sources basenames expected st
  end.

(** [CommonBackend.consume_finished(self)], the first statement of
    [TupOnly.consume_finished] (l.300).  The inherited method is outside
    these sources; what it does to this backend is to call the hooks, and
    [calls] is the sequence of the calls it makes. *)
Definition CommonBackend_consume_finished (calls : list hook_call)
    (st : TupOnly) : TupOnly :=
  foldl call_hook st calls.
End Inherited.

Section Walk.
Context `{Collaborators}.

Definition skipped_relativedirs : list string :=
  ["build/unix/elfhack"; "build/unix/elfhack/inject"; "build/clang-plugin";
   "build/clang-plugin/tests"].

Definition delay (obj : BuildObject) (bf : BackendTupfile) : BackendTupfile :=
  {| bf_topsrcdir := bf_topsrcdir bf; srcdir := srcdir bf; objdir := objdir bf;
     relobjdir := relobjdir bf; name := name bf;
     rules_included := rules_included bf; shell_exported := shell_exported bf;
     defines := defines bf; host_defines := host_defines bf;
     delayed_generated_files := delayed_generated_files bf ++ [obj];
     _sources := _sources bf; fh := fh bf |}.

(** The branches of [consume_object] after the backend file is known. *)
Definition dispatch (backend_file : string) (obj : BuildObject) (st : TupOnly)
    : result (bool * TupOnly) :=
  match obj with
  | GeneratedFile c g =>
      (* These files are already generated by make before tup runs. *)
      let skip_files :=
        ["buildid.h"; "source-repo.h"]
        ++ (if is_artifact_build (environment st)
            then _compile_env_gen_files else []) in
      if existsb (fun f => existsb (mozpath_match f) skip_files) (outputs g)
      then Ok (false, st)
      else if str_in "application.ini.h" (outputs g) then
        Ok (true, on_backend_file backend_file (delay obj) st)
      else st' ← _process_generated_file backend_file c g st; Ok (true, st')
  | ChromeManifestEntry c m =>
      if startswith (cm_install_target m) "dist/bin" then
        let top_level := mozpath_join (cm_install_target m) "chrome.manifest" in
        let entries := _manifest_entries st in
        let entries :=
          if negb (String.eqb (cm_path m) top_level) then
            manifest_add top_level
              ("manifest " +:+ mozpath_relpath (cm_path m) (cm_install_target m))
              entries
          else entries in
        Ok (true,
            set_manifest_entries
              (manifest_add (cm_path m) (cm_entry m) entries) st)
      else Ok (true, st)
  | Defines c d => Ok (true, _process_defines backend_file d false st)
  | HostDefines c d => Ok (true, _process_defines backend_file d true st)
  | FinalTargetFiles c f =>
      st' ← _process_final_target_files f st; Ok (true, st')
  | FinalTargetPreprocessedFiles c f =>
      Ok (true, _process_final_target_pp_files backend_file f st)
  | BaseSources c s => Ok (true, _process_sources c s backend_file st)
  | Link l =>
      (* Do that later. We need to collect all the sources first. *)
      if is_Program l || is_SharedLibrary l || is_StaticLibrary l
      then Ok (true, on_backend_file backend_file (delay obj) st)
      else Ok (true, st)
  | OtherContextDerived _ _ | NotContextDerived _ => Ok (true, st)
  end.

(** [TupOnly.consume_object]: the value returned and the new state. *)
Definition consume_object (obj : BuildObject) (st : TupOnly)
    : result (bool * TupOnly) :=
  if str_in (obj_relativedir obj) skipped_relativedirs then Ok (true, st)
  else
    match context_of obj with
    | None => Ok (false, st)
    | Some c =>
        let st :=
          match obj with
          | BaseSources c s =>
              if CommonBackend_calls_unified_hook obj
              then _process_unified_sources c s st else st
          | _ => st
          end in
        if CommonBackend_consume_object obj then Ok (true, st)
        else
          let '(backend_file, st) := _get_backend_file_for c st in
          dispatch backend_file obj st
    end.

(** The loop over the delayed objects of one backend file. *)
Definition process_delayed (bf : string) (obj : BuildObject) (st : TupOnly)
    : result TupOnly :=
  match obj with
  | GeneratedFile c g => _process_generated_file bf c g st
  | Link l =>
      if is_BaseProgram l || is_SharedLibrary l || is_StaticLibrary l
      then Ok (_process_program bf l st)
      else Ok st
  | _ => Ok st
  end.

(** [self._write_file]: the file at [path] is written with [content]. *)
Definition _write_file (path content : string) (st : TupOnly) : TupOnly :=
  set_written (written st ++ [(path, content)]) st.

(** [with self._write_file(fh=backend_file): pass]: the rule file is
    closed. *)
Definition close (bf : string) (st : TupOnly) : TupOnly :=
  _write_file (name (backend_file st bf)) (contents (backend_file st bf)) st.

(** The content written for one manifest. *)
Definition manifest_content (entries : gset string) : string :=
  String.concat "" ((fun e => e +:+ nl) <$> sorted (elements entries)).

(** The loop of [consume_finished] over [self._manifest_entries]. *)
Definition write_manifests (st : TupOnly) : TupOnly :=
  foldl (fun st '(target, entries) =>
           _write_file (mozpath_join (topobjdir (environment st)) target)
             (manifest_content entries) st)
        st (_manifest_entries st).

(** [TupOnly.consume_finished], up to the closing of the rule files; the
    global [Tuprules.tup] and the call of [tup init] follow.  [calls] are
    the hooks the inherited method calls first. *)
Definition consume_finished (calls : list hook_call) (st : TupOnly)
    : result TupOnly :=
  let st := CommonBackend_consume_finished calls st in
  let st := write_manifests st in
  for_each
    (fun objdir st =>
       st' ← for_each (process_delayed objdir)
               (delayed_generated_files (backend_file st objdir)) st;
       Ok (close objdir st'))
    (sorted (map_to_list (_backend_files st)).*1) st.

(** The walk over the objects the frontend emits. *)
Definition consume (objs : list BuildObject) (st : TupOnly) : result TupOnly :=
  for_each (fun obj st => r ← consume_object obj st; Ok r.2) objs st.

(** A full run: every object, then [consume_finished] with the hooks
    [calls] of the inherited method. *)
Definition run (env : Environment) (json : option (list db_record))
    (objs : list BuildObject) (calls : list hook_call) : result TupOnly :=
  st ← consume objs (_init env json); consume_finished calls st.
End Walk.

(** ** A concrete instance of the collaborators

    POSIX paths as [posixpath] and [mozpack.path] compute them, the quoting
    of [mozbuild.shellutil], an empty source tree for [FileFinder], and a
    [CommonBackend] that handles unified sources through the hook and leaves
    every other object to [TupOnly].  The examples below run on it. *)
Module posix.
(** [s.split('/')]. *)
Fixpoint split_go (acc s : string) : list string :=
  match s with
  | EmptyString => [acc]
  | String c s' =>
      if Ascii.eqb c "/"%char then acc :: split_go "" s'
      else split_go (acc +:+ String c "") s'
  end.
Definition split : string → list string := split_go "".

(** ['/'.join(l)]. *)
Definition unsplit (l : list string) : string := String.concat "/" l.

Definition join (a b : string) : string :=
  if startswith b "/" then b
  else if String.eqb a "" then b
  else if endswith a "/" then a +:+ b
  else a +:+ "/" +:+ b.

(** The loop of [posixpath.normpath] over the components. *)
Definition norm_step (absolute : bool) (new_comps : list string)
    (comp : string) : list string :=
  if String.eqb comp "" || String.eqb comp "." then new_comps
  else if negb (String.eqb comp "..")
          || (negb absolute && bool_decide (new_comps = []))
          || bool_decide (last new_comps = Some "..")
  then new_comps ++ [comp]
  else removelast new_comps.

Definition normpath (path : string) : string :=
  if String.eqb path "" then "."
  else
    let initial :=
      if startswith path "//" && negb (startswith path "///") then "//"
      else if startswith path "/" then "/" else "" in
    let comps :=
      foldl (norm_step (negb (String.eqb initial ""))) [] (split path) in
    let path := initial +:+ unsplit comps in
    if String.eqb path "" then "." else path.

Fixpoint strip_common (a b : list string) : list string * list string :=
  match a, b with
  | x :: a', y :: b' => if String.eqb x y then strip_common a' b' else (a, b)
  | _, _ => (a, b)
  end.

(** [mozpath.relpath] on absolute paths. *)
Definition relpath (path start : string) : string :=
  let comps p := filter (fun x => x ≠ "") (split (normpath p)) in
  let '(start_rest, path_rest) := strip_common (comps start) (comps path) in
  unsplit (((fun _ => "..") <$> start_rest) ++ path_rest).

(** The text before and after the last occurrence of [c]. *)
Fixpoint rsplit_at (c : ascii) (s : string) : option (string * string) :=
  match s with
  | EmptyString => None
  | String a s' =>
      match rsplit_at c s' with
      | Some (x, y) => Some (String a x, y)
      | None => if Ascii.eqb a c then Some ("", s') else None
      end
  end.

Fixpoint all_char (c : ascii) (s : string) : bool :=
  match s with
  | EmptyString => true
  | String a s' => Ascii.eqb a c && all_char c s'
  end.

Definition splitext (p : string) : string * string :=
  match rsplit_at "."%char p with
  | None => (p, "")
  | Some (root, ext) =>
      if char_in "/"%char ext || all_char "."%char (last_segment root)
      then (p, "") else (root, "." +:+ ext)
  end.

Definition basedir (path : string) (bases : list string) : option string :=
  if str_in path bases then Some path
  else
    List.find (fun b => String.eqb b "" || startswith path (b +:+ "/"))
      (reverse (sorted bases)).

(** [mozpath.match] for patterns without [**]. *)
Fixpoint glob (pattern : list ascii) : list ascii → bool :=
  match pattern with
  | [] => fun path =>
      match path with [] => true | c :: _ => Ascii.eqb c "/"%char end
  | a :: pattern' =>
      if Ascii.eqb a "*"%char then
        fix star (path : list ascii) : bool :=
          glob pattern' path
          || match path with
             | c :: path' => negb (Ascii.eqb c "/"%char) && star path'
             | [] => false
             end
      else fun path =>
        match path with
        | c :: path' => Ascii.eqb a c && glob pattern' path'
        | [] => false
        end
  end.

Definition path_match (path pattern : string) : bool :=
  String.eqb pattern ""
  || glob (String.list_ascii_of_string pattern)
       (String.list_ascii_of_string path).

Fixpoint rstrip_slash_rev (s : list ascii) : list ascii :=
  match s with
  | c :: s' => if Ascii.eqb c "/"%char then rstrip_slash_rev s' else s
  | [] => []
  end.

Definition path_split (p : string) : string * string :=
  match rsplit_at "/"%char p with
  | None => ("", p)
  | Some (h, tail) =>
      let head := h +:+ "/" in
      (if all_char "/"%char head then head
       else String.string_of_list_ascii
              (reverse (rstrip_slash_rev
                          (reverse (String.list_ascii_of_string head)))),
       tail)
  end.

Definition needs_quote (c : ascii) : bool :=
  bool_decide (c ∈ String.list_ascii_of_string
                     "\ '#$&()*;<>?[]`{|}"
                   ++ [ascii_of_nat 9; ascii_of_nat 10; ascii_of_nat 13;
                       ascii_of_nat 34]).

Fixpoint escape_quotes (s : string) : string :=
  match s with
  | EmptyString => ""
  | String c s' =>
      (if Ascii.eqb c "'"%char then "'\''" else String c "")
      +:+ escape_quotes s'
  end.

Definition quote (s : string) : string :=
  if negb (String.eqb s "")
     && negb (existsb needs_quote (String.list_ascii_of_string s))
     && negb (startswith s "~")
  then s else "'" +:+ escape_quotes s +:+ "'".

Definition is_unified (obj : BuildObject) : bool :=
  match obj with
  | BaseSources _ s => bool_decide (s_class s = data.UnifiedSources)
  | _ => false
  end.

Definition collaborators_with (rust_is_static : bool) : Collaborators :=
  {| mozpath_join := join;
     mozpath_normpath := normpath;
     mozpath_relpath := relpath;
     mozpath_basename := last_segment;
     mozpath_splitext := splitext;
     mozpath_basedir := basedir;
     mozpath_match := path_match;
     mozpath_split := split;
     os_path_split := path_split;
     shell_quote := quote;
     FileFinder_find := fun _ _ => [];
     RustLibrary_is_StaticLibrary := rust_is_static;
     CommonBackend_consume_object := is_unified;
     CommonBackend_calls_unified_hook := is_unified |}.

(** [RustLibrary] derives from [StaticLibrary], as in [frontend/data.py]. *)
Definition collaborators : Collaborators := collaborators_with true.
End posix.

(** ** The command database writer ([compilation/database.py]) *)

(** [CompileDBBackend.consume_finished], l.139-145: the argument vector of
    the record for the key [(directory, filename, unified)] of [self._db]
    with the template [cmd].  The rest of the loop body expands the
    variables of every argument, appends the per-source flags of
    [filename], and quotes and joins the result. *)
Definition db_arguments (cmd : list string) (filename : string)
    (unified : option string) : list string :=
  cmd ++ [match unified with None => filename | Some u => u end].

(** [CompileDBBackend._process_unified_sources]: the keys it registers, one
    for each unified file and one for each of its constituents. *)
Definition unified_db_keys (objdir : string)
    (unified_source_mapping : list (string * list string))
    : list (string * string * option string) :=
  flat_map (fun f => (objdir, f.1, None)
                       :: ((fun entry => (objdir, entry, Some f.1)) <$> f.2))
    unified_source_mapping.

(** ** Notions used in the statements *)

(** The outputs [rule] writes for the outputs and group it was given. *)
Definition emitted_outputs (outputs : list string) (output_group : option string)
    : list string :=
  outputs ++
    (if existsb header_like outputs then [_includes_group]
     else if truthy output_group then [default "" output_group] else []).

(** The rules of the rule file of [objdir]; none when there is no such file. *)
Definition rules_of (st : TupOnly) (objdir : string) : list rule_record :=
  from_option rules [] (_backend_files st !! objdir).

(** The group tokens of the backend; every other output is a path. *)
Definition is_group (o : string) : bool :=
  str_in o [_installed_files; _includes_group; _objects_group].

Definition concrete_outputs (r : rule_record) : list string :=
  filter (fun o => is_group o = false) (r_outputs r).

(** The paths the rules of the rule file of [objdir] claim as outputs, one
    entry per rule and output. *)
Definition claimed_of (st : TupOnly) (objdir : string) : list string :=
  rules_of st objdir ≫= concrete_outputs.

(** [l] is reached from [lib] through [linked_libraries]. *)
Inductive descendant : Linkable → Linkable → Prop :=
| descendant_child l lib :
    l ∈ linked_libraries lib → descendant l lib
| descendant_step l l' lib :
    descendant l l' → l' ∈ linked_libraries lib → descendant l lib.

(** Deduplication that keeps the first occurrence, the way the
    specification words it: the head stays, its later copies go. *)
Fixpoint first_seen (l : list string) : list string :=
  match l with
  | [] => []
  | x :: l' => x :: filter (fun y => y ≠ x) (first_seen l')
  end.

(** [self._manifest_entries.get(k)]. *)
Fixpoint manifest_lookup (m : list (string * gset string)) (k : string)
    : option (gset string) :=
  match m with
  | [] => None
  | (k', s) :: m' => if String.eqb k' k then Some s else manifest_lookup m' k
  end.

Definition manifest_add_all (adds : list (string * string))
    (m : list (string * gset string)) : list (string * gset string) :=
  foldl (fun m ke => manifest_add ke.1 ke.2 m) m adds.

(** [st'] has the manifests, the environment, the database and the written
    files of [st]. *)
Definition frame (st st' : TupOnly) : Prop :=
  _manifest_entries st' = _manifest_entries st
  ∧ environment st' = environment st
  ∧ _commands_db st' = _commands_db st
  ∧ written st' = written st.

Section Statements.
Context `{Collaborators}.

(** The variable [inputs] of [_process_program]. *)
Definition link_inputs (bf : string) (obj : Linkable) (st : TupOnly)
    : list string :=
  (_source_closure bf st).1 ++ uniq (link_plan obj).1.

Definition archive_command (obj : Linkable) (st : TupOnly)
    (inputs : list string) : list string :=
  ["SHELL=" +:+ substs_SHELL (environment st); "$(PYTHON_PATH)";
   "$(topsrcdir)/config/expandlibs_gen.py"; "-o"; lib_name obj +:+ ".desc"]
  ++ inputs.

(** What one element of [lib.linked_libraries] makes
    [write_shared_and_system_libs] append. *)
Definition closure_step (l : Linkable) : plan :=
  if is_StaticLibrary l || is_RustLibrary l
  then write_shared_and_system_libs l
  else ([lib_path l], []).

(** The object name [_write_sources] records for the file [f]. *)
Definition object_name (f : string) : string :=
  mozpath_basename (mozpath_splitext f).1 +:+ ".o".

(** The manifest lines one object contributes: destination and line. *)
Definition manifest_adds (obj : BuildObject) : list (string * string) :=
  if str_in (obj_relativedir obj) skipped_relativedirs then []
  else if CommonBackend_consume_object obj then []
  else
    match obj with
    | ChromeManifestEntry c m =>
        if startswith (cm_install_target m) "dist/bin" then
          let top_level :=
            mozpath_join (cm_install_target m) "chrome.manifest" in
          (if negb (String.eqb (cm_path m) top_level)
           then [(top_level,
                  "manifest "
                  +:+ mozpath_relpath (cm_path m) (cm_install_target m))]
           else [])
          ++ [(cm_path m, cm_entry m)]
        else []
    | _ => []
    end.

(** A file of an install mapping that is linked by name: a source path
    without wildcard, with a name to install it under. *)
Definition plain_file (p : Path) : Prop :=
  p_class p ≠ data.ObjDirPath
  ∧ char_in "*"%char (p_str p) = false
  ∧ truthy (Some (target_basename p)) = true.

(** An install mapping of plain files that reaches
    [_process_final_target_files]. *)
Definition plain_install (obj : BuildObject) : Prop :=
  match obj with
  | FinalTargetFiles c f =>
      str_in (relativedir c) skipped_relativedirs = false
      ∧ CommonBackend_consume_object obj = false
      ∧ Forall (fun pf => Forall plain_file pf.2) (files_walk f)
  | _ => False
  end.

(** The rule file and the name of every output an install mapping
    declares. *)
Definition install_names (env : Environment) (obj : BuildObject)
    : list (string * string) :=
  match obj with
  | FinalTargetFiles c f =>
      if startswith (install_target f) "_tests" then []
      else
        '(path, files) ← files_walk f;
        p ← files;
        [(mozpath_normpath
            (mozpath_join (topobjdir env)
               (mozpath_join (install_target f) path)),
          target_basename p)]
  | _ => []
  end.

(** The names declared for the rule file [k]. *)
Definition names_for (k : string) (names : list (string * string))
    : list string :=
  (filter (fun kn => kn.1 = k) names).*2.

(** No rule file has deferred work. *)
Definition nothing_delayed (st : TupOnly) : Prop :=
  ∀ k b, _backend_files st !! k = Some b → delayed_generated_files b = [].

End Statements.

(** ** The command database writer: [CompileDBBackend]

    The whole of [compilation/database.py].  [mozbuild.util.expand_variables],
    [util.check_top_objdir] and the inherited [CommonBackend.consume_object]
    are parameters; the records [consume_finished] hands to [json.dump] are
    its result. *)
Module compiledb.

(** A value of [substs] or of [variables]: a string or a list of strings
    ([types.StringTypes] or not). *)
Inductive value :=
| Str (s : string)
| Lst (l : list string).

(** [not value], for a value that may be absent. *)
Definition falsy (v : option value) : bool :=
  match v with
  | None => true
  | Some (Str s) => String.eqb s ""
  | Some (Lst l) => bool_decide (l = [])
  end.

(** What [list.extend(value)] appends: the characters of a string, the
    elements of a list. *)
Definition extend_with (v : value) : list string :=
  match v with
  | Str s => (fun c => String c "") <$> String.list_ascii_of_string s
  | Lst l => l
  end.

Record ConfigEnvironment := {
  topsrcdir : string;
  topobjdir : string;
  substs : gmap string value;
}.

(** The key [(objdir, filename, unified)] of [self._db]. *)
Definition db_key : Type := string * string * option string.

Record CompileDBBackend := {
  environment : ConfigEnvironment;
  (** [OrderedDict]: keys in first-insertion order *)
  _db : list (db_key * list string);
  _envs : gmap string ConfigEnvironment;
  (** [defaultdict(list)]: an absent key holds [[]] *)
  _includes : gmap string (list string);
  _defines : gmap string (list string);
  (** [defaultdict(dict)] *)
  _local_flags : gmap string (gmap string value);
  _per_source_flags : gmap string (list string);
  _extra_includes : gmap string (list string);
  _gyp_dirs : gset string;
  _dist_include_testing : string;
}.

Definition set_db (db : list (db_key * list string)) (st : CompileDBBackend)
    : CompileDBBackend :=
  {| environment := environment st; _db := db; _envs := _envs st;
     _includes := _includes st; _defines := _defines st;
     _local_flags := _local_flags st;
     _per_source_flags := _per_source_flags st;
     _extra_includes := _extra_includes st; _gyp_dirs := _gyp_dirs st;
     _dist_include_testing := _dist_include_testing st |}.

Definition set_envs (m : gmap string ConfigEnvironment) (st : CompileDBBackend)
    : CompileDBBackend :=
  {| environment := environment st; _db := _db st; _envs := m;
     _includes := _includes st; _defines := _defines st;
     _local_flags := _local_flags st;
     _per_source_flags := _per_source_flags st;
     _extra_includes := _extra_includes st; _gyp_dirs := _gyp_dirs st;
     _dist_include_testing := _dist_include_testing st |}.

Definition set_includes (m : gmap string (list string)) (st : CompileDBBackend)
    : CompileDBBackend :=
  {| environment := environment st; _db := _db st; _envs := _envs st;
     _includes := m; _defines := _defines st;
     _local_flags := _local_flags st;
     _per_source_flags := _per_source_flags st;
     _extra_includes := _extra_includes st; _gyp_dirs := _gyp_dirs st;
     _dist_include_testing := _dist_include_testing st |}.

Definition set_defines (m : gmap string (list string)) (st : CompileDBBackend)
    : CompileDBBackend :=
  {| environment := environment st; _db := _db st; _envs := _envs st;
     _includes := _includes st; _defines := m;
     _local_flags := _local_flags st;
     _per_source_flags := _per_source_flags st;
     _extra_includes := _extra_includes st; _gyp_dirs := _gyp_dirs st;
     _dist_include_testing := _dist_include_testing st |}.

Definition set_local_flags (m : gmap string (gmap string value))
    (st : CompileDBBackend) : CompileDBBackend :=
  {| environment := environment st; _db := _db st; _envs := _envs st;
     _includes := _includes st; _defines := _defines st;
     _local_flags := m;
     _per_source_flags := _per_source_flags st;
     _extra_includes := _extra_includes st; _gyp_dirs := _gyp_dirs st;
     _dist_include_testing := _dist_include_testing st |}.

Definition set_per_source_flags (m : gmap string (list string))
    (st : CompileDBBackend) : CompileDBBackend :=
  {| environment := environment st; _db := _db st; _envs := _envs st;
     _includes := _includes st; _defines := _defines st;
     _local_flags := _local_flags st;
     _per_source_flags := m;
     _extra_includes := _extra_includes st; _gyp_dirs := _gyp_dirs st;
     _dist_include_testing := _dist_include_testing st |}.

Definition set_extra_includes (m : gmap string (list string))
    (st : CompileDBBackend) : CompileDBBackend :=
  {| environment := environment st; _db := _db st; _envs := _envs st;
     _includes := _includes st; _defines := _defines st;
     _local_flags := _local_flags st;
     _per_source_flags := _per_source_flags st;
     _extra_includes := m; _gyp_dirs := _gyp_dirs st;
     _dist_include_testing := _dist_include_testing st |}.

Definition set_gyp_dirs (s : gset string) (st : CompileDBBackend)
    : CompileDBBackend :=
  {| environment := environment st; _db := _db st; _envs := _envs st;
     _includes := _includes st; _defines := _defines st;
     _local_flags := _local_flags st;
     _per_source_flags := _per_source_flags st;
     _extra_includes := _extra_includes st; _gyp_dirs := s;
     _dist_include_testing := _dist_include_testing st |}.

(** The linkables are those of the model of the tup backend. *)
Local Abbreviation LinkableObject := Linkable (only parsing).

(** The objects [consume_object] dispatches on.  [defines] is
    [obj.defines.get_defines()] when [obj.defines] is a [Defines], and
    [None] when it is not. *)
Inductive DbObject :=
| DirectoryTraversal (c : ObjContext) (config : ConfigEnvironment)
| Sources (generated : bool) (c : ObjContext) (config : ConfigEnvironment)
    (defines : option (list string)) (files : list string)
    (canonical_suffix : string)
| UnifiedSources (c : ObjContext) (config : ConfigEnvironment)
    (unified_source_mapping : list (string * list string))
    (canonical_suffix : string)
| Linkable (l : LinkableObject) (config : ConfigEnvironment)
    (defines : option (list string)) (lib_defines : list string)
    (is_unit_test : bool)
| LocalInclude (c : ObjContext) (path : string)
| VariablePassthru (c : ObjContext) (variables : gmap string value)
| PerSourceFlag (c : ObjContext) (file_name : string) (flags : list string)
| OtherObject (c : ObjContext).

Definition context_of (obj : DbObject) : ObjContext :=
  match obj with
  | DirectoryTraversal c _ | Sources _ c _ _ _ _ | UnifiedSources c _ _ _
  | LocalInclude c _ | VariablePassthru c _ | PerSourceFlag c _ _
  | OtherObject c => c
  | Linkable l _ _ _ _ => l_context l
  end.

(** What [database.py] takes from outside, beside the paths and the quoting
    of [Collaborators]. *)
Class Outside := {
  expand_variables : string → gmap string value → string;
  check_top_objdir : string → bool;
  CommonBackend_consume_object : DbObject → bool;
  CommonBackend_calls_unified_hook : DbObject → bool;
}.

Definition COMPILERS (canonical_suffix : string) : option string :=
  if String.eqb canonical_suffix ".c" then Some "CC"
  else if String.eqb canonical_suffix ".cpp" then Some "CXX"
  else if String.eqb canonical_suffix ".m" then Some "CC"
  else if String.eqb canonical_suffix ".mm" then Some "CXX"
  (* Should be AS, but AS is $(CC)... *)
  else if String.eqb canonical_suffix ".S" then Some "AS"
  else if String.eqb canonical_suffix ".s" then Some "AS"
  else None.

Definition CFLAGS (canonical_suffix : string) : option string :=
  if String.eqb canonical_suffix ".c" then Some "CFLAGS"
  else if String.eqb canonical_suffix ".cpp" then Some "CXXFLAGS"
  else if String.eqb canonical_suffix ".m" then Some "CFLAGS"
  else if String.eqb canonical_suffix ".mm" then Some "CXXFLAGS"
  else if String.eqb canonical_suffix ".S" then Some "ASFLAGS"
  else if String.eqb canonical_suffix ".s" then Some "ASFLAGS"
  else None.

(** [db = self._db.setdefault(key, default)] followed by the in-place update
    [f] of [db]. *)
Fixpoint setdefault (key : db_key) (default : list string)
    (f : list string → list string) (db : list (db_key * list string))
    : list (db_key * list string) :=
  match db with
  | [] => [(key, f default)]
  | (k, v) :: db' =>
      if decide (k = key) then (k, f v) :: db'
      else (k, v) :: setdefault key default f db'
  end.

(** [self._db.get(key)]. *)
Fixpoint db_lookup (db : list (db_key * list string)) (key : db_key)
    : option (list string) :=
  match db with
  | [] => None
  | (k, v) :: db' => if decide (k = key) then Some v else db_lookup db' key
  end.

(** The local function [append_var] of both entry builders. *)
Definition append_var (cenv : ConfigEnvironment) (name : string)
    (db : list string) : list string :=
  let value := substs cenv !! name in
  if falsy value then db
  else
    match value with
    | Some (Str s) => db ++ String.words s
    | Some (Lst l) => db ++ l
    | None => db
    end.

Section Backend.
Context `{Collaborators} `{Outside}.

Definition _init (environment : ConfigEnvironment) : result CompileDBBackend :=
  if negb (check_top_objdir (topobjdir environment)) then Raise "Exception"
  else
    Ok {| environment := environment; _db := []; _envs := ∅; _includes := ∅;
          _defines := ∅; _local_flags := ∅; _per_source_flags := ∅;
          _extra_includes := ∅; _gyp_dirs := ∅;
          _dist_include_testing :=
            "-I" +:+ mozpath_join
                       (mozpath_join
                          (mozpath_join (topobjdir environment) "dist")
                          "include") "testing" |}.

(** The update of [db] by [_compiler_db_entry], for a suffix of
    [COMPILERS]. *)
Definition compiler_flags (objdir reldir : string) (cenv : ConfigEnvironment)
    (canonical_suffix : string) (db : list string) : list string :=
  if String.eqb canonical_suffix ".s" then
    String.words
      "$(AS) -o /dev/null $(ASFLAGS) $(MOZBUILD_ASFLAGS) $(AS_DASH_C_FLAG)"
  else if String.eqb canonical_suffix ".S" then
    String.words
      "$(AS) -o /dev/null $(DEFINES) $(ASFLAGS) $(MOZBUILD_ASFLAGS) $(LOCAL_INCLUDES) -c"
  else
    let cflags := default "" (CFLAGS canonical_suffix) in
    let db :=
      if str_in canonical_suffix [".mm"; ".cpp"] then db ++ ["$(STL_FLAGS)"]
      else db in
    let db :=
      db ++ ["$(DEFINES)";
             "-I" +:+ mozpath_join (topsrcdir cenv) reldir;
             "-I" +:+ objdir;
             "$(LOCAL_INCLUDES)";
             "-I" +:+ topobjdir cenv +:+ "/dist/include";
             "$(EXTRA_INCLUDES)"] in
    let db := append_var cenv "DSO_CFLAGS" db in
    let db := append_var cenv "DSO_PIC_CFLAGS" db in
    let db :=
      if str_in canonical_suffix [".c"; ".cpp"] then db ++ ["$(RTL_FLAGS)"]
      else db in
    let db := append_var cenv ("OS_COMPILE_" +:+ cflags) db in
    let db := append_var cenv "OS_CPPFLAGS" db in
    let db := append_var cenv ("OS_" +:+ cflags) db in
    let db := append_var cenv "MOZ_DEBUG_FLAGS" db in
    let db := append_var cenv "MOZ_OPTIMIZE_FLAGS" db in
    let db := append_var cenv "MOZ_FRAMEPTR_FLAGS" db in
    let db := db ++ ["$(WARNINGS_AS_ERRORS)"] in
    let db := db ++ ["$(MOZBUILD_" +:+ cflags +:+ ")"] in
    if String.eqb canonical_suffix ".m" then
      append_var cenv "OS_COMPILE_CMFLAGS" db ++ ["$(MOZBUILD_CMFLAGS)"]
    else if String.eqb canonical_suffix ".mm" then
      append_var cenv "OS_COMPILE_CMMFLAGS" db ++ ["$(MOZBUILD_CMMFLAGS)"]
    else db.

Definition _compiler_db_entry (objdir : string) (reldir : option string)
    (cenv : ConfigEnvironment) (filename canonical_suffix : string)
    (unified : option string) (st : CompileDBBackend) : CompileDBBackend :=
  match COMPILERS canonical_suffix with
  | None => st
  | Some compiler =>
      let reldir :=
        if truthy reldir then default "" reldir
        else mozpath_relpath objdir (topobjdir cenv) in
      set_db
        (setdefault (objdir, filename, unified)
           ["$(" +:+ compiler +:+ ")"; "-o"; "/dev/null"; "-c"]
           (compiler_flags objdir reldir cenv canonical_suffix) (_db st))
        st
  end.

(** The update of [db] by [_linker_db_entry] with the command line
    [command]. *)
Definition linker_flags (cenv : ConfigEnvironment) (command : string)
    (db : list string) : list string :=
  let db := db ++ [command] in
  let db := db ++ ["-o"; "/dev/null"] in
  let db := db ++ ["$(DSO_PIC_CFLAGS)"] in
  let db := db ++ ["$(DSO_LDOPTS)"] in
  let db := append_var cenv "MOZ_DEBUG_FLAGS" db in
  let db := append_var cenv "MOZ_OPTIMIZE_FLAGS" db in
  let db := append_var cenv "MOZ_FRAMEPTR_FLAGS" db in
  let db := db ++ ["$(WARNINGS_AS_ERRORS)"] in
  (* A placeholder for later... *)
  let db := db ++ ["<OBJS>"] in
  let db := db ++ ["$(LDFLAGS)"] in
  let db := db ++ ["$(MOZBUILD_LDFLAGS)"] in
  let db := db ++ ["$(MOZ_FIX_LINK_PATHS)"] in
  let db := db ++ ["$(OS_LDFLAGS)"] in
  let db := append_var cenv "LINKER_LDFLAGS" db in
  let db := db ++ ["$(STATIC_LIBS)"] in
  let db := db ++ ["$(SHARED_LIBS)"] in
  db ++ ["$(OS_LIBS)"].

(** [StaticLibrary] is not among the names [database.py] imports: the third
    test of the chain raises when it is reached. *)
Definition _linker_db_entry (obj : LinkableObject) (objdir : string)
    (reldir : option string) (cenv : ConfigEnvironment) (filename : string)
    (st : CompileDBBackend) : result CompileDBBackend :=
  let key := (objdir, filename, None) in
  if is_Program obj then
    Ok (set_db
          (setdefault key []
             (linker_flags cenv
                "SHELL=$(SHELL) $(PYTHON) -B $(MOZILLA_DIR)/config/expandlibs_exec.py --uselist -- $(CXX)")
             (_db st)) st)
  else if is_SharedLibrary obj then
    Ok (set_db
          (setdefault key []
             (linker_flags cenv
                "SHELL=$(SHELL) $(PYTHON) -B $(MOZILLA_DIR)/config/expandlibs_exec.py --uselist -- $(CC)")
             (_db st)) st)
  else Raise "NameError: global name 'StaticLibrary' is not defined".

Definition _process_unified_sources (objdir : string) (relativedir : string)
    (config : ConfigEnvironment)
    (unified_source_mapping : list (string * list string))
    (canonical_suffix : string) (st : CompileDBBackend) : CompileDBBackend :=
  (* For unified sources, only include the unified source file. *)
  foldl (fun st f =>
           let st :=
             _compiler_db_entry objdir (Some relativedir) config f.1
               canonical_suffix None st in
           foldl (fun st entry =>
                    _compiler_db_entry objdir (Some relativedir) config entry
                      canonical_suffix (Some f.1) st)
                 st f.2)
        st unified_source_mapping.

(** The three hooks; the arguments they do not read are left out. *)
Definition _handle_idl_manager (st : CompileDBBackend) : CompileDBBackend := st.

Definition _handle_ipdl_sources (ipdl_dir : string)
    (unified_ipdl_cppsrcs_mapping : list (string * list string))
    (st : CompileDBBackend) : CompileDBBackend :=
  foldl (fun st f =>
           _compiler_db_entry ipdl_dir None (environment st) f.1 ".cpp" None st)
        st unified_ipdl_cppsrcs_mapping.

Definition _handle_webidl_build (bindings_dir : string)
    (unified_source_mapping : list (string * list string))
    (st : CompileDBBackend) : CompileDBBackend :=
  foldl (fun st f =>
           _compiler_db_entry bindings_dir None (environment st) f.1 ".cpp" None
             st)
        st unified_source_mapping.

Definition skipped_relativedirs : list string :=
  ["build/unix/elfhack"; "build/unix/elfhack/inject"; "build/clang-plugin";
   "build/clang-plugin/tests";
   "toolkit/crashreporter/google-breakpad/src/common"].

(** [for d in defines: if d not in self._defines[objdir]: ...append(d)]. *)
Definition add_defines (objdir : string) (defines : option (list string))
    (st : CompileDBBackend) : CompileDBBackend :=
  match defines with
  | None => st
  | Some ds =>
      foldl (fun st d =>
               let known := default [] (_defines st !! objdir) in
               if bool_decide (d ∈ known) then st
               else set_defines (<[objdir := known ++ [d]]> (_defines st)) st)
            st ds
  end.

(** [self._local_flags[objdir][var] = value]. *)
Definition set_local_flag (objdir var : string) (v : value)
    (st : CompileDBBackend) : CompileDBBackend :=
  set_local_flags
    (<[objdir := <[var := v]> (default ∅ (_local_flags st !! objdir))]>
       (_local_flags st)) st.

(** [del self._local_flags[objdir][var]], under the test that [var] is
    there. *)
Definition del_local_flag (objdir var : string) (st : CompileDBBackend)
    : CompileDBBackend :=
  set_local_flags
    (<[objdir := delete var (default ∅ (_local_flags st !! objdir))]>
       (_local_flags st)) st.

Definition passthru_variables : list string :=
  ["MOZBUILD_CFLAGS"; "MOZBUILD_CXXFLAGS"; "MOZBUILD_CMFLAGS";
   "MOZBUILD_CMMFLAGS"; "MOZBUILD_ASFLAGS"; "ASFLAGS"; "AS"; "AS_DASH_C_FLAG";
   "RTL_FLAGS"; "VISIBILITY_FLAGS"].

(** [CompileDBBackend.consume_object]; it returns [True] on every path. *)
Definition consume_object (obj : DbObject) (st : CompileDBBackend)
    : result CompileDBBackend :=
  (* Those are difficult directories, that will be handled later. *)
  if str_in (relativedir (context_of obj)) skipped_relativedirs then Ok st
  else
    let st :=
      match obj with
      | UnifiedSources c config mapping suffix =>
          if CommonBackend_calls_unified_hook obj
          then _process_unified_sources (obj_objdir c) (relativedir c) config
                 mapping suffix st
          else st
      | _ => st
      end in
    if CommonBackend_consume_object obj then Ok st
    else
      let objdir := obj_objdir (context_of obj) in
      match obj with
      | DirectoryTraversal c config =>
          let st := set_envs (<[objdir := config]> (_envs st)) st in
          Ok (foldl (fun st var =>
                       let value := substs config !! var in
                       if falsy value then st
                       else from_option
                              (fun v => set_local_flag objdir var v st) st value)
                    st ["STL_FLAGS"; "VISIBILITY_FLAGS"; "WARNINGS_AS_ERRORS"])
      | Sources _ c config defines files canonical_suffix =>
          let st := add_defines objdir defines st in
          (* For other sources, include each source file. *)
          Ok (foldl (fun st f =>
                       _compiler_db_entry objdir (Some (relativedir c)) config f
                         canonical_suffix None st)
                    st files)
      | Linkable l config defines lib_defines is_unit_test =>
          if is_Program l then
            _linker_db_entry l objdir (Some (relativedir (l_context l))) config
              (program l) st
          else if is_SharedLibrary l then
            _linker_db_entry l objdir (Some (relativedir (l_context l))) config
              (lib_name l) st
          else
            let st := add_defines objdir defines st in
            let st :=
              set_defines
                (<[objdir := default [] (_defines st !! objdir) ++ lib_defines]>
                   (_defines st)) st in
            if is_SimpleProgram l && is_unit_test then
              let known := default [] (_extra_includes st !! objdir) in
              if bool_decide (_dist_include_testing st ∈ known) then Ok st
              else
                Ok (set_extra_includes
                      (<[objdir := known ++ [_dist_include_testing st]]>
                         (_extra_includes st)) st)
            else Ok st
      | LocalInclude c path =>
          Ok (set_includes
                (<[objdir := default [] (_includes st !! objdir)
                             ++ ["-I" +:+ mozpath_normpath path]]>
                   (_includes st)) st)
      | VariablePassthru c variables =>
          let st :=
            if falsy (variables !! "IS_GYP_DIR") then st
            else set_gyp_dirs (_gyp_dirs st ∪ {[objdir]}) st in
          let st :=
            foldl (fun st var =>
                     match variables !! var with
                     | Some v => set_local_flag objdir var v st
                     | None => st
                     end)
                  st passthru_variables in
          let st :=
            if negb (falsy (variables !! "DISABLE_STL_WRAPPING"))
               && bool_decide
                    (is_Some (default ∅ (_local_flags st !! objdir)
                              !! "STL_FLAGS"))
            then del_local_flag objdir "STL_FLAGS" st else st in
          let st :=
            if negb (falsy (variables !! "ALLOW_COMPILER_WARNINGS"))
               && bool_decide
                    (is_Some (default ∅ (_local_flags st !! objdir)
                              !! "WARNINGS_AS_ERRORS"))
            then del_local_flag objdir "WARNINGS_AS_ERRORS" st else st in
          Ok st
      | PerSourceFlag c file_name flags =>
          Ok (set_per_source_flags
                (<[file_name := default [] (_per_source_flags st !! file_name)
                                ++ flags]>
                   (_per_source_flags st)) st)
      | UnifiedSources _ _ _ _ | OtherObject _ => Ok st
      end.

(** The dictionary [variables] of [consume_finished] for [directory]. *)
Definition variables_of (directory : string) (env : ConfigEnvironment)
    (st : CompileDBBackend) : gmap string value :=
  let local_extra :=
    default [] (_extra_includes st !! directory)
    ++ (if bool_decide (directory ∈ _gyp_dirs st) then []
        else
          var ← ["NSPR_CFLAGS"; "NSS_CFLAGS"; "MOZ_JPEG_CFLAGS";
                 "MOZ_PNG_CFLAGS"; "MOZ_ZLIB_CFLAGS"; "MOZ_PIXMAN_CFLAGS"];
          let f := substs env !! var in
          if falsy f then [] else from_option extend_with [] f) in
  default ∅ (_local_flags st !! directory)
  ∪ (list_to_map
       [("LOCAL_INCLUDES", Lst (default [] (_includes st !! directory)));
        ("DEFINES", Lst (default [] (_defines st !! directory)));
        ("EXTRA_INCLUDES", Lst local_extra);
        ("DIST", Str (mozpath_join (topobjdir env) "dist"));
        ("DEPTH", Str (topobjdir env));
        ("MOZILLA_DIR", Str (topsrcdir env));
        ("topsrcdir", Str (topsrcdir env));
        ("topobjdir", Str (topobjdir env))]
     ∪ substs env).

(** One turn of the loop [while True]: every argument expanded and split. *)
Definition expand_once (variables : gmap string value) (cmd : list string)
    : list string :=
  a ← cmd; String.words (expand_variables a variables).

(** The loop [while True], which ends when a turn changes nothing; [None]
    when [fuel] turns were not enough. *)
Fixpoint expand (fuel : nat) (variables : gmap string value)
    (cmd : list string) : option (list string) :=
  match fuel with
  | 0 => None
  | S fuel =>
      let c := expand_once variables cmd in
      if decide (c = cmd) then Some c else expand fuel variables c
  end.

(** The body of the loop of [consume_finished] for one entry of
    [self._db]. *)
Definition record_of (fuel : nat) (st : CompileDBBackend)
    (entry : db_key * list string) : option (result db_record) :=
  let '((directory, filename, unified), cmd) := entry in
  match _envs st !! directory with
  | None => Some (Raise "KeyError")
  | Some env =>
      let cmd := db_arguments cmd filename unified in
      c ← expand fuel (variables_of directory env st) cmd;
      let c := c ++ default [] (_per_source_flags st !! filename) in
      Some (Ok {| db_directory := directory;
                  db_command := join_sp (shell_quote <$> c);
                  db_file := mozpath_join directory filename |})
  end.

(** [CompileDBBackend.consume_finished]: the list it dumps as
    [compile_commands.json]. *)
Fixpoint records (fuel : nat) (st : CompileDBBackend)
    (db : list (db_key * list string)) : option (result (list db_record)) :=
  match db with
  | [] => Some (Ok [])
  | entry :: db' =>
      match record_of fuel st entry with
      | None => None
      | Some (Raise e) => Some (Raise e)
      | Some (Ok r) =>
          match records fuel st db' with
          | None => None
          | Some (Raise e) => Some (Raise e)
          | Some (Ok rs) => Some (Ok (r :: rs))
          end
      end
  end.

Definition consume_finished (fuel : nat) (st : CompileDBBackend)
    : option (result (list db_record)) :=
  records fuel st (_db st).
End Backend.
End compiledb.

(** ** Notions used in the properties of the walk and of the database *)

(** A shell word: not empty, without white space. *)
Definition is_word (w : string) : bool :=
  negb (String.eqb w "")
  && forallb (fun c => negb (Ascii.is_space c)) (String.list_ascii_of_string w).

Section Invariants.
Context `{Collaborators}.

(** The objects [consume_object] postpones to [consume_finished]. *)
Definition deferrable (obj : BuildObject) : Prop :=
  match obj with
  | GeneratedFile _ g => "application.ini.h" ∈ outputs g
  | Link l => is_Program l || is_SharedLibrary l || is_StaticLibrary l = true
  | _ => False
  end.

(** The line [include_rules] writes. *)
Definition include_line : entry := Text ("include_rules" +:+ nl).

(** The rule file has the line of [include_rules] once, and before its
    first rule, when [rules_included] is set; it has neither that line nor
    a rule when not. *)
Definition headed (b : BackendTupfile) : Prop :=
  if rules_included b then
    (∃ pre post,
       fh b = pre ++ include_line :: post
       ∧ (∀ r, RuleLine r ∉ pre)
       ∧ (include_line ∉ pre) ∧ include_line ∉ post)
  else (rules b = [] ∧ include_line ∉ fh b).

(** The rule file [b'] is [b] with more appended. *)
Definition extends (b b' : BackendTupfile) : Prop :=
  objdir b' = objdir b ∧ relobjdir b' = relobjdir b ∧ name b' = name b
  ∧ fh b `prefix_of` fh b'
  ∧ _sources b `prefix_of` _sources b'
  ∧ (∃ more, delayed_generated_files b'
             = delayed_generated_files b ++ more
             ∧ Forall deferrable more)
  ∧ (headed b → headed b').

(** The state [st'] is [st] with more appended. *)
Definition advances (st st' : TupOnly) : Prop :=
  environment st' = environment st
  ∧ _commands_db st' = _commands_db st
  ∧ (∀ k b, _backend_files st !! k = Some b →
       ∃ b', _backend_files st' !! k = Some b' ∧ extends b b')
  ∧ (∀ k b', _backend_files st' !! k = Some b' →
       _backend_files st !! k = None →
       objdir b' = k ∧ name b' = mozpath_join k "Tupfile"
       ∧ Forall deferrable (delayed_generated_files b')
       ∧ headed b')
  ∧ (∀ key, default 0 (_missing_commands st !! key)
            ≤ default 0 (_missing_commands st' !! key))
  ∧ (∀ t s, manifest_lookup (_manifest_entries st) t = Some s →
       ∃ s', manifest_lookup (_manifest_entries st') t = Some s' ∧ s ⊆ s')
  ∧ written st `prefix_of` written st'.

(** Every postponed object is one [consume_finished] can process. *)
Definition delayed_ok (st : TupOnly) : Prop :=
  ∀ k b, _backend_files st !! k = Some b →
    Forall deferrable (delayed_generated_files b).

(** One turn of the loop of [consume_finished] over the rule files. *)
Definition finish (k : string) (st : TupOnly) : result TupOnly :=
  st' ← for_each (process_delayed k)
          (delayed_generated_files (backend_file st k)) st;
  Ok (close k st').

(** An object the backend leaves no trace of. *)
Definition ignored (obj : BuildObject) : bool :=
  str_in (obj_relativedir obj) skipped_relativedirs
  || bool_decide (context_of obj = None)
  || (CommonBackend_consume_object obj
      && negb match obj with
              | BaseSources _ _ => CommonBackend_calls_unified_hook obj
              | _ => false
              end).

(** The rule of one XPIDL module, as the hook writes it. *)
Definition xpidl_rule (manager : XPIDLManager) (module : string)
    (r : rule_record) : Prop :=
  let '(dest, idls) := modules manager !!! module in
  r_display r = "o XPIDL " +:+ module
  ∧ r_cmd r
    = ["$(PYTHON_PATH)"; "$(PLY_INCLUDE)"; "-I$(IDL_PARSER_DIR)";
       "-I$(IDL_PARSER_CACHE_DIR)";
       "$(topsrcdir)/python/mozbuild/mozbuild/action/xpidl-process.py";
       "--cache-dir"; "$(IDL_PARSER_CACHE_DIR)"; "$(DIST)/idl";
       "$(DIST)/include"; "$(MOZ_OBJ_ROOT)/" +:+ dest +:+ "/components"; module]
      ++ sorted idls
  ∧ r_outputs r
    = ["$(MOZ_OBJ_ROOT)/" +:+ dest +:+ "/components/" +:+ module +:+ ".xpt"]
      ++ ((fun f => "$(MOZ_OBJ_ROOT)/dist/include/" +:+ f +:+ ".h")
            <$> sorted idls)
      ++ (match idls with [] => [] | _ => [_includes_group] end).

(** The manifest lines the XPIDL hook adds: destination and line. *)
Definition idl_manifest_adds (manager : XPIDLManager)
    : list (string * string) :=
  ('(manifest, entries) ← interface_manifests manager;
   (fun xpt => (manifest, "interfaces " +:+ xpt)) <$> entries)
  ++ ((fun c => (c, "manifest components/interfaces.manifest"))
        <$> chrome_manifests manager).
End Invariants.

(** [st'] has the written files of [st], and every rule file of [st] but
    that of [bf] unchanged. *)
Definition modifies_only (bf : string) (st st' : TupOnly) : Prop :=
  written st' = written st
  ∧ ∀ k b, k ≠ bf → _backend_files st !! k = Some b →
           _backend_files st' !! k = Some b.

Section Records.
Context `{Collaborators} `{compiledb.Outside}.

(** What [consume_finished] writes for the entry [entry]. *)
Definition written_for (fuel : nat) (st : compiledb.CompileDBBackend)
    (entry : compiledb.db_key * list string) (r : db_record) : Prop :=
  let '((directory, filename, unified), cmd) := entry in
  ∃ env c,
    compiledb._envs st !! directory = Some env
    ∧ compiledb.expand fuel (compiledb.variables_of directory env st)
        (db_arguments cmd filename unified) = Some c
    ∧ db_directory r = directory
    ∧ db_file r = mozpath_join directory filename
    ∧ db_command r
      = join_sp (shell_quote
                   <$> (c ++ default []
                               (compiledb._per_source_flags st !! filename))).
End Records.

(** [st'] has the keys of [st], in their order, followed by those of [ks]
    it did not have. *)
Definition registers (ks : list compiledb.db_key)
    (st st' : compiledb.CompileDBBackend) : Prop :=
  (∀ key, key ∈ (compiledb._db st').*1
          ↔ key ∈ (compiledb._db st).*1 ∨ key ∈ ks)
  ∧ (compiledb._db st).*1 `prefix_of` (compiledb._db st').*1
  ∧ (NoDup (compiledb._db st).*1 → NoDup (compiledb._db st').*1).

(** [self._local_flags[objdir].get(var)]. *)
Definition local_flag (st : compiledb.CompileDBBackend) (objdir var : string)
    : option compiledb.value :=
  default ∅ (compiledb._local_flags st !! objdir) !! var.

(** ** Example inputs

    A source tree [/src] built in [/obj], on the concrete collaborators. *)
Module examples.
#[local] Existing Instance posix.collaborators.

Definition env : Environment :=
  {| topsrcdir := "/src"; topobjdir := "/obj"; is_artifact_build := false;
     substs_SHELL := "/bin/sh" |}.

(** The context of an object declared in the directory [d]. *)
Definition ctx (d : string) : ObjContext :=
  {| relativedir := d; obj_srcdir := "/src/" +:+ d;
     obj_objdir := "/obj/" +:+ d; obj_relobjdir := d |}.

(** The fresh rule file of [/obj/a], and a state that holds only it, without
    and with a command database. *)
Definition tupfile : BackendTupfile :=
  BackendTupfile_init "/src/a" "/obj/a" "/src" "/obj".

Definition st_a : TupOnly :=
  set_backend_files {["/obj/a" := tupfile]} (_init env None).



(** What a run left behind. *)
Definition state_of (r : result TupOnly) : TupOnly :=
  match r with Ok st => st | Raise _ => _init env None end.

Definition rules_in (d : string) (r : result TupOnly) : list rule_record :=
  match r with
  | Ok st => rules (backend_file st d)
  | Raise _ => []
  end.

Definition closure_in (d : string) (r : result TupOnly) : list string :=
  match r with
  | Ok st => (_source_closure d st).1
  | Raise _ => []
  end.

(** C sources of the directory [d]. *)
Definition sources (d : string) (fs : list string) : BuildObject :=
  BaseSources (ctx d)
    {| s_class := data.Sources; files := fs; canonical_suffix := ".c";
       have_unified_mapping := false; unified_source_mapping := [] |}.

Definition sources_a : SourcesData :=
  {| s_class := data.Sources; files := ["/src/a/b.c"; "/src/a/a.c"];
     canonical_suffix := ".c"; have_unified_mapping := false;
     unified_source_mapping := [] |}.

(** The program [e] links the static library [a], which links the static
    library [b], which links the shared library [s]. *)
Definition libS : Linkable :=
  mkLinkable data.SharedLibrary (ctx "s") "" "libs.so" "libs.so" "s" [] ["-lrt"].

Definition libB : Linkable :=
  mkLinkable data.StaticLibrary (ctx "b") "" "libb.a" "libb.a" "b" [libS]
    ["-lm"; "-lpthread"].

Definition libA : Linkable :=
  mkLinkable data.StaticLibrary (ctx "a") "" "liba.a" "liba.a" "a" [libB]
    ["-lpthread"; "-ldl"].

Definition progE : Linkable :=
  mkLinkable data.Program (ctx "e") "e" "" "" "" [libA] ["-lm"; "-lz"].

Definition graph : list BuildObject :=
  [sources "e" ["/src/e/e.c"]; sources "a" ["/src/a/a.c"];
   sources "b" ["/src/b/b.c"]; sources "s" ["/src/s/s.c"];
   Link progE; Link libA; Link libB; Link libS].

(** The program [p] links the Rust library [r]. *)
Definition libR : Linkable :=
  mkLinkable data.RustLibrary (ctx "r") "" "libr.a" "libr.a" "r" [] [].

Definition progR : Linkable :=
  mkLinkable data.Program (ctx "p") "p" "" "" "" [libR] [].

(** The directory [d] installs its file [name] into [dist/bin]. *)
Definition install (d name : string) : BuildObject :=
  FinalTargetFiles (ctx d)
    {| is_ObjdirFiles := false; install_target := "dist/bin";
       files_walk :=
         [("", [{| p_class := data.SourcePath; p_str := name;
                   full_path := "/src/" +:+ d +:+ "/" +:+ name;
                   target_basename := name;
                   context_relobjdir := d |}])] |}.

Definition installs : list BuildObject :=
  [install "browser" "foo.js"; install "toolkit" "bar.js"].

Definition clashing_installs : list BuildObject :=
  [install "browser" "foo.js"; install "toolkit" "foo.js"].

(** A line of a chrome manifest below [dist/bin]. *)
Definition chrome (path entry : string) : BuildObject :=
  ChromeManifestEntry (ctx "browser")
    {| cm_install_target := "dist/bin"; cm_path := path; cm_entry := entry |}.

Definition manifests_ba : list BuildObject :=
  [chrome "dist/bin/chrome/b.manifest" "content b";
   chrome "dist/bin/chrome/a.manifest" "content a"].

Definition manifests_ab : list BuildObject :=
  [chrome "dist/bin/chrome/a.manifest" "content a";
   chrome "dist/bin/chrome/b.manifest" "content b"].

(** A generated file of [/obj/a] with the method [main] of [script]. *)
Definition generated (script : option string) : BuildObject :=
  GeneratedFile (ctx "a")
    {| script := script; method := Some "main"; outputs := ["gen.c"];
       inputs := []; flags := [] |}.
End examples.

(** ** Example inputs of the hooks and of the database writer *)
Module samples.
Import examples.
#[local] Existing Instance posix.collaborators.

(** An artifact build of the same tree. *)
Definition env_artifact : Environment :=
  {| topsrcdir := "/src"; topobjdir := "/obj"; is_artifact_build := true;
     substs_SHELL := "/bin/sh" |}.

(** A generated file of the script [gen.py] with the outputs [outs]. *)
Definition generated_data (outs : list string) : GeneratedFileData :=
  {| script := Some "gen.py"; method := Some "main"; outputs := outs;
     inputs := []; flags := [] |}.

Definition unified_without_mapping : SourcesData :=
  {| s_class := data.UnifiedSources; files := ["/src/a/a.cpp"];
     canonical_suffix := ".cpp"; have_unified_mapping := false;
     unified_source_mapping := [] |}.

Definition chrome_a : ChromeManifestEntryData :=
  {| cm_install_target := "dist/bin"; cm_path := "dist/bin/chrome/a.manifest";
     cm_entry := "content a" |}.

(** A header the directory [a] generates. *)
Definition generated_header : Path :=
  {| p_class := data.ObjDirPath; p_str := "gen.h";
     full_path := "/obj/a/gen.h"; target_basename := "gen.h";
     context_relobjdir := "a" |}.

Definition manager : XPIDLManager :=
  {| idls := ["/src/xpcom/base/nsISupports.idl"];
     modules := {["xpcom_base" := ("dist/bin", ["nsISupports"])]};
     interface_manifests :=
       [("dist/bin/components/interfaces.manifest", ["xpcom_base.xpt"])];
     chrome_manifests := ["dist/bin/chrome.manifest"] |}.

(** The states of a walk over [sources "a"] and of its deferred phase. *)
Definition walked_a : TupOnly :=
  state_of (consume [sources "a" ["/src/a/a.c"]] st_a).

Definition finished_a : TupOnly :=
  state_of (consume_finished [handle_idl_manager manager] walked_a).

(** The state of a walk over [installs]. *)
Definition walked_installs : TupOnly :=
  state_of (consume installs (_init env None)).

(** The state of a run over [installs] in which the inherited
    [consume_finished] calls the IDL and the IPDL hook. *)
Definition calls_idl_ipdl : list hook_call :=
  [handle_idl_manager manager;
   handle_ipdl_sources "ipc/ipdl" []
     [("/obj/ipc/ipdl/UnifiedProtocols0.cpp", [])]].

Definition ran_installs_hooks : TupOnly :=
  state_of (consume_finished calls_idl_ipdl walked_installs).

(** The outside of the database writer in the examples, whose commands hold
    no variable reference: expansion leaves an argument as it is, the object
    directory is accepted, and [CommonBackend] consumes nothing. *)
Definition outside : compiledb.Outside :=
  {| compiledb.expand_variables := fun s _ => s;
     compiledb.check_top_objdir := fun _ => true;
     compiledb.CommonBackend_consume_object := fun _ => false;
     compiledb.CommonBackend_calls_unified_hook := fun _ => false |}.

Definition config : compiledb.ConfigEnvironment :=
  {| compiledb.topsrcdir := "/src"; compiledb.topobjdir := "/obj";
     compiledb.substs :=
       {["STL_FLAGS" := compiledb.Str "-I/src/stl_wrappers"]} |}.

(** The database writer after the traversal of [/obj/a], without entries. *)
Definition db_st : compiledb.CompileDBBackend :=
  {| compiledb.environment := config; compiledb._db := [];
     compiledb._envs := {["/obj/a" := config]}; compiledb._includes := ∅;
     compiledb._defines := ∅; compiledb._local_flags := ∅;
     compiledb._per_source_flags := ∅; compiledb._extra_includes := ∅;
     compiledb._gyp_dirs := ∅;
     compiledb._dist_include_testing := "-I/obj/dist/include/testing" |}.



Definition record_a : db_record :=
  {| db_file := "/obj/a/a.c"; db_command := "cc -c a.c";
     db_directory := "/obj/a" |}.
End samples.


Ltac solve_notin :=
  let Hin := fresh "Hin" in
  intros Hin;
  repeat (apply elem_of_cons in Hin as [Hin|Hin]; [discriminate Hin|]);
  by apply elem_of_nil in Hin.

Ltac by_computation := vm_compute; reflexivity.

(** * Properties *)

Lemma string_length_app (s t : string) :
  String.length (s +:+ t) = String.length s + String.length t.
Proof. induction s as [|c s IH]; simpl; [done | by rewrite IH]. Qed.

Lemma substring_0_length (s : string) :
  String.substring 0 (String.length s) s = s.
Proof. induction s as [|c s IH]; simpl; [done | by rewrite IH]. Qed.

Lemma py_last_app (n : nat) (s t : string) :
  n <= String.length t → py_last n (s +:+ t) = py_last n t.
Proof.
  intros Hn. unfold py_last. rewrite string_length_app.
  replace (String.length s + String.length t - n)
    with (String.length s + (String.length t - n)) by lia.
  generalize (String.length t - n) as k. intros k.
  induction s as [|c s IH]; simpl; [done | exact IH].
Qed.

Lemma py_last_all (s : string) : py_last (String.length s) s = s.
Proof. unfold py_last. rewrite Nat.sub_diag. apply substring_0_length. Qed.

Lemma endswith_app (p suffix : string) : endswith (p +:+ suffix) suffix = true.
Proof.
  unfold endswith. rewrite py_last_app by done.
  rewrite py_last_all. apply String.eqb_refl.
Qed.

Lemma substring_split (k : nat) (s : string) :
  k <= String.length s →
  s = String.substring 0 k s +:+ String.substring k (String.length s - k) s.
Proof.
  revert k. induction s as [|c s IH]; intros [|k] Hk; simpl in *; try lia.
  - done.
  - f_equal. by rewrite substring_0_length.
  - change (String c s = String c (String.substring 0 k s
               +:+ String.substring k (String.length s - k) s)).
    f_equal. apply IH. lia.
Qed.

Lemma substring_0_short (m : nat) (s : string) :
  String.length s <= m → String.substring 0 m s = s.
Proof.
  revert m. induction s as [|c s IH]; intros [|m] Hm; simpl in *; try done; try lia.
  f_equal. apply IH. lia.
Qed.

Lemma endswith_spec (s suffix : string) :
  endswith s suffix = true ↔ ∃ p, s = p +:+ suffix.
Proof.
  split.
  - unfold endswith, py_last. intros Heq%String.eqb_eq.
    destruct (decide (String.length suffix <= String.length s)) as [Hle|Hgt].
    + exists (String.substring 0 (String.length s - String.length suffix) s).
      pose proof (substring_split (String.length s - String.length suffix) s) as Hs.
      replace (String.length s - (String.length s - String.length suffix))
        with (String.length suffix) in Hs by lia.
      rewrite Heq in Hs. apply Hs. lia.
    + exists "". simpl.
      replace (String.length s - String.length suffix) with 0 in Heq by lia.
      rewrite substring_0_short in Heq by lia. done.
  - intros [p ->]. apply endswith_app.
Qed.

(** ** Rule files *)

Lemma rules_write_entry_rule r bf :
  rules (write_entry (RuleLine r) bf) = rules bf ++ [r].
Proof. unfold rules, write_entry; simpl. by rewrite omap_app. Qed.

Lemma rules_write s bf : rules (write s bf) = rules bf.
Proof.
  unfold rules, write, write_entry; simpl.
  rewrite omap_app; simpl. apply app_nil_r.
Qed.

Lemma rules_include_rules bf : rules (include_rules bf) = rules bf.
Proof.
  unfold include_rules. destruct (rules_included bf); [done|].
  unfold set_rules_included, rules; simpl. apply (rules_write _ bf).
Qed.

Lemma rules_export_shell bf : rules (export_shell bf) = rules bf.
Proof.
  unfold export_shell. destruct (shell_exported bf); [done|].
  unfold set_shell_exported, rules; simpl.
  rewrite !omap_app; simpl. by rewrite !app_nil_r.
Qed.

Lemma rule_emits cmd inputs extra_inputs outputs display extra_outputs
    output_group check_unchanged bf :
  ∃ r,
    rules (rule cmd inputs extra_inputs outputs display extra_outputs
             output_group check_unchanged bf) = rules bf ++ [r]
    ∧ r_cmd r = cmd
    ∧ r_inputs r = or_nil inputs
    ∧ r_extra_inputs r = extra_inputs
    ∧ r_outputs r = emitted_outputs (or_nil outputs) output_group
    ∧ r_extra_outputs r = extra_outputs.
Proof.
  unfold rule. eexists. rewrite rules_write_entry_rule, rules_include_rules.
  split; [reflexivity|]. simpl. unfold emitted_outputs.
  repeat split. destruct (existsb header_like (or_nil outputs)); simpl; [done|].
  destruct (truthy output_group); [done | by rewrite app_nil_r].
Qed.

Lemma include_rules_fields bf :
  _sources (include_rules bf) = _sources bf
  ∧ delayed_generated_files (include_rules bf) = delayed_generated_files bf
  ∧ objdir (include_rules bf) = objdir bf
  ∧ relobjdir (include_rules bf) = relobjdir bf
  ∧ name (include_rules bf) = name bf
  ∧ defines (include_rules bf) = defines bf.
Proof. unfold include_rules. by destruct (rules_included bf). Qed.

Lemma rule_fields cmd inputs extra_inputs outputs display extra_outputs
    output_group check_unchanged bf :
  let bf' := rule cmd inputs extra_inputs outputs display extra_outputs
               output_group check_unchanged bf in
  _sources bf' = _sources bf
  ∧ delayed_generated_files bf' = delayed_generated_files bf
  ∧ objdir bf' = objdir bf
  ∧ relobjdir bf' = relobjdir bf
  ∧ name bf' = name bf
  ∧ defines bf' = defines bf.
Proof. unfold rule; simpl. apply include_rules_fields. Qed.

Lemma header_like_spec o :
  header_like o = true ↔ (∃ p, o = p +:+ ".h") ∨ (∃ p, o = p +:+ ".cfg").
Proof.
  unfold header_like. rewrite orb_true_iff.
  rewrite <- !endswith_spec. done.
Qed.

Lemma existsb_header_like outputs :
  existsb header_like outputs = true
  ↔ ∃ o, o ∈ outputs ∧ ((∃ p, o = p +:+ ".h") ∨ (∃ p, o = p +:+ ".cfg")).
Proof.
  rewrite existsb_exists. setoid_rewrite header_like_spec.
  setoid_rewrite list_elem_of_In. done.
Qed.

(** C3 (amended).  Every call of [rule] emits one rule.  When one of the
    outputs ends in [.h] or [.cfg], the includes group is the group output
    of the rule, in place of any group the caller specified; the caller's
    group is kept only when no output ends in [.h] or [.cfg]. *)
Theorem C3_header_output_overrides_group cmd inputs extra_inputs outputs display
    extra_outputs output_group check_unchanged bf :
  ∃ r,
    rules (rule cmd inputs extra_inputs outputs display extra_outputs
             output_group check_unchanged bf) = rules bf ++ [r]
    ∧ ((∃ o, o ∈ or_nil outputs
             ∧ ((∃ p, o = p +:+ ".h") ∨ (∃ p, o = p +:+ ".cfg")))
       → r_outputs r = or_nil outputs ++ [_includes_group])
    ∧ ((∀ o, o ∈ or_nil outputs
             → ¬ ((∃ p, o = p +:+ ".h") ∨ (∃ p, o = p +:+ ".cfg")))
       → r_outputs r
         = or_nil outputs
           ++ (if truthy output_group then [default "" output_group] else [])).
Proof.
  destruct (rule_emits cmd inputs extra_inputs outputs display extra_outputs
              output_group check_unchanged bf)
    as (r & Hr & _ & _ & _ & Hout & _).
  exists r. split; [exact Hr|]. unfold emitted_outputs in Hout.
  split.
  - intros Hex%existsb_header_like. by rewrite Hout, Hex.
  - intros Hnone. rewrite Hout.
    destruct (existsb header_like (or_nil outputs)) eqn:Hex; [|done].
    apply existsb_header_like in Hex as (o & Ho & Hsuf).
    by destruct (Hnone o Ho).
Qed.

(** C4 (amended).  A call of [rule] without outputs does not fail, whatever
    the command: it emits one rule record with the command it was given,
    whose outputs are empty or hold only the caller's group. *)
Theorem C4_rule_without_outputs_is_emitted cmd inputs extra_inputs display
    extra_outputs output_group check_unchanged bf :
  ∃ r,
    rules (rule cmd inputs extra_inputs (Some []) display extra_outputs
             output_group check_unchanged bf) = rules bf ++ [r]
    ∧ rules (rule cmd inputs extra_inputs None display extra_outputs
               output_group check_unchanged bf) = rules bf ++ [r]
    ∧ r_cmd r = cmd
    ∧ r_outputs r
      = if truthy output_group then [default "" output_group] else [].
Proof.
  destruct (rule_emits cmd inputs extra_inputs (Some []) display extra_outputs
              output_group check_unchanged bf)
    as (r & Hr & Hcmd & _ & _ & Hout & _).
  exists r. repeat split; done.
Qed.

(** ** The backend state *)

Section state_lemmas.
Context `{Collaborators}.

Lemma backend_file_lookup st k b :
  _backend_files st !! k = Some b → backend_file st k = b.
Proof. intros Hk. unfold backend_file. by rewrite lookup_total_alt, Hk. Qed.

Lemma lookup_on_backend_file k f st k' :
  _backend_files (on_backend_file k f st) !! k'
  = if decide (k = k') then f <$> _backend_files st !! k'
    else _backend_files st !! k'.
Proof.
  unfold on_backend_file; simpl. rewrite lookup_alter.
  destruct (decide (k = k')) as [->|]; done.
Qed.

Lemma lookup_on_backend_file_eq k f st b :
  _backend_files st !! k = Some b →
  _backend_files (on_backend_file k f st) !! k = Some (f b).
Proof. intros Hk. rewrite lookup_on_backend_file, decide_True, Hk; done. Qed.

Lemma get_backend_file_spec relativedir objdir srcdir st :
  let r := _get_backend_file relativedir objdir srcdir st in
  is_Some (_backend_files r.2 !! r.1)
  ∧ _backend_files st ⊆ _backend_files r.2
  ∧ (∀ k, k ≠ r.1 → _backend_files r.2 !! k = _backend_files st !! k)
  ∧ (_backend_files st !! r.1 = None →
     ∃ s, _backend_files r.2 !! r.1
          = Some (BackendTupfile_init s r.1 (topsrcdir (environment st))
                    (topobjdir (environment st))))
  ∧ environment r.2 = environment st
  ∧ _manifest_entries r.2 = _manifest_entries st
  ∧ _missing_commands r.2 = _missing_commands st
  ∧ _commands_db r.2 = _commands_db st
  ∧ written r.2 = written st.
Proof.
  unfold _get_backend_file.
  set (k := mozpath_normpath _).
  destruct (_backend_files st !! k) eqn:Hk; simpl.
  - rewrite Hk. repeat split; eauto. congruence.
  - rewrite lookup_insert_eq. repeat split; eauto.
    + by apply insert_subseteq.
    + intros k' Hk'. by rewrite lookup_insert_ne.
Qed.

Lemma get_backend_file_keeps relativedir objdir srcdir st k b :
  _backend_files st !! k = Some b →
  _backend_files (_get_backend_file relativedir objdir srcdir st).2 !! k
  = Some b.
Proof.
  intros Hk.
  destruct (get_backend_file_spec relativedir objdir srcdir st)
    as (_ & Hsub & _).
  by eapply lookup_weaken.
Qed.

Lemma source_closure_keeps bf st k b :
  _backend_files st !! k = Some b →
  _backend_files (_source_closure bf st).2 !! k = Some b.
Proof.
  intros Hk. unfold _source_closure.
  destruct (_get_backend_file _ None None st) as [k' st'] eqn:Hg. simpl.
  change st' with (k', st').2. rewrite <- Hg.
  by apply get_backend_file_keeps.
Qed.

Lemma source_closure_fields bf st :
  environment (_source_closure bf st).2 = environment st
  ∧ _missing_commands (_source_closure bf st).2 = _missing_commands st
  ∧ _commands_db (_source_closure bf st).2 = _commands_db st.
Proof.
  unfold _source_closure.
  destruct (_get_backend_file _ None None st) as [k' st'] eqn:Hg. simpl.
  destruct (get_backend_file_spec (relobjdir (backend_file st bf)) None None st)
    as (_ & _ & _ & _ & He & _ & Hm & Hd & _).
  rewrite Hg in He, Hm, Hd. done.
Qed.
End state_lemmas.

(** ** Link rules *)

Section link_lemmas.
Context `{Collaborators}.

Lemma on_backend_file_missing k f st :
  _missing_commands (on_backend_file k f st) = _missing_commands st.
Proof. done. Qed.

Lemma process_program_rule bf obj st b :
  _backend_files st !! bf = Some b →
  let inputs := link_inputs bf obj st in
  ∃ r,
    rules (backend_file (_process_program bf obj st) bf) = rules b ++ [r]
    ∧ r_cmd r
      = (if is_Program obj then
           link_command st (objdir b) (program obj) inputs (link_plan obj).2
         else if is_SharedLibrary obj then
           link_command st (objdir b) (lib_name obj) inputs (link_plan obj).2
         else if is_StaticLibrary obj then archive_command obj st inputs
         else ["touch"; "%o"])
    ∧ r_inputs r
      = (if is_Program obj || is_SharedLibrary obj || is_StaticLibrary obj
         then desc_of <$> inputs else [])
    ∧ r_outputs r
      = emitted_outputs
          (if is_Program obj then [program obj]
           else if is_SharedLibrary obj then [lib_name obj]
           else if is_StaticLibrary obj then [lib_name obj +:+ ".desc"]
           else [lib_name obj; mozpath_join (basename obj) (lib_name obj)])
          None
    ∧ _missing_commands (_process_program bf obj st) = _missing_commands st.
Proof.
  intros Hb inputs. subst inputs. unfold link_inputs, _process_program.
  rewrite (backend_file_lookup st bf b Hb).
  destruct (link_plan obj) as [libs system_libs] eqn:Hplan. simpl.
  pose proof (source_closure_keeps bf st bf b Hb) as Hkeep.
  pose proof (source_closure_fields bf st) as (Henv & Hmiss & Hdb).
  destruct (_source_closure bf st) as [closure st1] eqn:Hcl. simpl in *.
  destruct (is_Program obj) eqn:HP; simpl;
    [|destruct (is_SharedLibrary obj) eqn:HS; simpl;
      [|destruct (is_StaticLibrary obj) eqn:HA; simpl]].
  all: match goal with
       | |- context [on_backend_file ?k (rule ?c ?i ?ei ?o ?d ?eo ?g ?u) ?s] =>
           destruct (rule_emits c i ei o d eo g u b)
             as (r & Hr & Hcmd & Hin & _ & Hout & _);
           exists r;
           assert (_backend_files s !! k = Some b) as Hs by done;
           rewrite (backend_file_lookup _ k _
                      (lookup_on_backend_file_eq k _ s b Hs))
       end.
  all: rewrite Hr, Hcmd, Hin, Hout; simpl.
  all: unfold archive_command; rewrite ?Henv; repeat split; done.
Qed.
End link_lemmas.

Lemma header_like_desc s : header_like (s +:+ ".desc") = false.
Proof.
  unfold header_like.
  rewrite (py_last_app 2 s ".desc"), (py_last_app 4 s ".desc") by (simpl; lia).
  reflexivity.
Qed.

Lemma desc_of_spec l :
  ((∃ p, l = p +:+ ".a") → desc_of l = l +:+ ".desc")
  ∧ ((¬ ∃ p, l = p +:+ ".a") → desc_of l = l).
Proof.
  unfold desc_of. destruct (endswith l ".a") eqn:He.
  - split; [done|]. intros []. by apply endswith_spec.
  - split; [|done]. intros Hex%endswith_spec. congruence.
Qed.

Section C9.
Context `{Collaborators}.

Lemma is_StaticLibrary_not_linked obj :
  is_StaticLibrary obj = true →
  is_Program obj = false ∧ is_SharedLibrary obj = false.
Proof.
  unfold is_StaticLibrary, is_RustLibrary, is_Program, is_SharedLibrary.
  destruct (l_class obj); simpl; intros; split; done.
Qed.

(** C9.  The rule emitted for a link target takes as inputs the variable
    [inputs] of [_process_program] with every path ending in [.a] replaced
    by that path followed by [.desc].  For a static library the rule does
    not link: its command is the archive-list generator
    [expandlibs_gen.py -o <lib_name>.desc] followed by [inputs], and
    [<lib_name>.desc] is its only output. *)
Theorem C9_static_library_descriptor bf obj st b :
  _backend_files st !! bf = Some b →
  ∃ r,
    rules (backend_file (_process_program bf obj st) bf) = rules b ++ [r]
    ∧ Forall2
        (fun dep input =>
           ((∃ p, dep = p +:+ ".a") → input = dep +:+ ".desc")
           ∧ ((¬ ∃ p, dep = p +:+ ".a") → input = dep))
        (if is_Program obj || is_SharedLibrary obj || is_StaticLibrary obj
         then link_inputs bf obj st else [])
        (r_inputs r)
    ∧ (is_StaticLibrary obj = true →
       r_cmd r
       = ["SHELL=" +:+ substs_SHELL (environment st); "$(PYTHON_PATH)";
          "$(topsrcdir)/config/expandlibs_gen.py"; "-o";
          lib_name obj +:+ ".desc"] ++ link_inputs bf obj st
       ∧ r_outputs r = [lib_name obj +:+ ".desc"]).
Proof.
  intros Hb.
  destruct (process_program_rule bf obj st b Hb)
    as (r & Hr & Hcmd & Hin & Hout & _).
  exists r. split; [exact Hr|]. split.
  - rewrite Hin. destruct (_ || _); [|constructor].
    apply Forall2_fmap_r, Forall_Forall2_diag.
    apply Forall_forall. intros l _. apply desc_of_spec.
  - intros HA. destruct (is_StaticLibrary_not_linked obj HA) as [HP HS].
    rewrite Hcmd, Hout, HP, HS, HA. split; [done|].
    unfold emitted_outputs. simpl. by rewrite header_like_desc.
Qed.
End C9.

(** ** Compile rules *)

Lemma incr_lookup k m k' :
  default 0 (incr k m !! k')
  = if decide (k = k') then S (default 0 (m !! k)) else default 0 (m !! k').
Proof.
  unfold incr. rewrite lookup_insert. destruct (decide (k = k')); done.
Qed.

Section compile_lemmas.
Context `{Collaborators}.

Lemma write_sources_rule bf class_name f suffix unified_inputs st b :
  _backend_files st !! bf = Some b →
  let cmd := lookup_command (_commands_db st) f (objdir b) unified_inputs in
  let st' := _write_sources bf class_name f suffix unified_inputs st in
  ∃ r,
    rules (backend_file st' bf) = rules b ++ [r]
    ∧ r_cmd r = (if missing cmd then ["touch"; "%o"] else or_nil cmd)
    ∧ r_inputs r = [f]
    ∧ r_extra_inputs r
      = Some ([_includes_group; _installed_files] ++ unified_inputs)
    ∧ r_outputs r = ["%B.o"; _objects_group]
    ∧ _missing_commands st'
      = (if missing cmd
         then incr class_name (incr suffix (_missing_commands st))
         else _missing_commands st)
    ∧ _sources (backend_file st' bf)
      = _sources b ++ [mozpath_basename (mozpath_splitext f).1 +:+ ".o"].
Proof.
  intros Hb cmd st'. subst cmd st'. unfold _write_sources.
  set (src := append_source _).
  pose proof (lookup_on_backend_file_eq bf src st b Hb) as Hb1.
  rewrite (backend_file_lookup _ bf _ Hb1).
  change (_commands_db (on_backend_file bf src st)) with (_commands_db st).
  change (objdir (src b)) with (objdir b).
  set (cmd := lookup_command _ _ _ _).
  destruct (missing cmd); simpl.
  all: match goal with
       | |- context [on_backend_file ?k (rule ?c ?i ?ei ?o ?d ?eo ?g ?u) ?s] =>
           destruct (rule_emits c i ei o d eo g u (src b))
             as (r & Hr & Hcmd & Hin & Hei & Hout & _);
           exists r;
           assert (_backend_files s !! k = Some (src b)) as Hs by done;
           rewrite (backend_file_lookup _ k _
                      (lookup_on_backend_file_eq k _ s _ Hs))
       end.
  all: rewrite Hr, Hcmd, Hin, Hei, Hout.
  all: repeat split; by rewrite (proj1 (rule_fields _ _ _ _ _ _ _ _ _)).
Qed.
End compile_lemmas.

Section C6.
Context `{Collaborators}.

(** C6 (amended).  A compile request whose command the database does not
    resolve emits the placeholder rule [touch %o] and increments the
    counters of its suffix and of its class.  A link request of a program
    or shared library without database entry emits [ld.gold -o %o] followed
    by its inputs and system libraries, and leaves the counters alone.
    Neither aborts the walk. *)
Theorem C6_missing_command bf st b class_name f suffix unified_inputs obj :
  _backend_files st !! bf = Some b →
  (missing (lookup_command (_commands_db st) f (objdir b) unified_inputs)
     = true →
   let st' := _write_sources bf class_name f suffix unified_inputs st in
   ∃ r,
     rules (backend_file st' bf) = rules b ++ [r]
     ∧ r_cmd r = ["touch"; "%o"]
     ∧ r_outputs r = ["%B.o"; _objects_group]
     ∧ _missing_commands st'
       = incr class_name (incr suffix (_missing_commands st)))
  ∧ (is_Program obj || is_SharedLibrary obj = true →
     _commands_db st
       !! (mozpath_join (objdir b)
             (if is_Program obj then program obj else lib_name obj),
           objdir b) = None →
     let st' := _process_program bf obj st in
     let inputs := link_inputs bf obj st in
     ∃ r,
       rules (backend_file st' bf) = rules b ++ [r]
       ∧ r_cmd r
         = ((fun e => if String.eqb e OBJS then join_sp inputs else e)
              <$> (["ld.gold"; "-o"; "%o"] ++ inputs))
           ++ uniq (link_plan obj).2
       ∧ _missing_commands st' = _missing_commands st).
Proof.
  intros Hb. split.
  - intros Hmiss st'.
    destruct (write_sources_rule bf class_name f suffix unified_inputs st b Hb)
      as (r & Hr & Hcmd & _ & _ & Hout & Hm & _).
    exists r. rewrite Hmiss in Hcmd, Hm. done.
  - intros Hkind Hdb st' inputs.
    destruct (process_program_rule bf obj st b Hb)
      as (r & Hr & Hcmd & _ & _ & Hm).
    exists r. split; [exact Hr|]. split; [|exact Hm].
    rewrite Hcmd. unfold link_command.
    destruct (is_Program obj) eqn:HP; simpl in Hkind.
    + by rewrite Hdb.
    + by rewrite Hkind, Hdb.
Qed.
End C6.

(** ** Link plans *)

Lemma Linkable_nested_ind (P : Linkable → Prop) :
  (∀ lib, Forall P (linked_libraries lib) → P lib) → ∀ lib, P lib.
Proof.
  intros Hstep. fix IH 1. intros lib. apply Hstep.
  destruct lib as [c ctx p ln imp bn libs sys]. simpl.
  induction libs as [|l libs IHl]; constructor; [apply IH | exact IHl].
Qed.




Section plan_lemmas.
Context `{Collaborators}.

Lemma write_shared_and_system_libs_unfold lib :
  write_shared_and_system_libs lib
  = plan_app
      (foldr (fun l p => plan_app (closure_step l) p) ([], [])
         (linked_libraries lib))
      ([], linked_system_libs lib).
Proof.
  by destruct lib.
Qed.



Lemma closure_paths lib p :
  p ∈ (write_shared_and_system_libs lib).1 →
  ∃ l, descendant l lib ∧ p = lib_path l
       ∧ is_RustLibrary l = false ∧ is_StaticLibrary l = false.
Proof.
  revert p. induction lib as [lib IH] using Linkable_nested_ind. intros p.
  rewrite write_shared_and_system_libs_unfold. simpl. rewrite app_nil_r.
  assert (∀ libs, libs ⊆ linked_libraries lib →
            p ∈ (foldr (fun l q => plan_app (closure_step l) q) ([], []) libs).1 →
            ∃ l, descendant l lib ∧ p = lib_path l
                 ∧ is_RustLibrary l = false ∧ is_StaticLibrary l = false)
    as Hloop; [|by apply Hloop].
  intros libs. induction libs as [|l libs IHl]; intros Hsub; simpl.
  - intros []%elem_of_nil.
  - assert (l ∈ linked_libraries lib) as Hl by (apply Hsub; left).
    intros [Hp|Hp]%elem_of_app.
    + unfold closure_step in Hp.
      destruct (is_StaticLibrary l) eqn:HA; simpl in Hp.
      * rewrite Forall_forall in IH.
        destruct (IH l Hl p Hp) as (l' & Hd & Hrest).
        exists l'. split; [|exact Hrest]. by eapply descendant_step.
      * destruct (is_RustLibrary l) eqn:HR; simpl in Hp.
        -- rewrite Forall_forall in IH.
           destruct (IH l Hl p Hp) as (l' & Hd & Hrest).
           exists l'. split; [|exact Hrest]. by eapply descendant_step.
        -- apply list_elem_of_singleton in Hp as ->.
           exists l. repeat split; try done. by apply descendant_child.
    + apply IHl; [|exact Hp]. intros x Hx. apply Hsub. by right.
Qed.

Lemma Program_not_Library obj :
  is_Program obj || is_SimpleProgram obj = true → is_Library obj = false.
Proof.
  unfold is_Program, is_SimpleProgram, is_Library.
  destruct (l_class obj); simpl; try done; intros _;
    apply bool_decide_eq_false; solve_notin.
Qed.
End plan_lemmas.

Section C8.
Context `{Collaborators}.

(** C8 (amended).  A [RustLibrary] dependency [lib] contributes nothing to
    the link plan of a library target.  Of a program or simple program it
    contributes its path, as the first entry it adds to the library list.
    Reached inside the closure walk, it is walked like a static library:
    the walk adds no path for [lib] itself, only the paths of descendants
    that are neither static nor Rust libraries. *)
Theorem C8_rust_library_in_link_plan obj lib :
  is_RustLibrary lib = true →
  (is_Library obj = true → link_library obj lib = ([], []))
  ∧ (is_Program obj || is_SimpleProgram obj = true →
     ∃ rest, (link_library obj lib).1 = lib_path lib :: rest)
  ∧ closure_step lib = write_shared_and_system_libs lib
  ∧ (∀ p, p ∈ (closure_step lib).1 →
       ∃ l, descendant l lib ∧ p = lib_path l
            ∧ is_RustLibrary l = false ∧ is_StaticLibrary l = false).
Proof.
  intros HR. split; [|split; [|split]].
  - intros HL. unfold link_library. by rewrite HL, HR.
  - intros HP. unfold link_library.
    rewrite (Program_not_Library obj HP), HP.
    destruct (is_StaticLibrary lib); simpl; eauto.
  - unfold closure_step. by rewrite HR, orb_true_r.
  - unfold closure_step. rewrite HR, orb_true_r. apply closure_paths.
Qed.
End C8.

(** ** Deduplication *)

Lemma fromkeys_first_seen l acc :
  fold_left fromkeys_step l acc
  = acc ++ filter (fun y => y ∉ acc) (first_seen l).
Proof.
  revert acc. induction l as [|x l IH]; intros acc; simpl.
  - by rewrite app_nil_r.
  - rewrite IH. unfold fromkeys_step. rewrite filter_cons.
    case_bool_decide as Hx.
    + rewrite decide_False by (by intros []).
      f_equal. rewrite list_filter_filter. apply list_filter_iff.
      intros y. simpl. split; [|by intros [? ?]].
      intros Hy. split; [done|]. by intros ->.
    + rewrite decide_True by done. rewrite <- app_assoc. simpl. do 2 f_equal.
      rewrite list_filter_filter. apply list_filter_iff.
      intros y. simpl. rewrite elem_of_app, list_elem_of_singleton. tauto.
Qed.

Lemma uniq_first_seen l : uniq l = first_seen l.
Proof.
  unfold uniq. rewrite fromkeys_first_seen. simpl.
  induction (first_seen l) as [|y k IH]; [done|].
  rewrite filter_cons_True by apply not_elem_of_nil. by rewrite IH.
Qed.

Lemma first_seen_elem_of l x : x ∈ first_seen l ↔ x ∈ l.
Proof.
  induction l as [|y l IH]; simpl; [done|].
  rewrite !elem_of_cons, list_elem_of_filter, IH.
  destruct (decide (x = y)); tauto.
Qed.

Lemma first_seen_NoDup l : NoDup (first_seen l).
Proof.
  induction l as [|y l IH]; simpl; constructor.
  - rewrite list_elem_of_filter. tauto.
  - by apply NoDup_filter.
Qed.

Section C2.
Context `{Collaborators}.


End C2.

(** ** The walk *)

Section walk_lemmas.
Context `{Collaborators}.

Lemma rules_of_get_backend_file relativedir objdir srcdir st k :
  rules_of (_get_backend_file relativedir objdir srcdir st).2 k
  = rules_of st k.
Proof.
  destruct (get_backend_file_spec relativedir objdir srcdir st)
    as (_ & _ & Hother & Hnew & _).
  unfold rules_of.
  destruct (decide (k = (_get_backend_file relativedir objdir srcdir st).1))
    as [->|Hne]; [|by rewrite Hother].
  destruct (_backend_files st !! _) as [b|] eqn:Hk.
  - by rewrite (get_backend_file_keeps _ _ _ _ _ _ Hk).
  - destruct (Hnew eq_refl) as [s ->]. done.
Qed.

Lemma rules_of_on_backend_file k f st k' :
  (∀ b, rules (f b) = rules b) →
  rules_of (on_backend_file k f st) k' = rules_of st k'.
Proof.
  intros Hf. unfold rules_of. rewrite lookup_on_backend_file.
  destruct (decide (k = k')); [|done].
  destruct (_backend_files st !! k'); simpl; [apply Hf | done].
Qed.

Lemma get_backend_file_missing relativedir objdir srcdir st :
  _missing_commands (_get_backend_file relativedir objdir srcdir st).2
  = _missing_commands st.
Proof. apply get_backend_file_spec. Qed.

(** C10.  A [GeneratedFile] whose [script] or [method] is falsy makes
    [_process_generated_file] return the state unchanged, in the walk and in
    the deferred phase alike; [consume_object] does not raise on it, emits
    no rule in any rule file and counts no missing command. *)
Theorem C10_generated_file_without_script c g st bf :
  truthy (script g) && truthy (method g) = false →
  _process_generated_file bf c g st = Ok st
  ∧ process_delayed bf (GeneratedFile c g) st = Ok st
  ∧ ∃ consumed st',
      consume_object (GeneratedFile c g) st = Ok (consumed, st')
      ∧ (∀ objdir, rules_of st' objdir = rules_of st objdir)
      ∧ _missing_commands st' = _missing_commands st.
Proof.
  intros Hfalsy.
  assert (∀ k s, _process_generated_file k c g s = Ok s) as Hgen.
  { intros k s. unfold _process_generated_file. by rewrite Hfalsy. }
  split; [apply Hgen|]. split; [apply Hgen|].
  unfold consume_object. simpl.
  destruct (str_in (relativedir c) skipped_relativedirs); [by eauto|].
  destruct (CommonBackend_consume_object (GeneratedFile c g)); [by eauto|].
  unfold _get_backend_file_for.
  pose proof (rules_of_get_backend_file
                (mozpath_relpath (obj_objdir c) (topobjdir (environment st)))
                (Some (obj_objdir c)) (Some (obj_srcdir c)) st) as Hrules.
  pose proof (get_backend_file_missing
                (mozpath_relpath (obj_objdir c) (topobjdir (environment st)))
                (Some (obj_objdir c)) (Some (obj_srcdir c)) st) as Hmiss.
  destruct (_get_backend_file _ _ _ st) as [k st1]. simpl in *.
  destruct (existsb _ (outputs g)); [by eauto|].
  destruct (str_in "application.ini.h" (outputs g)).
  - do 2 eexists. split; [reflexivity|]. split; [|exact Hmiss].
    intros objdir. by rewrite rules_of_on_backend_file.
  - rewrite Hgen. simpl. eauto.
Qed.
End walk_lemmas.

(** ** Sorting *)

Lemma sorted_Permutation l l' : l ≡ₚ l' → sorted l = sorted l'.
Proof.
  intros Hp. unfold sorted.
  apply (StronglySorted_unique String.le).
  - apply StronglySorted_merge_sort; apply _.
  - apply StronglySorted_merge_sort; apply _.
  - by rewrite !merge_sort_Permutation.
Qed.

Lemma sorted_StronglySorted l : StronglySorted String.le (sorted l).
Proof. apply StronglySorted_merge_sort; apply _. Qed.

Lemma sorted_Permutation_self l : sorted l ≡ₚ l.
Proof. apply merge_sort_Permutation. Qed.

Section sources_lemmas.
Context `{Collaborators}.

Lemma lookup_backend_file st k :
  is_Some (_backend_files st !! k) →
  _backend_files st !! k = Some (backend_file st k).
Proof. intros [b Hb]. by rewrite (backend_file_lookup st k b Hb). Qed.

Lemma on_backend_file_is_Some k f st k' :
  is_Some (_backend_files (on_backend_file k f st) !! k')
  ↔ is_Some (_backend_files st !! k').
Proof.
  rewrite lookup_on_backend_file. destruct (decide (k = k')); [|done].
  by rewrite fmap_is_Some.
Qed.

Lemma write_sources_is_Some bf class_name f suffix unified_inputs st k :
  is_Some (_backend_files
             (_write_sources bf class_name f suffix unified_inputs st) !! k)
  ↔ is_Some (_backend_files st !! k).
Proof.
  unfold _write_sources.
  destruct (missing _); unfold on_backend_file; simpl;
    rewrite !lookup_alter; destruct (decide (bf = k)) as [->|]; try done.
  all: rewrite decide_True by done. all: by rewrite !fmap_is_Some.
Qed.

Lemma write_sources_loop bf class_name suffix (inputs_of : string → list string)
    l st b :
  _backend_files st !! bf = Some b →
  let st' :=
    foldl (fun st f => _write_sources bf class_name f suffix (inputs_of f) st)
      st l in
  is_Some (_backend_files st' !! bf)
  ∧ _sources (backend_file st' bf) = _sources b ++ (object_name <$> l).
Proof.
  revert st b. induction l as [|f l IH]; intros st b Hb; simpl.
  - split; [by eauto|]. by rewrite (backend_file_lookup _ _ _ Hb), app_nil_r.
  - destruct (write_sources_rule bf class_name f suffix (inputs_of f) st b Hb)
      as (r & _ & _ & _ & _ & _ & _ & Hsrc).
    assert (is_Some (_backend_files
                       (_write_sources bf class_name f suffix (inputs_of f) st)
                     !! bf)) as Hsome by (apply write_sources_is_Some; eauto).
    apply lookup_backend_file in Hsome.
    destruct (IH _ _ Hsome) as [Hs' Hsrc']. split; [exact Hs'|].
    rewrite Hsrc', Hsrc, <- app_assoc. done.
Qed.

Lemma process_sources_closure c s bf st b :
  _backend_files st !! bf = Some b →
  _sources (backend_file (_process_sources c s bf st) bf)
  = _sources b ++ (object_name <$> sorted (source_files s)).
Proof.
  intros Hb. unfold _process_sources.
  apply (write_sources_loop bf _ _
           (fun f => default [] (unified_mapping s !! f)) _ st b Hb).
Qed.
End sources_lemmas.

(** ** What the emitters leave alone *)

Global Instance frame_preorder : PreOrder frame.
Proof.
  split.
  - by intros st.
  - intros st1 st2 st3 (? & ? & ? & ?) (? & ? & ? & ?).
    repeat split; congruence.
Qed.

Lemma foldl_frame {A} (f : TupOnly → A → TupOnly) l st :
  (∀ st x, frame st (f st x)) → frame st (foldl f st l).
Proof.
  intros Hf. revert st. induction l as [|x l IH]; intros st; simpl; [done|].
  etrans; [apply Hf | apply IH].
Qed.

Lemma for_each_frame {A} (body : A → TupOnly → result TupOnly) l st st' :
  (∀ x st st', body x st = Ok st' → frame st st') →
  for_each body l st = Ok st' → frame st st'.
Proof.
  intros Hbody. revert st. induction l as [|x l IH]; intros st; simpl.
  - by intros [= ->].
  - destruct (body x st) as [st1|e] eqn:Hx; simpl; [|done].
    intros Hrest. etrans; [by eapply Hbody | by apply IH].
Qed.

Section frame_lemmas.
Context `{Collaborators}.

Lemma frame_on_backend_file k f st : frame st (on_backend_file k f st).
Proof. done. Qed.

Lemma frame_get_backend_file relativedir objdir srcdir st :
  frame st (_get_backend_file relativedir objdir srcdir st).2.
Proof.
  destruct (get_backend_file_spec relativedir objdir srcdir st)
    as (_ & _ & _ & _ & ? & ? & _ & ? & ?).
  by repeat split.
Qed.

Lemma frame_process_generated_file bf c g st st' :
  _process_generated_file bf c g st = Ok st' → frame st st'.
Proof.
  unfold _process_generated_file.
  destruct (_ && _); [|by intros [= ->]].
  destruct (outputs g); [done|]. by intros [= <-].
Qed.

Lemma frame_process_defines bf d host st :
  frame st (_process_defines bf d host st).
Proof. by destruct d. Qed.

Lemma frame_preprocess bf input_file destdir st :
  frame st (_preprocess bf input_file destdir st).
Proof. done. Qed.

Lemma frame_process_final_target_pp_files bf f st :
  frame st (_process_final_target_pp_files bf f st).
Proof.
  unfold _process_final_target_pp_files.
  apply foldl_frame. intros st1 [path files].
  apply foldl_frame. intros st2 p. apply frame_preprocess.
Qed.

Lemma frame_install_file target path bf f st st' :
  install_file target path bf f st = Ok st' → frame st st'.
Proof.
  unfold install_file.
  destruct (negb _).
  - destruct (char_in _ (p_str f)).
    + destruct (_ || _).
      * destruct (os_path_split _) as [basepath wild].
        destruct (char_in _ basepath); [done | by intros [= ->]].
      * intros [= <-]. etrans; [|apply foldl_frame; intros; apply frame_on_backend_file].
        done.
    + by intros [= <-].
  - destruct (_ && _); [by intros [= ->]|].
    destruct (negb _); [|by intros [= ->]].
    pose proof (frame_get_backend_file (context_relobjdir f) None None st) as Hg.
    destruct (_get_backend_file _ None None st) as [k st1].
    intros [= <-]. etrans; [exact Hg | apply frame_on_backend_file].
Qed.

Lemma frame_process_final_target_files f st st' :
  _process_final_target_files f st = Ok st' → frame st st'.
Proof.
  unfold _process_final_target_files.
  destruct (_ && _); [done|].
  destruct (startswith _ _); [by intros [= ->]|].
  apply for_each_frame. intros [path files] st1 st2.
  pose proof (frame_get_backend_file (mozpath_join (install_target f) path)
                None None st1) as Hg.
  destruct (_get_backend_file _ None None st1) as [k st3].
  intros Hfiles. etrans; [exact Hg|].
  eapply for_each_frame; [|exact Hfiles].
  intros p s1 s2. apply frame_install_file.
Qed.

Lemma frame_write_sources bf class_name f suffix unified_inputs st :
  frame st (_write_sources bf class_name f suffix unified_inputs st).
Proof. unfold _write_sources. by destruct (missing _). Qed.

Lemma frame_process_sources c s bf st : frame st (_process_sources c s bf st).
Proof.
  unfold _process_sources. apply foldl_frame. intros.
  apply frame_write_sources.
Qed.

Lemma frame_process_unified_sources c s st :
  frame st (_process_unified_sources c s st).
Proof.
  unfold _process_unified_sources, _get_backend_file_for.
  pose proof (frame_get_backend_file
                (mozpath_relpath (obj_objdir c) (topobjdir (environment st)))
                (Some (obj_objdir c)) (Some (obj_srcdir c)) st) as Hg.
  destruct (_get_backend_file _ _ _ st) as [k st1].
  etrans; [exact Hg | apply frame_process_sources].
Qed.
End frame_lemmas.

(** ** Manifests *)

Lemma manifest_lookup_add k e m k' :
  manifest_lookup (manifest_add k e m) k'
  = if decide (k = k')
    then Some (default ∅ (manifest_lookup m k) ∪ {[e]})
    else manifest_lookup m k'.
Proof.
  induction m as [|[k0 s] m IH]; simpl.
  - destruct (String.eqb_spec k k'); destruct (decide (k = k')); try done.
    f_equal. by rewrite union_empty_l_L.
  - destruct (String.eqb_spec k0 k) as [->|Hne]; simpl.
    + destruct (String.eqb_spec k k'); destruct (decide (k = k')); done.
    + rewrite IH. destruct (String.eqb_spec k0 k') as [->|Hne'].
      * by rewrite decide_False by done.
      * done.
Qed.

Lemma manifest_keys_add k e m :
  (manifest_add k e m).*1 = if bool_decide (k ∈ m.*1) then m.*1 else m.*1 ++ [k].
Proof.
  induction m as [|[k0 s] m IH]; [done|].
  cbn [manifest_add]. rewrite !fmap_cons. cbn [fst].
  destruct (String.eqb_spec k0 k) as [->|Hne].
  - rewrite fmap_cons. cbn [fst]. by rewrite bool_decide_eq_true_2 by left.
  - rewrite fmap_cons, IH. cbn [fst]. case_bool_decide as Hk.
    + by rewrite bool_decide_eq_true_2 by (by right).
    + rewrite bool_decide_eq_false_2; [done|].
      intros [?|?]%elem_of_cons; congruence.
Qed.

Lemma manifest_keys_NoDup_add k e m :
  NoDup m.*1 → NoDup (manifest_add k e m).*1.
Proof.
  intros Hnd. rewrite manifest_keys_add. case_bool_decide; [done|].
  apply NoDup_app. repeat split; [done | | apply NoDup_singleton].
  intros x Hx ->%list_elem_of_singleton. done.
Qed.

Lemma manifest_keys_NoDup_add_all adds m :
  NoDup m.*1 → NoDup (manifest_add_all adds m).*1.
Proof.
  revert m. induction adds as [|[k e] adds IH]; intros m Hnd; simpl; [done|].
  apply IH. by apply manifest_keys_NoDup_add.
Qed.

Lemma manifest_lookup_elem_of m k s :
  NoDup m.*1 → (k, s) ∈ m ↔ manifest_lookup m k = Some s.
Proof.
  induction m as [|[k0 s0] m IH]; simpl; intros Hnd.
  - split; [by intros ?%elem_of_nil | done].
  - apply NoDup_cons in Hnd as [Hk0 Hnd].
    rewrite elem_of_cons, (IH Hnd).
    destruct (String.eqb_spec k0 k) as [->|Hne].
    + split.
      * intros [[= ->]|Hl]; [done|]. exfalso. apply Hk0.
        apply (IH Hnd) in Hl. apply list_elem_of_fmap. by exists (k, s).
      * intros [= ->]. by left.
    + split; [|by right]. intros [[= ? ?]|?]; [congruence | done].
Qed.

Lemma manifest_add_all_perm adds adds' m m' k :
  adds ≡ₚ adds' →
  (∀ k, manifest_lookup m k = manifest_lookup m' k) →
  manifest_lookup (manifest_add_all adds m) k
  = manifest_lookup (manifest_add_all adds' m') k.
Proof.
  intros Hp. revert m m' k.
  induction Hp as [|[k1 e1] l l' _ IH|[k1 e1] [k2 e2] l|l1 l2 l3 _ IH1 _ IH2];
    intros m m' k Hm; simpl.
  - apply Hm.
  - apply IH. intros k'. rewrite !manifest_lookup_add, !Hm. done.
  - assert (∀ k', manifest_lookup (manifest_add k1 e1 (manifest_add k2 e2 m)) k'
                  = manifest_lookup (manifest_add k2 e2 (manifest_add k1 e1 m')) k')
      as Hswap.
    { intros k'. rewrite !manifest_lookup_add, !Hm.
      repeat case_decide; simplify_eq; simpl; try done.
      f_equal. by rewrite <- !(assoc_L (∪)), (comm_L (∪) {[e2]}). }
    revert Hswap. unfold manifest_add_all.
    generalize (manifest_add k1 e1 (manifest_add k2 e2 m)) as n.
    generalize (manifest_add k2 e2 (manifest_add k1 e1 m')) as n'.
    intros n' n Hn. revert n n' Hn k.
    induction l as [|[k3 e3] l IHl]; intros n n' Hn k0; simpl; [apply Hn|].
    apply IHl. intros k'. rewrite !manifest_lookup_add, !Hn. done.
  - rewrite (IH1 m m' k Hm). apply IH2. done.
Qed.

Lemma manifest_Permutation m m' :
  NoDup m.*1 → NoDup m'.*1 →
  (∀ k, manifest_lookup m k = manifest_lookup m' k) → m ≡ₚ m'.
Proof.
  intros Hnd Hnd' Hm. apply NoDup_Permutation.
  - by eapply NoDup_fmap_1.
  - by eapply NoDup_fmap_1.
  - intros [k s]. by rewrite !manifest_lookup_elem_of, Hm.
Qed.

Section manifest_walk.
Context `{Collaborators}.

Lemma dispatch_manifest bf obj st r st' :
  dispatch bf obj st = Ok (r, st') →
  _manifest_entries st'
  = manifest_add_all
      (match obj with
       | ChromeManifestEntry c m =>
           if startswith (cm_install_target m) "dist/bin" then
             (if negb (String.eqb (cm_path m)
                         (mozpath_join (cm_install_target m) "chrome.manifest"))
              then [(mozpath_join (cm_install_target m) "chrome.manifest",
                     "manifest "
                     +:+ mozpath_relpath (cm_path m) (cm_install_target m))]
              else [])
             ++ [(cm_path m, cm_entry m)]
           else []
       | _ => []
       end) (_manifest_entries st)
  ∧ environment st' = environment st ∧ written st' = written st.
Proof.
  destruct obj as [c g|c m|c d|c d|c f|c f|c s|l|c n|d]; simpl.
  - destruct (existsb _ _); [by intros [= _ <-]|].
    destruct (str_in _ _); [by intros [= _ <-]|].
    destruct (_process_generated_file bf c g st) as [st1|e] eqn:Hg; [|done].
    simpl. intros [= _ <-].
    by destruct (frame_process_generated_file _ _ _ _ _ Hg) as (? & ? & _ & ?).
  - destruct (startswith _ _); [|by intros [= _ <-]].
    intros [= _ <-]. simpl. by destruct (negb _).
  - intros [= _ <-].
    by destruct (frame_process_defines bf d false st) as (? & ? & _ & ?).
  - intros [= _ <-].
    by destruct (frame_process_defines bf d true st) as (? & ? & _ & ?).
  - destruct (_process_final_target_files f st) as [st1|e] eqn:Hf; [|done].
    simpl. intros [= _ <-].
    by destruct (frame_process_final_target_files _ _ _ Hf) as (? & ? & _ & ?).
  - intros [= _ <-].
    by destruct (frame_process_final_target_pp_files bf f st)
      as (? & ? & _ & ?).
  - intros [= _ <-].
    by destruct (frame_process_sources c s bf st) as (? & ? & _ & ?).
  - destruct (_ || _); by intros [= _ <-].
  - by intros [= _ <-].
  - by intros [= _ <-].
Qed.

Lemma consume_object_manifest obj st r st' :
  consume_object obj st = Ok (r, st') →
  _manifest_entries st'
  = manifest_add_all (manifest_adds obj) (_manifest_entries st)
  ∧ environment st' = environment st ∧ written st' = written st.
Proof.
  unfold consume_object, manifest_adds.
  destruct (str_in _ skipped_relativedirs); [by intros [= _ <-]|].
  destruct (context_of obj) as [c|] eqn:Hc.
  2:{ intros [= _ <-]. destruct obj; try done.
      by destruct (CommonBackend_consume_object _). }
  set (st0 := match obj with BaseSources _ _ => _ | _ => st end).
  assert (frame st st0) as (Hm0 & He0 & _ & Hw0).
  { subst st0. destruct obj; try done.
    destruct (CommonBackend_calls_unified_hook _); [|done].
    apply frame_process_unified_sources. }
  destruct (CommonBackend_consume_object obj).
  { intros [= _ <-]. by rewrite Hm0, He0, Hw0. }
  unfold _get_backend_file_for.
  pose proof (frame_get_backend_file
                (mozpath_relpath (obj_objdir c) (topobjdir (environment st0)))
                (Some (obj_objdir c)) (Some (obj_srcdir c)) st0)
    as (Hm1 & He1 & _ & Hw1).
  destruct (_get_backend_file _ _ _ st0) as [k st1]. simpl in *.
  intros (Hm & He & Hw)%dispatch_manifest.
  rewrite Hm, He, Hw, Hm1, He1, Hw1, Hm0, He0, Hw0. done.
Qed.

Lemma consume_manifest objs st st' :
  consume objs st = Ok st' →
  _manifest_entries st'
  = manifest_add_all (objs ≫= manifest_adds) (_manifest_entries st)
  ∧ environment st' = environment st ∧ written st' = written st.
Proof.
  unfold consume. revert st.
  induction objs as [|obj objs IH]; intros st; simpl.
  - by intros [= ->].
  - destruct (consume_object obj st) as [[r st1]|e] eqn:Hobj; [|done]. simpl.
    intros (Hm & He & Hw)%IH.
    destruct (consume_object_manifest _ _ _ _ Hobj) as (Hm1 & He1 & Hw1).
    rewrite Hm, He, Hw, Hm1, He1, Hw1. split; [|done].
    unfold manifest_add_all. by rewrite foldl_app.
Qed.

Lemma written_write_manifests st :
  written (write_manifests st)
  = written st
    ++ ((fun te => (mozpath_join (topobjdir (environment st)) te.1,
                    manifest_content te.2)) <$> _manifest_entries st).
Proof.
  unfold write_manifests.
  generalize (_manifest_entries st) as m. intros m.
  assert (∀ st0, environment st0 = environment st →
            written (foldl (fun st '(target, entries) =>
                      _write_file
                        (mozpath_join (topobjdir (environment st)) target)
                        (manifest_content entries) st) st0 m)
            = written st0
              ++ ((fun te => (mozpath_join (topobjdir (environment st)) te.1,
                              manifest_content te.2)) <$> m)) as Hgen;
    [|by apply Hgen].
  induction m as [|[t e] m IH]; intros st0 He; simpl.
  - by rewrite app_nil_r.
  - rewrite IH by done. simpl. by rewrite He, <- app_assoc.
Qed.
End manifest_walk.

Section C7.
Context `{Collaborators}.

(** C7 (amended).  The source closure of a directory receives the object
    names of one sources object in the sorted order of its files, whatever
    the order the object lists them in; objects follow one another in the
    order of the walk.  The manifests flushed after two walks over the same
    objects in different orders are the same files with the same content,
    each with its entries sorted and without duplicates. *)
Theorem C7_order_independence env json objs objs' st1 st2 c s bf st b :
  _backend_files st !! bf = Some b →
  objs ≡ₚ objs' →
  consume objs (_init env json) = Ok st1 →
  consume objs' (_init env json) = Ok st2 →
  (_sources (backend_file (_process_sources c s bf st) bf)
   = _sources b ++ (object_name <$> sorted (source_files s))
   ∧ StronglySorted String.le (sorted (source_files s))
   ∧ ∀ files', files' ≡ₚ source_files s → sorted files' = sorted (source_files s))
  ∧ (written (write_manifests st1) ≡ₚ written (write_manifests st2)
     ∧ ∀ target entries,
         (target, entries) ∈ _manifest_entries st1 →
         StronglySorted String.le (sorted (elements entries))
         ∧ NoDup (sorted (elements entries))
         ∧ ∀ e, e ∈ sorted (elements entries) ↔ e ∈ entries).
Proof.
  intros Hb Hperm Hrun1 Hrun2. split; [|split].
  - split; [by apply process_sources_closure|].
    split; [apply sorted_StronglySorted|].
    intros files' Hf. by apply sorted_Permutation.
  - destruct (consume_manifest _ _ _ Hrun1) as (Hm1 & He1 & Hw1).
    destruct (consume_manifest _ _ _ Hrun2) as (Hm2 & He2 & Hw2).
    rewrite !written_write_manifests, Hw1, Hw2, He1, He2.
    apply Permutation_app_head, fmap_Permutation.
    rewrite Hm1, Hm2. simpl.
    apply manifest_Permutation.
    + apply manifest_keys_NoDup_add_all. constructor.
    + apply manifest_keys_NoDup_add_all. constructor.
    + intros k. apply manifest_add_all_perm; [|done].
      by apply bind_Permutation.
  - intros target entries _.
    split; [apply sorted_StronglySorted|]. split.
    + rewrite sorted_Permutation_self. apply NoDup_elements.
    + intros e. rewrite sorted_Permutation_self. apply elem_of_elements.
Qed.
End C7.

(** ** Producers of outputs *)

Lemma concrete_emitted_outputs o g r :
  r_outputs r = emitted_outputs [o] (Some g) → is_group g = true →
  concrete_outputs r = filter (fun o => is_group o = false) [o].
Proof.
  intros Hout Hg. unfold concrete_outputs. rewrite Hout.
  unfold emitted_outputs. rewrite filter_app.
  assert (filter (fun o => is_group o = false)
            (if existsb header_like [o] then [_includes_group]
             else if truthy (Some g) then [default "" (Some g)] else []) = [])
    as ->; [|by rewrite app_nil_r].
  destruct (existsb header_like [o]); [done|].
  destruct (truthy (Some g)); [|done]. simpl.
  rewrite filter_cons_False; [done|]. by rewrite Hg.
Qed.

Lemma NoDup_distinct_rules (rs : list rule_record) i j r1 r2 o :
  NoDup (rs ≫= concrete_outputs) →
  i ≠ j → rs !! i = Some r1 → rs !! j = Some r2 →
  o ∈ concrete_outputs r1 → o ∉ concrete_outputs r2.
Proof.
  revert i j. induction rs as [|r rs IH]; intros i j Hnd Hij Hi Hj Ho1 Ho2.
  { by rewrite lookup_nil in Hi. }
  simpl in Hnd. apply NoDup_app in Hnd as (_ & Hdisj & Hnd).
  destruct i as [|i], j as [|j]; simplify_eq/=.
  - apply (Hdisj o Ho1). apply list_elem_of_bind. exists r2.
    split; [done|]. by eapply list_elem_of_lookup_2.
  - apply (Hdisj o Ho2). apply list_elem_of_bind. exists r1.
    split; [done|]. by eapply list_elem_of_lookup_2.
  - eapply (IH i j); eauto.
Qed.

Section C1.
Context `{Collaborators}.

Lemma claimed_of_get_backend_file relativedir objdir srcdir st k :
  claimed_of (_get_backend_file relativedir objdir srcdir st).2 k
  = claimed_of st k.
Proof. unfold claimed_of. by rewrite rules_of_get_backend_file. Qed.

Lemma nothing_delayed_get_backend_file relativedir objdir srcdir st :
  nothing_delayed st →
  nothing_delayed (_get_backend_file relativedir objdir srcdir st).2.
Proof.
  intros Hnd k b Hk.
  destruct (get_backend_file_spec relativedir objdir srcdir st)
    as (_ & _ & Hother & Hnew & _).
  destruct (decide (k = (_get_backend_file relativedir objdir srcdir st).1))
    as [->|Hne]; [|rewrite Hother in Hk by done; by eapply Hnd].
  destruct (_backend_files st !! (_get_backend_file relativedir objdir srcdir st).1)
    as [b0|] eqn:Hk0.
  - rewrite (get_backend_file_keeps _ _ _ _ _ _ Hk0) in Hk.
    simplify_eq. by eapply Hnd.
  - destruct (Hnew eq_refl) as [s Hs]. rewrite Hs in Hk. by simplify_eq.
Qed.

Lemma install_plain_file target path bf p st :
  plain_file p →
  is_Some (_backend_files st !! bf) →
  nothing_delayed st →
  ∃ st',
    install_file target path bf p st = Ok st'
    ∧ environment st' = environment st
    ∧ nothing_delayed st'
    ∧ is_Some (_backend_files st' !! bf)
    ∧ ∀ k, claimed_of st' k
           = claimed_of st k
             ++ filter (fun o => is_group o = false)
                  (names_for k [(bf, target_basename p)]).
Proof.
  intros (Hclass & Hwild & Hname) [b Hb] Hnd.
  unfold install_file.
  rewrite bool_decide_eq_false_2 by done. simpl. rewrite Hwild.
  eexists. split; [reflexivity|]. split; [done|].
  unfold symlink_rule. rewrite Hname. simpl.
  destruct (rule_emits ["!tup_ln"] (Some [full_path p]) None
              (Some [target_basename p]) None None (Some _installed_files)
              false b) as (r & Hr & _ & _ & _ & Hout & _).
  split; [|split].
  - intros k b' Hk. rewrite lookup_on_backend_file in Hk.
    destruct (decide (bf = k)) as [->|]; [|by eapply Hnd].
    rewrite Hb in Hk. simpl in Hk. simplify_eq.
    rewrite (proj1 (proj2 (rule_fields _ _ _ _ _ _ _ _ _))). by eapply Hnd.
  - apply on_backend_file_is_Some. eauto.
  - intros k. unfold claimed_of, rules_of, names_for.
    rewrite lookup_on_backend_file.
    destruct (decide (bf = k)) as [->|Hne].
    + rewrite Hb. simpl. rewrite Hr, bind_app, bind_singleton.
      rewrite filter_cons_True by done. simpl.
      f_equal. by apply (concrete_emitted_outputs _ _installed_files).
    + rewrite filter_cons_False by done. simpl. by rewrite app_nil_r.
Qed.

Lemma names_for_app k l1 l2 :
  names_for k (l1 ++ l2) = names_for k l1 ++ names_for k l2.
Proof. unfold names_for. by rewrite filter_app, fmap_app. Qed.

Lemma names_for_NoDup k names : NoDup names → NoDup (names_for k names).
Proof.
  intros Hnd. unfold names_for. apply NoDup_fmap_2_strong.
  - intros [k1 n1] [k2 n2] [Hk1 _]%list_elem_of_filter
      [Hk2 _]%list_elem_of_filter Hn. simpl in *. congruence.
  - by apply NoDup_filter.
Qed.

Lemma get_backend_file_key relativedir st :
  (_get_backend_file relativedir None None st).1
  = mozpath_normpath (mozpath_join (topobjdir (environment st)) relativedir).
Proof.
  unfold _get_backend_file. simpl.
  by destruct (_backend_files st !! _).
Qed.

Lemma install_files_loop target path bf files st :
  Forall plain_file files →
  is_Some (_backend_files st !! bf) →
  nothing_delayed st →
  ∃ st',
    for_each (install_file target path bf) files st = Ok st'
    ∧ environment st' = environment st
    ∧ nothing_delayed st'
    ∧ ∀ k, claimed_of st' k
           = claimed_of st k
             ++ filter (fun o => is_group o = false)
                  (names_for k (files ≫= fun p => [(bf, target_basename p)])).
Proof.
  intros Hfiles. revert st.
  induction Hfiles as [|p files Hp _ IH]; intros st Hbf Hnd; simpl.
  - exists st. repeat split; try done. intros k. by rewrite app_nil_r.
  - destruct (install_plain_file target path bf p st Hp Hbf Hnd)
      as (st1 & -> & He1 & Hnd1 & Hbf1 & Hc1). simpl.
    destruct (IH st1 Hbf1 Hnd1) as (st2 & -> & He2 & Hnd2 & Hc2).
    exists st2. split; [done|]. split; [congruence|]. split; [done|].
    intros k. rewrite Hc2, Hc1, <- app_assoc. f_equal.
    rewrite <- filter_app. f_equal.
    by rewrite <- names_for_app.
Qed.

Lemma install_walk_loop target walk st :
  Forall (fun pf => Forall plain_file pf.2) walk →
  nothing_delayed st →
  ∃ st',
    for_each
      (fun '(path, files) st =>
         let '(bf, st) :=
           _get_backend_file (mozpath_join target path) None None st in
         for_each (install_file target path bf) files st) walk st = Ok st'
    ∧ environment st' = environment st
    ∧ nothing_delayed st'
    ∧ ∀ k, claimed_of st' k
           = claimed_of st k
             ++ filter (fun o => is_group o = false)
                  (names_for k
                     ('(path, files) ← walk;
                      p ← files;
                      [(mozpath_normpath
                          (mozpath_join (topobjdir (environment st))
                             (mozpath_join target path)),
                        target_basename p)])).
Proof.
  intros Hwalk. revert st.
  induction Hwalk as [|[path files] walk Hfiles _ IH]; intros st Hnd; simpl.
  - exists st. repeat split; try done. intros k. by rewrite app_nil_r.
  - pose proof (get_backend_file_key (mozpath_join target path) st) as Hkey.
    destruct (get_backend_file_spec (mozpath_join target path) None None st)
      as (Hsome & _ & _ & _ & He0 & _).
    pose proof (nothing_delayed_get_backend_file
                  (mozpath_join target path) None None st Hnd) as Hnd0.
    pose proof (claimed_of_get_backend_file
                  (mozpath_join target path) None None st) as Hc0.
    destruct (_get_backend_file (mozpath_join target path) None None st)
      as [bf st0]. simpl in *.
    destruct (install_files_loop target path bf files st0 Hfiles Hsome Hnd0)
      as (st1 & -> & He1 & Hnd1 & Hc1). simpl.
    destruct (IH st1 Hnd1) as (st2 & -> & He2 & Hnd2 & Hc2).
    exists st2. split; [done|]. split; [congruence|]. split; [done|].
    intros k. rewrite Hc2, Hc1, Hc0, <- app_assoc. f_equal.
    rewrite <- filter_app. f_equal.
    rewrite <- names_for_app. f_equal.
    rewrite He1, He0. f_equal. by rewrite Hkey.
Qed.

Lemma consume_plain_install obj st r st' :
  plain_install obj →
  nothing_delayed st →
  consume_object obj st = Ok (r, st') →
  environment st' = environment st
  ∧ nothing_delayed st'
  ∧ ∀ k, claimed_of st' k
         = claimed_of st k
           ++ filter (fun o => is_group o = false)
                (names_for k (install_names (environment st) obj)).
Proof.
  destruct obj as [| | | |c f| | | | |]; try done.
  intros (Hskip & Hcommon & Hfiles) Hnd.
  unfold consume_object. simpl. rewrite Hskip, Hcommon.
  unfold _get_backend_file_for.
  set (rel := mozpath_relpath _ _).
  destruct (get_backend_file_spec rel (Some (obj_objdir c))
              (Some (obj_srcdir c)) st) as (_ & _ & _ & _ & He0 & _).
  pose proof (nothing_delayed_get_backend_file rel (Some (obj_objdir c))
                (Some (obj_srcdir c)) st Hnd) as Hnd0.
  pose proof (claimed_of_get_backend_file rel (Some (obj_objdir c))
                (Some (obj_srcdir c)) st) as Hc0.
  destruct (_get_backend_file rel _ _ st) as [bf st0]. simpl in *.
  unfold _process_final_target_files.
  destruct (_ && _); [done|].
  destruct (startswith (install_target f) "_tests").
  - simpl. intros [= _ <-]. split; [done|]. split; [done|].
    intros k. rewrite Hc0. simpl. by rewrite app_nil_r.
  - destruct (install_walk_loop (install_target f) (files_walk f) st0
                Hfiles Hnd0) as (st1 & -> & He1 & Hnd1 & Hc1).
    simpl. intros [= _ <-]. split; [congruence|]. split; [done|].
    intros k. by rewrite Hc1, Hc0, He0.
Qed.

Lemma consume_plain_installs objs st st' :
  Forall plain_install objs →
  nothing_delayed st →
  consume objs st = Ok st' →
  environment st' = environment st
  ∧ nothing_delayed st'
  ∧ ∀ k, claimed_of st' k
         = claimed_of st k
           ++ filter (fun o => is_group o = false)
                (names_for k (objs ≫= install_names (environment st))).
Proof.
  intros Hobjs. revert st. unfold consume.
  induction Hobjs as [|obj objs Hobj _ IH]; intros st Hnd; simpl.
  - intros [= <-]. repeat split; try done. intros k. by rewrite app_nil_r.
  - destruct (consume_object obj st) as [[r st1]|e] eqn:Hstep; [|done].
    simpl.
    destruct (consume_plain_install obj st r st1 Hobj Hnd Hstep)
      as (He1 & Hnd1 & Hc1).
    intros (He2 & Hnd2 & Hc2)%IH; [|done].
    split; [congruence|]. split; [done|].
    intros k. rewrite Hc2, Hc1, <- app_assoc, He1. f_equal.
    by rewrite <- filter_app, <- names_for_app.
Qed.

Lemma backend_files_write_manifests st :
  _backend_files (write_manifests st) = _backend_files st.
Proof.
  unfold write_manifests.
  generalize (_manifest_entries st) as m. intros m. revert st.
  induction m as [|[t e] m IH]; intros st; simpl; [done|].
  by rewrite IH.
Qed.

Lemma consume_finished_nothing_delayed st st' :
  nothing_delayed st →
  consume_finished [] st = Ok st' →
  _backend_files st' = _backend_files st.
Proof.
  intros Hnd. unfold consume_finished.
  change (CommonBackend_consume_finished [] st) with st.
  rewrite <- (backend_files_write_manifests st).
  assert (nothing_delayed (write_manifests st)) as Hnd0.
  { intros k b. rewrite backend_files_write_manifests. apply Hnd. }
  generalize (sorted (map_to_list (_backend_files (write_manifests st))).*1)
    as keys.
  revert Hnd0. generalize (write_manifests st) as st0.
  intros st0 Hnd0 keys. revert st0 Hnd0.
  induction keys as [|k keys IH]; intros st0 Hnd0; simpl.
  - by intros [= ->].
  - assert (delayed_generated_files (backend_file st0 k) = []) as ->.
    { unfold backend_file. rewrite lookup_total_alt.
      destruct (_backend_files st0 !! k) as [b|] eqn:Hk; simpl; [|done].
      by eapply Hnd0. }
    simpl. intros Hrest.
    assert (nothing_delayed (close k st0)) as Hnd1 by exact Hnd0.
    by rewrite (IH _ Hnd1 Hrest).
Qed.

(** C1 (amended).  Single producer, for install mappings.  In a full run
    over install mappings of plain source files whose declared pairs of
    rule file and output name are pairwise distinct, no concrete output
    path (group tokens excepted) is an output of two distinct rules of a
    rule file.  The backend compares no outputs itself: the property comes
    from the names the objects declare.  Install mappings give the
    inherited [consume_finished] no hook to call: the run is taken with no
    hook call. *)
Theorem C1_single_producer_of_installs env json objs st :
  Forall plain_install objs →
  NoDup (objs ≫= install_names env) →
  run env json objs [] = Ok st →
  ∀ objdir i j r1 r2 o,
    i ≠ j →
    rules_of st objdir !! i = Some r1 →
    rules_of st objdir !! j = Some r2 →
    o ∈ concrete_outputs r1 → o ∉ concrete_outputs r2.
Proof.
  intros Hobjs Hnames Hrun objdir i j r1 r2 o.
  apply NoDup_distinct_rules.
  unfold run in Hrun.
  destruct (consume objs (_init env json)) as [st1|e] eqn:Hwalk; [|done].
  simpl in Hrun.
  assert (nothing_delayed (_init env json)) as Hnd0 by (by intros k b).
  destruct (consume_plain_installs objs _ st1 Hobjs Hnd0 Hwalk)
    as (_ & Hnd1 & Hc1).
  pose proof (consume_finished_nothing_delayed st1 st Hnd1 Hrun) as Hbf.
  change (NoDup (claimed_of st objdir)).
  unfold claimed_of, rules_of. rewrite Hbf.
  change (NoDup (claimed_of st1 objdir)). rewrite Hc1. simpl.
  apply NoDup_filter, names_for_NoDup. exact Hnames.
Qed.
End C1.

(** ** Deduplication *)

Lemma first_seen_app l1 l2 :
  first_seen (l1 ++ l2)
  = first_seen l1 ++ filter (fun x => x ∉ l1) (first_seen l2).
Proof.
  induction l1 as [|x l1 IH]; simpl.
  - symmetry. induction (first_seen l2) as [|y l IHl]; [done|].
    rewrite filter_cons_True by apply not_elem_of_nil. by f_equal.
  - f_equal. rewrite IH, filter_app. f_equal.
    rewrite list_filter_filter. apply list_filter_iff.
    intros y. rewrite not_elem_of_cons. tauto.
Qed.

Lemma first_seen_NoDup_id l : NoDup l → first_seen l = l.
Proof.
  induction 1 as [|x l Hx Hl IH]; simpl; [done|]. f_equal. rewrite IH.
  clear IH Hl. induction l as [|y l IHl]; [done|].
  apply not_elem_of_cons in Hx as [Hxy Hx].
  rewrite filter_cons_True by done. f_equal. by apply IHl.
Qed.

(** X1.  [uniq] keeps every element once, at the place of its first
    occurrence: the result has no repeats and the elements of the argument;
    on [l1 ++ l2] it is the result on [l1] followed by what [l2] adds, in
    the order of [uniq l2]; applying it twice is applying it once, and it
    returns its argument exactly when the argument has no repeats. *)
Theorem uniq_keeps_first_occurrences l1 l2 :
  NoDup (uniq l1)
  ∧ (∀ x, x ∈ uniq l1 ↔ x ∈ l1)
  ∧ uniq (l1 ++ l2) = uniq l1 ++ filter (fun x => x ∉ l1) (uniq l2)
  ∧ uniq (uniq l1) = uniq l1
  ∧ (uniq l1 = l1 ↔ NoDup l1).
Proof.
  rewrite !uniq_first_seen. split; [apply first_seen_NoDup|].
  split; [apply first_seen_elem_of|].
  split; [apply first_seen_app|].
  split.
  - apply first_seen_NoDup_id, first_seen_NoDup.
  - split; [intros <-; apply first_seen_NoDup | apply first_seen_NoDup_id].
Qed.

(** ** What the walk keeps: rule files only grow *)

Section growth.
Context `{Collaborators}.

Ltac split_advances :=
  split; [|split; [|split; [|split; [|split; [|split]]]]].

Global Instance extends_preorder : PreOrder extends.
Proof.
  split.
  - intros b. repeat split; try done. exists []. by rewrite app_nil_r.
  - intros b1 b2 b3 (? & ? & ? & ? & ? & (m1 & Hm1 & ?) & Hh1)
      (? & ? & ? & ? & ? & (m2 & Hm2 & ?) & Hh2).
    repeat split; try congruence; try (by etrans); [|by auto].
    exists (m1 ++ m2). rewrite Hm2, Hm1, <- app_assoc. split; [done|].
    by apply Forall_app.
Qed.

Global Instance advances_preorder : PreOrder advances.
Proof.
  split.
  - intros st. split_advances; try done.
    + intros k b Hk. by exists b.
    + intros k b Hk Hk'. congruence.
    + intros t s Hs. by exists s.
  - intros s1 s2 s3 (He1 & Hd1 & Hf1 & Hn1 & Hm1 & Hx1 & Hw1)
      (He2 & Hd2 & Hf2 & Hn2 & Hm2 & Hx2 & Hw2).
    split_advances; try congruence; try (by etrans).
    + intros k b Hk. destruct (Hf1 k b Hk) as (b2 & Hk2 & Hb2).
      destruct (Hf2 k b2 Hk2) as (b3 & Hk3 & Hb3).
      exists b3. split; [done | by etrans].
    + intros k b3 Hk3 Hk1.
      destruct (_backend_files s2 !! k) as [b2|] eqn:Hk2.
      * destruct (Hf2 k b2 Hk2) as (b3' & Hk3' & Hb3).
        assert (b3' = b3) as -> by congruence.
        destruct (Hn1 k b2 Hk2 Hk1) as (Ho & Hn & Hd & Hh).
        destruct Hb3 as (-> & _ & -> & _ & _ & (more & -> & Hmore) & Hh3).
        repeat split; [done..| |by auto]. apply Forall_app. by split.
      * by eapply Hn2.
    + intros key. etrans; [apply Hm1 | apply Hm2].
    + intros t s Hs. destruct (Hx1 t s Hs) as (s' & Hs' & Hsub).
      destruct (Hx2 t s' Hs') as (s'' & Hs'' & Hsub').
      exists s''. split; [done | by etrans].
Qed.

Lemma advances_same_files st st' :
  _backend_files st' = _backend_files st →
  environment st' = environment st →
  _commands_db st' = _commands_db st →
  (∀ key, default 0 (_missing_commands st !! key)
          ≤ default 0 (_missing_commands st' !! key)) →
  (∀ t s, manifest_lookup (_manifest_entries st) t = Some s →
     ∃ s', manifest_lookup (_manifest_entries st') t = Some s' ∧ s ⊆ s') →
  written st `prefix_of` written st' →
  advances st st'.
Proof.
  intros Hf ?????. split_advances; try done.
  - intros k b Hk. exists b. by rewrite Hf.
  - intros k b' Hk Hk'. rewrite Hf in Hk. congruence.
Qed.

Lemma extends_same_text b b' :
  objdir b' = objdir b → relobjdir b' = relobjdir b → name b' = name b →
  fh b' = fh b → rules_included b' = rules_included b →
  _sources b `prefix_of` _sources b' →
  (∃ more, delayed_generated_files b' = delayed_generated_files b ++ more
           ∧ Forall deferrable more) →
  extends b b'.
Proof.
  intros ? ? ? Hfh Hri ? ?. repeat split; try done.
  - by rewrite Hfh.
  - unfold headed, rules. by rewrite Hfh, Hri.
Qed.

Lemma headed_write_entry e b :
  e ≠ include_line →
  (rules_included b = false → ∀ r, e ≠ RuleLine r) →
  headed b → headed (write_entry e b).
Proof.
  intros He Hr. unfold headed. simpl.
  destruct (rules_included b).
  - intros (pre & post & -> & Hpre & Hip & Hipost).
    exists pre, (post ++ [e]). rewrite <- app_assoc. repeat split; try done.
    rewrite not_elem_of_app, list_elem_of_singleton. split; [done|congruence].
  - intros [Hrules Hnot]. split.
    + unfold rules in *. simpl. rewrite omap_app, Hrules. simpl.
      destruct e as [t|r]; [done|]. by destruct (Hr eq_refl r).
    + rewrite not_elem_of_app, list_elem_of_singleton. split; [done|congruence].
Qed.

Lemma extends_write_entry e b :
  e ≠ include_line →
  (rules_included b = false → ∀ r, e ≠ RuleLine r) →
  extends b (write_entry e b).
Proof.
  intros He Hr. repeat split; try done.
  - by apply prefix_app_r.
  - exists []. by rewrite app_nil_r.
  - by apply headed_write_entry.
Qed.

Lemma extends_include_rules b : extends b (include_rules b).
Proof.
  unfold include_rules. destruct (rules_included b) eqn:Hri; [done|].
  repeat split; try done.
  - simpl. by apply prefix_app_r.
  - exists []. by rewrite app_nil_r.
  - unfold headed. rewrite Hri. simpl. intros [Hrules Hnot].
    exists (fh b), []. repeat split; try done.
    + intros r Hin. unfold rules in Hrules.
      assert (r ∈ omap (fun e => match e with
                                 | RuleLine r => Some r | Text _ => None
                                 end) (fh b)) as Hr
        by (apply list_elem_of_omap; by exists (RuleLine r)).
      rewrite Hrules in Hr. by apply elem_of_nil in Hr.
    + apply not_elem_of_nil.
Qed.

Lemma include_rules_included b : rules_included (include_rules b) = true.
Proof. unfold include_rules. by destruct (rules_included b) eqn:Hri. Qed.

Lemma extends_rule cmd inputs extra_inputs outputs display extra_outputs
    output_group check_unchanged b :
  extends b (rule cmd inputs extra_inputs outputs display extra_outputs
               output_group check_unchanged b).
Proof.
  unfold rule. etrans; [apply extends_include_rules|].
  apply extends_write_entry; [done|].
  by rewrite include_rules_included.
Qed.

Lemma extends_symlink_rule source output output_group b :
  extends b (symlink_rule source output output_group b).
Proof. apply extends_rule. Qed.

Lemma extends_export_shell b : extends b (export_shell b).
Proof.
  unfold export_shell. destruct (shell_exported b); [done|].
  etrans; [|apply extends_same_text; try done; exists []; by rewrite app_nil_r].
  simpl. unfold write.
  etrans; [|apply extends_write_entry; done].
  etrans; [|apply extends_write_entry; done].
  apply extends_write_entry; done.
Qed.

Lemma extends_set_defines host d b : extends b (set_defines host d b).
Proof.
  apply extends_same_text; try done. exists []. by rewrite app_nil_r.
Qed.

Lemma extends_append_source o b : extends b (append_source o b).
Proof.
  apply extends_same_text; try done.
  - simpl. by apply prefix_app_r.
  - exists []. by rewrite app_nil_r.
Qed.

Lemma extends_delay obj b : deferrable obj → extends b (delay obj b).
Proof.
  intros Hobj. apply extends_same_text; try done.
  exists [obj]. split; [done|]. by constructor.
Qed.

Lemma advances_on_backend_file k f st :
  (∀ b, extends b (f b)) → advances st (on_backend_file k f st).
Proof.
  intros Hf. split_advances; try done.
  - intros k' b Hk'. rewrite lookup_on_backend_file.
    destruct (decide (k = k')) as [->|].
    + rewrite Hk'. simpl. eauto.
    + exists b. done.
  - intros k' b'. rewrite lookup_on_backend_file.
    destruct (decide (k = k')) as [->|]; [|congruence].
    intros Hb' Hnone. by rewrite Hnone in Hb'.
  - intros t s Hs. by exists s.
Qed.

Lemma advances_get_backend_file relativedir objdir srcdir st :
  advances st (_get_backend_file relativedir objdir srcdir st).2.
Proof.
  destruct (get_backend_file_spec relativedir objdir srcdir st)
    as (_ & Hsub & Hne & Hnew & He & Hx & Hm & Hd & Hw).
  split_advances; try done.
  - intros k b Hk. exists b. split; [by eapply lookup_weaken | done].
  - intros k b' Hk' Hk.
    destruct (decide (k = (_get_backend_file relativedir objdir srcdir st).1))
      as [->|Hne'].
    + destruct (Hnew Hk) as [s Hs]. rewrite Hs in Hk'.
      injection Hk' as <-. split; [done|]. split; [done|].
      split; [constructor|]. split; [done|]. simpl.
      intros Hin. repeat (apply elem_of_cons in Hin as [Hin|Hin];
                            [discriminate Hin|]).
      by apply elem_of_nil in Hin.
    + rewrite Hne in Hk' by done. congruence.
  - intros key. by rewrite Hm.
  - intros t s Hs. exists s. by rewrite Hx.
  - by rewrite Hw.
Qed.

Lemma foldl_preorder {A S} (R : relation S) `{!PreOrder R}
    (f : S → A → S) l st :
  (∀ st x, R st (f st x)) → R st (foldl f st l).
Proof.
  intros Hf. revert st. induction l as [|x l IH]; intros st; simpl; [done|].
  etrans; [apply Hf | apply IH].
Qed.

Lemma for_each_preorder {A S} (R : relation S) `{!PreOrder R}
    (body : A → S → result S) l st st' :
  (∀ x st st', x ∈ l → body x st = Ok st' → R st st') →
  for_each body l st = Ok st' → R st st'.
Proof.
  revert st. induction l as [|x l IH]; intros st Hbody; simpl.
  - by intros [= ->].
  - destruct (body x st) as [st1|e] eqn:Hx; simpl; [|done].
    intros Hrest. etrans.
    + eapply Hbody; [|done]. by left.
    + apply IH; [|done]. intros y s s' Hy. apply Hbody. by right.
Qed.

Lemma advances_process_generated_file bf c g st st' :
  _process_generated_file bf c g st = Ok st' → advances st st'.
Proof.
  unfold _process_generated_file.
  destruct (_ && _); [|by intros [= ->]].
  destruct (outputs g); [done|]. intros [= <-].
  etrans; apply advances_on_backend_file; intros b;
    [apply extends_export_shell | apply extends_rule].
Qed.

Lemma advances_process_defines bf d host st :
  advances st (_process_defines bf d host st).
Proof.
  destruct d; [done|]. apply advances_on_backend_file.
  intros b. apply extends_set_defines.
Qed.

Lemma advances_preprocess bf input_file destdir st :
  advances st (_preprocess bf input_file destdir st).
Proof. apply advances_on_backend_file. intros b. apply extends_rule. Qed.

Lemma advances_process_final_target_pp_files bf f st :
  advances st (_process_final_target_pp_files bf f st).
Proof.
  unfold _process_final_target_pp_files.
  apply (foldl_preorder advances). intros st1 [path files].
  apply (foldl_preorder advances). intros st2 p. apply advances_preprocess.
Qed.

Lemma advances_set_backend_input_files s st :
  advances st (set_backend_input_files s st).
Proof. apply advances_same_files; try done. intros t s' Hs. by exists s'. Qed.

Lemma advances_install_file target path bf f st st' :
  install_file target path bf f st = Ok st' → advances st st'.
Proof.
  unfold install_file.
  destruct (negb _).
  - destruct (char_in _ (p_str f)).
    + destruct (_ || _).
      * destruct (os_path_split _) as [basepath wild].
        destruct (char_in _ basepath); [done | by intros [= ->]].
      * intros [= <-]. etrans; [apply advances_set_backend_input_files|].
        apply (foldl_preorder advances). intros st1 p.
        apply advances_on_backend_file. intros b. apply extends_symlink_rule.
    + intros [= <-]. apply advances_on_backend_file.
      intros b. apply extends_symlink_rule.
  - destruct (_ && _); [by intros [= ->]|].
    destruct (negb _); [|by intros [= ->]].
    pose proof (advances_get_backend_file (context_relobjdir f) None None st)
      as Hg.
    destruct (_get_backend_file _ None None st) as [k st1].
    intros [= <-]. etrans; [exact Hg|].
    apply advances_on_backend_file. intros b. apply extends_symlink_rule.
Qed.

Lemma advances_process_final_target_files f st st' :
  _process_final_target_files f st = Ok st' → advances st st'.
Proof.
  unfold _process_final_target_files.
  destruct (_ && _); [done|].
  destruct (startswith _ _); [by intros [= ->]|].
  apply (for_each_preorder advances). intros [path files] st1 st2 _.
  pose proof (advances_get_backend_file (mozpath_join (install_target f) path)
                None None st1) as Hg.
  destruct (_get_backend_file _ None None st1) as [k st3].
  intros Hfiles. etrans; [exact Hg|].
  eapply (for_each_preorder advances); [|exact Hfiles].
  intros p s1 s2 _. apply advances_install_file.
Qed.

Lemma advances_set_missing_commands m st :
  (∀ key, default 0 (_missing_commands st !! key) ≤ default 0 (m !! key)) →
  advances st (set_missing_commands m st).
Proof.
  intros Hm. apply advances_same_files; try done.
  intros t s' Hs. by exists s'.
Qed.

Lemma incr_le k m key : default 0 (m !! key) ≤ default 0 (incr k m !! key).
Proof. rewrite incr_lookup. destruct (decide (k = key)) as [->|]; lia. Qed.

Lemma advances_write_sources bf class_name f suffix unified_inputs st :
  advances st (_write_sources bf class_name f suffix unified_inputs st).
Proof.
  unfold _write_sources.
  set (st1 := on_backend_file bf (append_source _) st).
  assert (advances st st1) as H1
    by (apply advances_on_backend_file; intros b; apply extends_append_source).
  etrans; [exact H1|]. clearbody st1.
  destruct (missing _).
  - etrans; [apply (advances_set_missing_commands
                      (incr class_name (incr suffix (_missing_commands st1))))|
             apply advances_on_backend_file; intros b; apply extends_rule].
    intros key. etrans; apply incr_le.
  - apply advances_on_backend_file; intros b; apply extends_rule.
Qed.

Lemma advances_process_sources c s bf st :
  advances st (_process_sources c s bf st).
Proof.
  unfold _process_sources. apply (foldl_preorder advances). intros.
  apply advances_write_sources.
Qed.

Lemma advances_process_unified_sources c s st :
  advances st (_process_unified_sources c s st).
Proof.
  unfold _process_unified_sources, _get_backend_file_for.
  pose proof (advances_get_backend_file
                (mozpath_relpath (obj_objdir c) (topobjdir (environment st)))
                (Some (obj_objdir c)) (Some (obj_srcdir c)) st) as Hg.
  destruct (_get_backend_file _ _ _ st) as [k st1].
  etrans; [exact Hg | apply advances_process_sources].
Qed.

Lemma advances_source_closure bf st : advances st (_source_closure bf st).2.
Proof.
  unfold _source_closure.
  pose proof (advances_get_backend_file (relobjdir (backend_file st bf))
                None None st) as Hg.
  by destruct (_get_backend_file _ None None st) as [k st1].
Qed.

Lemma advances_process_program bf obj st :
  advances st (_process_program bf obj st).
Proof.
  unfold _process_program.
  destruct (link_plan obj) as [libs system_libs].
  pose proof (advances_source_closure bf st) as Hc.
  destruct (_source_closure bf st) as [closure st1]. simpl in Hc.
  repeat case_match.
  all: first [ apply advances_on_backend_file; intros b; apply extends_rule
             | etrans; [exact Hc|];
               apply advances_on_backend_file; intros b; apply extends_rule ].
Qed.
End growth.

Lemma concat_empty_app (l1 l2 : list string) :
  String.concat "" (l1 ++ l2) = String.concat "" l1 +:+ String.concat "" l2.
Proof.
  induction l1 as [|x l1 IH]; [done|].
  destruct l1 as [|y l1].
  - simpl. destruct l2 as [|z l2]; simpl.
    + clear. induction x as [|a x IHx]; [done|].
      change (String a x +:+ "") with (String a (x +:+ "")). by rewrite <- IHx.
    + done.
  - change (String.concat "" ((x :: y :: l1) ++ l2))
      with (x +:+ "" +:+ String.concat "" ((y :: l1) ++ l2)).
    change (String.concat "" (x :: y :: l1))
      with (x +:+ "" +:+ String.concat "" (y :: l1)).
    rewrite IH. clear. generalize (String.concat "" (y :: l1)) as s.
    generalize (String.concat "" l2) as t. intros t s.
    induction x as [|a x IHx]; [done|].
    change (String a x +:+ ?u) with (String a (x +:+ u)).
    change (String a (x +:+ "" +:+ s) +:+ t)
      with (String a ((x +:+ "" +:+ s) +:+ t)).
    by rewrite IHx.
Qed.

Lemma manifest_add_grows k e m t s :
  manifest_lookup m t = Some s →
  ∃ s', manifest_lookup (manifest_add k e m) t = Some s' ∧ s ⊆ s'.
Proof.
  intros Hs. rewrite manifest_lookup_add.
  destruct (decide (k = t)) as [->|].
  - rewrite Hs. simpl. eexists. split; [done | set_solver].
  - by exists s.
Qed.

Section walk_growth.
Context `{Collaborators}.

Lemma advances_set_manifest_entries m st :
  (∀ t s, manifest_lookup (_manifest_entries st) t = Some s →
     ∃ s', manifest_lookup m t = Some s' ∧ s ⊆ s') →
  advances st (set_manifest_entries m st).
Proof. intros Hm. by apply advances_same_files. Qed.

Lemma advances_dispatch bf obj st r st' :
  dispatch bf obj st = Ok (r, st') → advances st st'.
Proof.
  destruct obj as [c g|c m|c d|c d|c f|c f|c s|l|c n|d]; simpl.
  - destruct (existsb _ _); [by intros [= _ <-]|].
    destruct (str_in _ _) eqn:Hin.
    + intros [= _ <-]. apply advances_on_backend_file. intros b.
      apply extends_delay. simpl. by apply bool_decide_eq_true in Hin.
    + destruct (_process_generated_file bf c g st) as [st1|e] eqn:Hg; [|done].
      simpl. intros [= _ <-]. by eapply advances_process_generated_file.
  - destruct (startswith _ _); [|by intros [= _ <-]].
    intros [= _ <-]. apply advances_set_manifest_entries. intros t s Hs.
    destruct (negb _).
    + destruct (manifest_add_grows
                  (mozpath_join (cm_install_target m) "chrome.manifest")
                  ("manifest "
                   +:+ mozpath_relpath (cm_path m) (cm_install_target m))
                  _ t s Hs) as (s1 & Hs1 & Hsub1).
      destruct (manifest_add_grows (cm_path m) (cm_entry m) _ t s1 Hs1)
        as (s2 & Hs2 & Hsub2).
      exists s2. split; [done | by etrans].
    + by apply manifest_add_grows.
  - intros [= _ <-]. apply advances_process_defines.
  - intros [= _ <-]. apply advances_process_defines.
  - destruct (_process_final_target_files f st) as [st1|e] eqn:Hf; [|done].
    simpl. intros [= _ <-]. by eapply advances_process_final_target_files.
  - intros [= _ <-]. apply advances_process_final_target_pp_files.
  - intros [= _ <-]. apply advances_process_sources.
  - destruct (_ || _) eqn:Hl; [|by intros [= _ <-]].
    intros [= _ <-]. apply advances_on_backend_file. intros b.
    by apply extends_delay.
  - by intros [= _ <-].
  - by intros [= _ <-].
Qed.

Lemma advances_consume_object obj st r st' :
  consume_object obj st = Ok (r, st') → advances st st'.
Proof.
  unfold consume_object.
  destruct (str_in _ skipped_relativedirs); [by intros [= _ <-]|].
  destruct (context_of obj) as [c|] eqn:Hc; [|by intros [= _ <-]].
  set (st0 := match obj with BaseSources _ _ => _ | _ => st end).
  assert (advances st st0) as H0.
  { subst st0. destruct obj; try done.
    destruct (CommonBackend_calls_unified_hook _); [|done].
    apply advances_process_unified_sources. }
  destruct (CommonBackend_consume_object obj); [by intros [= _ <-]|].
  unfold _get_backend_file_for.
  pose proof (advances_get_backend_file
                (mozpath_relpath (obj_objdir c) (topobjdir (environment st0)))
                (Some (obj_objdir c)) (Some (obj_srcdir c)) st0) as H1.
  destruct (_get_backend_file _ _ _ st0) as [k st1]. simpl in *.
  intros Hd%advances_dispatch. etrans; [exact H0|]. by etrans.
Qed.

Lemma advances_consume objs st st' :
  consume objs st = Ok st' → advances st st'.
Proof.
  unfold consume. apply (for_each_preorder advances).
  intros obj s s' _.
  destruct (consume_object obj s) as [[r s1]|e] eqn:Hobj; [|done].
  simpl. intros [= <-]. by eapply advances_consume_object.
Qed.

Lemma advances_process_delayed bf obj st st' :
  process_delayed bf obj st = Ok st' → advances st st'.
Proof.
  destruct obj; simpl; try (by intros [= ->]).
  - apply advances_process_generated_file.
  - destruct (_ || _); intros [= <-]; [|done].
    apply advances_process_program.
Qed.

Lemma advances_write_file path content st :
  advances st (_write_file path content st).
Proof.
  apply advances_same_files; try done.
  - intros t s' Hs. by exists s'.
  - simpl. by apply prefix_app_r.
Qed.

Lemma advances_write_manifests st : advances st (write_manifests st).
Proof.
  unfold write_manifests. apply (foldl_preorder advances).
  intros s [t e]. apply advances_write_file.
Qed.

Lemma advances_after_manifests st st' :
  consume_finished [] st = Ok st' → advances (write_manifests st) st'.
Proof.
  unfold consume_finished.
  change (CommonBackend_consume_finished [] st) with st.
  apply (for_each_preorder advances). intros k s s' _.
  destruct (for_each _ _ s) as [s1|e] eqn:Hd; [|done]. simpl.
  intros [= <-]. etrans; [|apply advances_write_file].
  revert Hd. apply (for_each_preorder advances). intros obj s2 s3 _.
  apply advances_process_delayed.
Qed.

Lemma advances_consume_finished st st' :
  consume_finished [] st = Ok st' → advances st st'.
Proof.
  intros Hf. etrans; [apply advances_write_manifests|].
  by apply advances_after_manifests.
Qed.

Lemma rules_prefix b b' : fh b `prefix_of` fh b' → rules b `prefix_of` rules b'.
Proof. intros [more Hm]. unfold rules. rewrite Hm, omap_app. by eexists. Qed.

Lemma contents_prefix b b' :
  fh b `prefix_of` fh b' → ∃ text, contents b' = contents b +:+ text.
Proof.
  intros [more Hm]. unfold contents.
  rewrite Hm, fmap_app, concat_empty_app. by eexists.
Qed.

Lemma delayed_ok_advances st st' :
  delayed_ok st → advances st st' → delayed_ok st'.
Proof.
  intros Hok (_ & _ & Hfiles & Hnew & _) k b' Hk'.
  destruct (_backend_files st !! k) as [b|] eqn:Hk.
  - destruct (Hfiles k b Hk)
      as (b1 & Hk1 & _ & _ & _ & _ & _ & (more & Hm & ?) & _).
    assert (b1 = b') as -> by congruence. rewrite Hm.
    apply Forall_app. split; [by eapply Hok | done].
  - by eapply Hnew.
Qed.

Lemma process_delayed_succeeds bf obj st :
  deferrable obj → ∃ st', process_delayed bf obj st = Ok st'.
Proof.
  destruct obj as [c g| | | | | | |l| |]; simpl; try done.
  - intros Hin. unfold _process_generated_file.
    destruct (_ && _); [|by eauto].
    destruct (outputs g); [by apply elem_of_nil in Hin | by eauto].
  - intros _. destruct (_ || _); by eauto.
Qed.

Lemma delayed_loop_succeeds bf l st :
  Forall deferrable l →
  ∃ st', for_each (process_delayed bf) l st = Ok st'.
Proof.
  intros Hl. revert st. induction Hl as [|obj l Hobj _ IH]; intros st; simpl.
  - by eauto.
  - destruct (process_delayed_succeeds bf obj st Hobj) as [st1 ->]. simpl.
    apply IH.
Qed.

Lemma delayed_ok_backend_file st k :
  delayed_ok st → Forall deferrable (delayed_generated_files (backend_file st k)).
Proof.
  intros Hok. unfold backend_file. rewrite lookup_total_alt.
  destruct (_backend_files st !! k) as [b|] eqn:Hk; simpl; [by eapply Hok|].
  constructor.
Qed.

Lemma consume_finished_succeeds st :
  delayed_ok st → ∃ st', consume_finished [] st = Ok st'.
Proof.
  intros Hok. unfold consume_finished.
  change (CommonBackend_consume_finished [] st) with st.
  assert (delayed_ok (write_manifests st)) as Hok'
    by (eapply delayed_ok_advances; [done | apply advances_write_manifests]).
  generalize (sorted (map_to_list (_backend_files (write_manifests st))).*1).
  revert Hok'. generalize (write_manifests st). clear st Hok.
  intros st Hok l. revert st Hok.
  induction l as [|k l IH]; intros st Hok; simpl; [by eauto|].
  destruct (delayed_loop_succeeds k _ st (delayed_ok_backend_file st k Hok))
    as [st1 Hst1].
  rewrite Hst1. simpl. apply IH.
  eapply delayed_ok_advances; [exact Hok|].
  etrans; [|apply advances_write_file].
  revert Hst1. apply (for_each_preorder advances). intros obj s2 s3 _.
  apply advances_process_delayed.
Qed.

End walk_growth.

(** ** The deferred phase writes every rule file once *)

Global Instance modifies_only_preorder bf : PreOrder (modifies_only bf).
Proof.
  split.
  - by intros st.
  - intros s1 s2 s3 [Hw1 Hf1] [Hw2 Hf2]. split; [congruence|].
    intros k b Hk Hb. by apply Hf2, Hf1.
Qed.

Section closing.
Context `{Collaborators}.

Lemma modifies_only_on_backend_file bf f st :
  modifies_only bf st (on_backend_file bf f st).
Proof.
  split; [done|]. intros k b Hk Hb.
  by rewrite lookup_on_backend_file, decide_False.
Qed.

Lemma modifies_only_get_backend_file bf relativedir objdir srcdir st :
  modifies_only bf st (_get_backend_file relativedir objdir srcdir st).2.
Proof.
  destruct (get_backend_file_spec relativedir objdir srcdir st)
    as (_ & Hsub & _ & _ & _ & _ & _ & _ & Hw).
  split; [done|]. intros k b _ Hb. by eapply lookup_weaken.
Qed.

Lemma modifies_only_process_generated_file bf c g st st' :
  _process_generated_file bf c g st = Ok st' → modifies_only bf st st'.
Proof.
  unfold _process_generated_file.
  destruct (_ && _); [|by intros [= ->]].
  destruct (outputs g); [done|]. intros [= <-].
  etrans; apply modifies_only_on_backend_file.
Qed.

Lemma modifies_only_process_program bf obj st :
  modifies_only bf st (_process_program bf obj st).
Proof.
  unfold _process_program.
  destruct (link_plan obj) as [libs system_libs].
  assert (modifies_only bf st (_source_closure bf st).2) as Hc.
  { unfold _source_closure.
    pose proof (modifies_only_get_backend_file bf
                  (relobjdir (backend_file st bf)) None None st) as Hg.
    by destruct (_get_backend_file _ None None st) as [k st1]. }
  destruct (_source_closure bf st) as [closure st1]. simpl in Hc.
  repeat case_match.
  all: first [ apply modifies_only_on_backend_file
             | etrans; [exact Hc|]; apply modifies_only_on_backend_file ].
Qed.

Lemma modifies_only_process_delayed bf obj st st' :
  process_delayed bf obj st = Ok st' → modifies_only bf st st'.
Proof.
  destruct obj; simpl; try (by intros [= ->]).
  - apply modifies_only_process_generated_file.
  - destruct (_ || _); intros [= <-]; [|done].
    apply modifies_only_process_program.
Qed.

Lemma finish_spec k st st' b :
  _backend_files st !! k = Some b →
  finish k st = Ok st' →
  advances st st'
  ∧ written st' = written st ++ [(name b, contents (backend_file st' k))]
  ∧ ∀ k' b', k' ≠ k → _backend_files st !! k' = Some b' →
             _backend_files st' !! k' = Some b'.
Proof.
  intros Hb. unfold finish.
  destruct (for_each _ _ st) as [s1|e] eqn:Hd; [|done]. simpl. intros [= <-].
  assert (advances st s1) as Ha.
  { revert Hd. apply (for_each_preorder advances). intros obj s2 s3 _.
    apply advances_process_delayed. }
  assert (modifies_only k st s1) as [Hw Hm].
  { revert Hd. apply (for_each_preorder (modifies_only k)). intros obj s2 s3 _.
    apply modifies_only_process_delayed. }
  split; [etrans; [exact Ha | apply advances_write_file]|].
  split; [|exact Hm].
  destruct Ha as (_ & _ & Hf & _). destruct (Hf k b Hb) as (b1 & Hb1 & Hext).
  unfold close, _write_file. simpl.
  change (backend_file (set_written _ s1) k) with (backend_file s1 k).
  rewrite Hw, (backend_file_lookup s1 k b1 Hb1).
  by destruct Hext as (_ & _ & -> & _).
Qed.

Lemma finish_loop l st st' :
  NoDup l →
  Forall (fun k => is_Some (_backend_files st !! k)) l →
  for_each finish l st = Ok st' →
  advances st st'
  ∧ written st'
    = written st
      ++ ((fun k => (name (backend_file st k), contents (backend_file st' k)))
            <$> l)
  ∧ ∀ k b, k ∉ l → _backend_files st !! k = Some b →
           _backend_files st' !! k = Some b.
Proof.
  intros Hnd. revert st. induction Hnd as [|k l Hk Hnd IH]; intros st Hall; simpl.
  - intros [= ->]. by rewrite app_nil_r.
  - apply Forall_cons in Hall as [[b Hb] Hall].
    destruct (finish k st) as [s1|e] eqn:Hf; [|done]. simpl. intros Hrest.
    destruct (finish_spec k st s1 b Hb Hf) as (Ha & Hw & Hother).
    assert (Forall (fun k => is_Some (_backend_files s1 !! k)) l) as Hall1.
    { eapply Forall_impl; [exact Hall|]. intros k' [b' Hb'].
      destruct Ha as (_ & _ & Hfiles & _).
      destruct (Hfiles k' b' Hb') as (b1 & -> & _). by eauto. }
    destruct (IH s1 Hall1 Hrest) as (Ha' & Hw' & Hother').
    split; [by etrans|]. split.
    + rewrite Hw', Hw, <- app_assoc. f_equal. simpl. f_equal.
      * rewrite (backend_file_lookup st k b Hb). f_equal.
        assert (is_Some (_backend_files s1 !! k)) as [b1 Hb1].
        { destruct Ha as (_ & _ & Hfiles & _).
          destruct (Hfiles k b Hb) as (b1 & -> & _). by eauto. }
        by rewrite (backend_file_lookup s1 k b1 Hb1),
          (backend_file_lookup st' k b1 (Hother' k b1 Hk Hb1)).
      * apply list_fmap_ext. intros i k' Hk'%list_elem_of_lookup_2.
        assert (k' ≠ k) as Hne by (intros ->; done).
        apply (proj1 (Forall_forall _ _) Hall) in Hk' as [b' Hb'].
        by rewrite (backend_file_lookup st k' b' Hb'),
          (backend_file_lookup s1 k' b' (Hother k' b' Hne Hb')).
    + intros k' b' [Hne Hk']%not_elem_of_cons Hb'.
      apply Hother', Hother; done.
Qed.

Lemma sorted_keys_NoDup (m : gmap string BackendTupfile) :
  NoDup (sorted (map_to_list m).*1).
Proof.
  rewrite (sorted_Permutation_self (map_to_list m).*1).
  apply NoDup_fst_map_to_list.
Qed.

Lemma sorted_keys_present (m : gmap string BackendTupfile) :
  Forall (fun k => is_Some (m !! k)) (sorted (map_to_list m).*1).
Proof.
  apply Forall_forall. intros k.
  rewrite (sorted_Permutation_self (map_to_list m).*1).
  intros ((k' & b) & -> & Hkb%elem_of_map_to_list)%list_elem_of_fmap.
  by eauto.
Qed.

End closing.

(** ** Edges of the walk *)

Lemma header_like_pp s : header_like (s +:+ ".pp") = false.
Proof.
  apply not_true_is_false. intros [[p Hp]|[p Hp]]%header_like_spec.
  - assert (py_last 2 (s +:+ ".pp") = py_last 2 (p +:+ ".h")) as Heq
      by (by rewrite Hp).
    rewrite !py_last_app in Heq by (simpl; lia). done.
  - assert (py_last 2 (s +:+ ".pp") = py_last 2 (p +:+ ".cfg")) as Heq
      by (by rewrite Hp).
    rewrite !py_last_app in Heq by (simpl; lia). done.
Qed.

Lemma export_shell_exported b : shell_exported (export_shell b) = true.
Proof. unfold export_shell. by destruct (shell_exported b) eqn:He. Qed.

Lemma rule_shell_exported cmd inputs extra_inputs outputs display extra_outputs
    output_group check_unchanged b :
  shell_exported (rule cmd inputs extra_inputs outputs display extra_outputs
                    output_group check_unchanged b) = shell_exported b.
Proof. unfold rule; simpl. unfold include_rules. by destruct (rules_included b). Qed.

Lemma rule_host_defines cmd inputs extra_inputs outputs display extra_outputs
    output_group check_unchanged b :
  host_defines (rule cmd inputs extra_inputs outputs display extra_outputs
                  output_group check_unchanged b) = host_defines b.
Proof. unfold rule; simpl. unfold include_rules. by destruct (rules_included b). Qed.

Section walk_edges.
Context `{Collaborators}.

Lemma consume_object_ignored obj st :
  ignored obj = true → ∃ r, consume_object obj st = Ok (r, st).
Proof.
  unfold ignored, consume_object.
  destruct (str_in _ skipped_relativedirs); [by eauto|]. simpl.
  destruct (context_of obj) as [c|] eqn:Hc; [|by eauto].
  rewrite bool_decide_eq_false_2 by done. simpl.
  destruct (CommonBackend_consume_object obj); [|done]. simpl.
  destruct obj; try (by eauto).
  destruct (CommonBackend_calls_unified_hook _); [done | by eauto].
Qed.

(** X8.  Objects of a skipped directory, objects that are not
    [ContextDerived] and objects [CommonBackend] consumes without calling
    the unified-sources hook leave the backend as it is: the walk over a
    list is the walk over the list without them.  For the first kind
    [consume_object] answers [True], for the second [False]. *)
Theorem walk_skips_ignored_objects objs st :
  consume objs st = consume (filter (fun obj => ignored obj = false) objs) st
  ∧ ∀ obj, obj ∈ objs →
      (str_in (obj_relativedir obj) skipped_relativedirs = true →
       consume_object obj st = Ok (true, st))
      ∧ (str_in (obj_relativedir obj) skipped_relativedirs = false →
         context_of obj = None →
         consume_object obj st = Ok (false, st)).
Proof.
  split.
  - unfold consume. revert st. induction objs as [|obj objs IH]; intros st;
      [done|].
    destruct (ignored obj) eqn:Hi.
    + rewrite filter_cons_False by (by rewrite Hi). simpl.
      destruct (consume_object_ignored obj st Hi) as [r ->]. simpl. apply IH.
    + rewrite filter_cons_True by done. simpl.
      destruct (consume_object obj st) as [[r st1]|e]; simpl; [apply IH | done].
  - intros obj _. unfold consume_object. split.
    + by intros ->.
    + by intros -> ->.
Qed.

(** X9.  A generated file with a script and a method but without outputs,
    outside the skipped directories, makes [consume_object] raise (the
    [IndexError] of [obj.outputs[0]]), and with it every walk that reaches
    it, whatever follows. *)
Theorem generated_file_without_outputs_raises c g objs1 objs2 st st1 :
  str_in (relativedir c) skipped_relativedirs = false →
  CommonBackend_consume_object (GeneratedFile c g) = false →
  truthy (script g) && truthy (method g) = true →
  str_in (obj_relobjdir c) ["layout/style/test"; "toolkit/library"] = false →
  outputs g = [] →
  consume objs1 st = Ok st1 →
  ∃ e,
    consume_object (GeneratedFile c g) st1 = Raise e
    ∧ consume (objs1 ++ GeneratedFile c g :: objs2) st = Raise e.
Proof.
  intros Hskip Hcb Hsm Hdir Hout Hw.
  exists "IndexError: list index out of range".
  assert (consume_object (GeneratedFile c g) st1
          = Raise "IndexError: list index out of range") as Hobj.
  { unfold consume_object. simpl. rewrite Hskip, Hcb.
    destruct (_get_backend_file_for c st1) as [bf st2]. simpl.
    rewrite Hout. simpl. unfold _process_generated_file.
    rewrite Hsm, Hdir, Hout. done. }
  split; [done|].
  unfold consume in *. revert st Hw.
  induction objs1 as [|obj objs1 IH]; intros st; simpl.
  - intros [= ->]. by rewrite Hobj.
  - destruct (consume_object obj st) as [[r s]|e]; simpl; [apply IH | done].
Qed.

(** X10.  For a generated file with a script, a method and outputs, outside
    the two excluded object directories, [_process_generated_file] appends
    exactly one rule: it runs [file_generate] on the script, the method, the
    first output and its [.pp] file, then the inputs and the quoted flags;
    its inputs are those of the object; its outputs are those of the object,
    the [.pp] file of the first, and the includes group when an output is a
    header or [.cfg] file, the installed-files group otherwise; the rule
    file exports the shell. *)
Theorem generated_file_rule bf c g st b :
  _backend_files st !! bf = Some b →
  truthy (script g) && truthy (method g) = true →
  str_in (obj_relobjdir c) ["layout/style/test"; "toolkit/library"] = false →
  outputs g ≠ [] →
  ∃ st' r,
    _process_generated_file bf c g st = Ok st'
    ∧ rules (backend_file st' bf) = rules b ++ [r]
    ∧ r_cmd r
      = ["$(PYTHON)"; "-m"; "mozbuild.action.file_generate";
         default "" (script g); default "" (method g);
         default "" (head (outputs g)); default "" (head (outputs g)) +:+ ".pp"]
        ++ inputs g ++ (shell_quote <$> flags g)
    ∧ r_inputs r = inputs g
    ∧ r_outputs r
      = outputs g
        ++ [default "" (head (outputs g)) +:+ ".pp";
            if existsb header_like (outputs g) then _includes_group
            else _installed_files]
    ∧ shell_exported (backend_file st' bf) = true.
Proof.
  intros Hb Hsm Hdir Hout. unfold _process_generated_file.
  rewrite Hsm, Hdir. simpl.
  destruct (outputs g) as [|o0 rest] eqn:Hog; [done|]. simpl.
  pose proof (lookup_on_backend_file_eq bf export_shell st b Hb) as Hb1.
  match goal with
  | |- context [on_backend_file ?k (rule ?c ?i ?ei ?o ?d ?eo ?gr ?u) ?s] =>
      destruct (rule_emits c i ei o d eo gr u (export_shell b))
        as (r & Hr & Hcmd & Hin & _ & Houts & _);
      pose proof (rule_fields c i ei o d eo gr u (export_shell b)) as Hfields;
      eexists _, r; split; [reflexivity|];
      rewrite (backend_file_lookup _ k _
                 (lookup_on_backend_file_eq k _ s _ Hb1))
  end.
  rewrite Hr, Hcmd, Hin, Houts, rules_export_shell.
  repeat split.
  - unfold emitted_outputs. simpl.
    replace (existsb header_like (rest ++ [o0 +:+ ".pp"]))
      with (existsb header_like rest)
      by (by rewrite existsb_app; simpl; rewrite header_like_pp, !orb_false_r).
    destruct (header_like o0 || existsb header_like rest).
    all: f_equal. all: rewrite <- app_assoc. all: reflexivity.
  - by rewrite rule_shell_exported, export_shell_exported.
Qed.

(** X11.  The preprocessor rule written after a [Defines] or [HostDefines]
    object takes the target defines only: a non-empty [Defines] replaces
    the defines the rule quotes and an empty one keeps them, whereas a
    [HostDefines] changes [host_defines] alone and leaves the command as it
    would have been.  The marker is [%%] for a [.css] input and [#]
    otherwise. *)
Theorem preprocess_takes_the_target_defines bf d host input_file destdir st b :
  _backend_files st !! bf = Some b →
  ∃ r,
    rules (backend_file
             (_preprocess bf input_file destdir
                (_process_defines bf d host st)) bf) = rules b ++ [r]
    ∧ r_inputs r = [input_file]
    ∧ r_cmd r
      = ["$(PYTHON)"; "-m"; "mozbuild.action.preprocessor"]
        ++ (shell_quote
              <$> (if host then defines b
                   else match d with [] => defines b | _ => d end))
        ++ ["$(ACDEFINES)"; "%f"; "-o"; "%o";
            "--marker=" +:+ (if endswith input_file ".css" then "%%" else "#")]
    ∧ host_defines
        (backend_file
           (_preprocess bf input_file destdir
              (_process_defines bf d host st)) bf)
      = (if host then match d with [] => host_defines b | _ => d end
         else host_defines b).
Proof.
  intros Hb.
  set (b1 := if decide (d = []) then b else set_defines host d b).
  assert (_backend_files (_process_defines bf d host st) !! bf = Some b1)
    as Hb1.
  { subst b1. unfold _process_defines. destruct d; [done|].
    rewrite decide_False by done. by apply lookup_on_backend_file_eq. }
  unfold _preprocess. rewrite (backend_file_lookup _ bf b1 Hb1).
  match goal with
  | |- context [on_backend_file ?k (rule ?c ?i ?ei ?o ?dd ?eo ?gr ?u) ?s] =>
      destruct (rule_emits c i ei o dd eo gr u b1)
        as (r & Hr & Hcmd & Hin & _);
      exists r;
      rewrite (backend_file_lookup _ k _
                 (lookup_on_backend_file_eq k _ s _ Hb1))
  end.
  rewrite Hr, Hcmd, Hin. subst b1.
  rewrite rule_host_defines.
  destruct d as [|x d]; destruct host; simpl; repeat split; done.
Qed.

(** X12.  For [UnifiedSources] the files compiled are the keys of the
    unified mapping, not [obj.files]: without a mapping [_process_sources]
    does nothing, whatever the files. *)
Theorem unified_sources_without_mapping_emit_nothing c s bf st :
  s_class s = data.UnifiedSources →
  have_unified_mapping s = false →
  _process_sources c s bf st = st.
Proof.
  intros Hc Hm. unfold _process_sources, source_files, unified_mapping.
  rewrite Hc, Hm. simpl. by rewrite map_to_list_empty.
Qed.
End walk_edges.

Section sources_rules.
Context `{Collaborators}.

Lemma write_sources_pairs_loop bf class_name suffix
    (l : list (string * list string)) st b :
  _backend_files st !! bf = Some b →
  let st' :=
    foldl (fun st '(f, unified_inputs) =>
             _write_sources bf class_name f suffix unified_inputs st) st l in
  let n :=
    length (filter (fun p => missing (lookup_command (_commands_db st) p.1
                                        (objdir b) p.2) = true) l) in
  ∃ rs,
    rules (backend_file st' bf) = rules b ++ rs
    ∧ is_Some (_backend_files st' !! bf)
    ∧ Forall2
        (fun p r =>
           r_inputs r = [p.1]
           ∧ r_outputs r = ["%B.o"; _objects_group]
           ∧ r_extra_inputs r
             = Some ([_includes_group; _installed_files] ++ p.2)
           ∧ r_cmd r
             = (let cmd :=
                  lookup_command (_commands_db st) p.1 (objdir b) p.2 in
                if missing cmd then ["touch"; "%o"] else or_nil cmd))
        l rs
    ∧ ∀ key,
        default 0 (_missing_commands st' !! key)
        = default 0 (_missing_commands st !! key)
          + (if decide (key = suffix) then n else 0)
          + (if decide (key = class_name) then n else 0).
Proof.
  revert st b. induction l as [|[f inputs] l IH]; intros st b Hb; simpl.
  - exists []. rewrite (backend_file_lookup _ _ _ Hb), app_nil_r.
    split; [done|]. split; [by eauto|]. split; [constructor|]. intros key.
    repeat case_decide; lia.
  - destruct (write_sources_rule bf class_name f suffix inputs st b Hb)
      as (r & Hr & Hcmd & Hin & Hei & Hout & Hmiss & _).
    set (st1 := _write_sources bf class_name f suffix inputs st) in *.
    assert (is_Some (_backend_files st1 !! bf)) as Hsome
      by (apply write_sources_is_Some; eauto).
    apply lookup_backend_file in Hsome.
    assert (_commands_db st1 = _commands_db st) as Hdb
      by apply (frame_write_sources bf class_name f suffix inputs st).
    assert (objdir (backend_file st1 bf) = objdir b) as Hobjdir.
    { destruct (advances_write_sources bf class_name f suffix inputs st)
        as (_ & _ & Hfiles & _).
      destruct (Hfiles bf b Hb) as (b1 & Hb1 & Ho & _).
      fold st1 in Hb1. by rewrite (backend_file_lookup st1 bf b1 Hb1). }
    destruct (IH st1 _ Hsome) as (rs & Hrs & Hsome' & Hall & Hcount).
    rewrite Hdb, Hobjdir in Hall, Hcount.
    exists (r :: rs). split; [by rewrite Hrs, Hr, <- app_assoc|].
    split; [done|]. split; [by constructor|].
    intros key. rewrite Hcount, Hmiss.
    destruct (missing (lookup_command _ f _ _)) eqn:Hm.
    + rewrite filter_cons_True by done. simpl.
      rewrite !incr_lookup. repeat case_decide; simplify_eq; lia.
    + rewrite filter_cons_False by (by simpl; rewrite Hm). done.
Qed.

Lemma write_sources_rules_loop bf class_name suffix
    (inputs_of : string → list string) l st b :
  _backend_files st !! bf = Some b →
  let st' :=
    foldl (fun st f => _write_sources bf class_name f suffix (inputs_of f) st)
      st l in
  let n :=
    length (filter (fun f => missing (lookup_command (_commands_db st) f
                                        (objdir b) (inputs_of f)) = true) l) in
  ∃ rs,
    rules (backend_file st' bf) = rules b ++ rs
    ∧ Forall2
        (fun f r =>
           r_inputs r = [f]
           ∧ r_outputs r = ["%B.o"; _objects_group]
           ∧ r_extra_inputs r
             = Some ([_includes_group; _installed_files] ++ inputs_of f)
           ∧ r_cmd r
             = (let cmd :=
                  lookup_command (_commands_db st) f (objdir b) (inputs_of f) in
                if missing cmd then ["touch"; "%o"] else or_nil cmd))
        l rs
    ∧ ∀ key,
        default 0 (_missing_commands st' !! key)
        = default 0 (_missing_commands st !! key)
          + (if decide (key = suffix) then n else 0)
          + (if decide (key = class_name) then n else 0).
Proof.
  intros Hb.
  destruct (write_sources_pairs_loop bf class_name suffix
              ((fun f => (f, inputs_of f)) <$> l) st b Hb)
    as (rs & Hrs & _ & Hall & Hcount).
  rewrite foldl_fmap in Hrs, Hcount. exists rs. split; [exact Hrs|].
  split; [by apply Forall2_fmap_l in Hall|].
  intros key. rewrite Hcount. clear.
  assert (length (filter (fun p : string * list string =>
                     missing (lookup_command (_commands_db st) p.1 (objdir b) p.2)
                     = true) ((fun f => (f, inputs_of f)) <$> l))
          = length (filter (fun f => missing (lookup_command (_commands_db st) f
                                               (objdir b) (inputs_of f)) = true) l))
    as ->; [|done].
  induction l as [|f l IH]; [done|]. rewrite fmap_cons.
  destruct (missing (lookup_command (_commands_db st) f (objdir b) (inputs_of f)))
    eqn:Hm.
  - rewrite !filter_cons_True by done. simpl. by rewrite IH.
  - rewrite !filter_cons_False by (by simpl; rewrite Hm). done.
Qed.

(** X13.  [_process_sources] appends one compile rule for each file, in
    sorted order: its input is the file, its outputs are [%B.o] and the
    objects group, its extra inputs are the includes and installed-files
    groups followed by the constituents of the file, and its command is the
    one the database gives for the file, or [touch %o] when it gives none. *)
Theorem sources_get_one_compile_rule_each c s bf st b :
  _backend_files st !! bf = Some b →
  ∃ rs,
    rules (backend_file (_process_sources c s bf st) bf) = rules b ++ rs
    ∧ Forall2
        (fun f r =>
           r_inputs r = [f]
           ∧ r_outputs r = ["%B.o"; _objects_group]
           ∧ r_extra_inputs r
             = Some ([_includes_group; _installed_files]
                     ++ default [] (unified_mapping s !! f))
           ∧ r_cmd r
             = (let cmd :=
                  lookup_command (_commands_db st) f (objdir b)
                    (default [] (unified_mapping s !! f)) in
                if missing cmd then ["touch"; "%o"] else or_nil cmd))
        (sorted (source_files s)) rs.
Proof.
  intros Hb. unfold _process_sources.
  destruct (write_sources_rules_loop bf (sources_class_name (s_class s))
              (canonical_suffix s)
              (fun f => default [] (unified_mapping s !! f))
              (sorted (source_files s)) st b Hb) as (rs & Hrs & Hall & _).
  by exists rs.
Qed.

(** X14.  Over a whole [_process_sources] the counters of missing commands
    grow by the number of files without a command, for the canonical suffix
    and for the class name of the object (by twice that number for a key
    that is both), and no other counter changes. *)
Theorem missing_commands_are_counted c s bf st b key :
  _backend_files st !! bf = Some b →
  let n :=
    length (filter
              (fun f => missing (lookup_command (_commands_db st) f (objdir b)
                                   (default [] (unified_mapping s !! f)))
                        = true)
              (source_files s)) in
  default 0 (_missing_commands (_process_sources c s bf st) !! key)
  = default 0 (_missing_commands st !! key)
    + (if decide (key = canonical_suffix s) then n else 0)
    + (if decide (key = sources_class_name (s_class s)) then n else 0).
Proof.
  intros Hb n. unfold _process_sources.
  destruct (write_sources_rules_loop bf (sources_class_name (s_class s))
              (canonical_suffix s)
              (fun f => default [] (unified_mapping s !! f))
              (sorted (source_files s)) st b Hb) as (rs & _ & _ & Hcount).
  rewrite Hcount. subst n.
  set (P := fun f : string => missing _ = true).
  assert (length (filter P (sorted (source_files s)))
          = length (filter P (source_files s))) as ->; [|done].
  apply Permutation_length, filter_Permutation, sorted_Permutation_self.
Qed.
End sources_rules.

(** ** The command database as loaded *)

Lemma rev_app_rev_app x acc acc2 :
  String.rev_app (String.rev_app x acc) acc2 = String.rev_app acc (x +:+ acc2).
Proof.
  revert acc acc2. induction x as [|a x IH]; intros acc acc2; [done|].
  simpl. by rewrite IH.
Qed.

Lemma string_app_empty_r (s : string) : s +:+ "" = s.
Proof.
  induction s as [|a s IH]; [done|].
  change (String a s +:+ "") with (String a (s +:+ "")). by rewrite IH.
Qed.

Lemma rev_rev_app x : String.rev (String.rev_app x "") = x.
Proof.
  unfold String.rev. rewrite rev_app_rev_app. simpl. apply string_app_empty_r.
Qed.

Lemma words_go_word cur w s :
  forallb (fun c => negb (Ascii.is_space c)) (String.list_ascii_of_string w)
  = true →
  String.words_go cur (w +:+ s)
  = String.words_go
      (match w with
       | EmptyString => cur
       | _ => Some (String.rev_app w (default "" cur))
       end) s.
Proof.
  revert cur. induction w as [|a w IH]; intros cur Hw; [done|].
  simpl in Hw. apply andb_true_iff in Hw as [Ha Hw].
  change (String a w +:+ s) with (String a (w +:+ s)). simpl.
  apply negb_true_iff in Ha. rewrite Ha, (IH _ Hw).
  destruct cur as [c|]; by destruct w.
Qed.

Lemma words_join_words (c : list string) :
  Forall (fun a => is_word a = true) c → String.words (join_sp c) = c.
Proof.
  unfold String.words, join_sp.
  induction 1 as [|x c Hx Hc IH]; [done|].
  apply andb_true_iff in Hx as [Hne Hsp].
  destruct c as [|y c].
  - simpl String.concat. rewrite <- (string_app_empty_r x) at 1.
    rewrite (words_go_word None x "" Hsp).
    destruct x as [|a x]; [done|]. simpl. f_equal.
    apply (rev_rev_app (String a x)).
  - change (String.concat " " (x :: y :: c))
      with (x +:+ String " " (String.concat " " (y :: c))).
    rewrite (words_go_word None x _ Hsp).
    remember (String.concat " " (y :: c)) as rest eqn:Hrest.
    destruct x as [|a x]; [done|].
    change (String.words_go (Some (String.rev_app (String a x) (default "" None)))
              (String " " rest))
      with (String.rev (String.rev_app (String a x) "")
              :: String.words_go None rest).
    rewrite IH. f_equal. apply (rev_rev_app (String a x)).
Qed.

Lemma no_space_rev_app x acc :
  forallb (fun c => negb (Ascii.is_space c))
    (String.list_ascii_of_string (String.rev_app x acc))
  = forallb (fun c => negb (Ascii.is_space c)) (String.list_ascii_of_string x)
    && forallb (fun c => negb (Ascii.is_space c))
         (String.list_ascii_of_string acc).
Proof.
  revert acc. induction x as [|a x IH]; intros acc; [done|].
  simpl. rewrite IH. simpl.
  by destruct (negb _), (forallb _ (String.list_ascii_of_string x)).
Qed.

Lemma rev_app_nonempty x acc : acc ≠ "" → String.rev_app x acc ≠ "".
Proof.
  revert acc. induction x as [|a x IH]; intros acc Hacc; [done|].
  simpl. by apply IH.
Qed.

Lemma is_word_rev r :
  r ≠ "" →
  forallb (fun c => negb (Ascii.is_space c)) (String.list_ascii_of_string r)
  = true →
  is_word (String.rev r) = true.
Proof.
  intros Hne Hsp. unfold is_word, String.rev.
  rewrite no_space_rev_app, Hsp. simpl. rewrite andb_true_r.
  apply negb_true_iff, String.eqb_neq.
  destruct r as [|a r]; [done|]. simpl. by apply rev_app_nonempty.
Qed.

Lemma words_go_are_words cur s :
  (∀ r, cur = Some r →
     r ≠ ""
     ∧ forallb (fun c => negb (Ascii.is_space c))
         (String.list_ascii_of_string r) = true) →
  Forall (fun a => is_word a = true) (String.words_go cur s).
Proof.
  revert cur. induction s as [|a s IH]; intros cur Hcur; simpl.
  - destruct cur as [r|]; simpl; [|constructor].
    destruct (Hcur r eq_refl). constructor; [by apply is_word_rev | constructor].
  - destruct (Ascii.is_space a) eqn:Ha.
    + apply Forall_app. split; [|by apply IH].
      destruct cur as [r|]; simpl; [|constructor].
      destruct (Hcur r eq_refl).
      constructor; [by apply is_word_rev | constructor].
    + apply IH. intros r [= <-]. destruct cur as [r|]; simpl.
      * destruct (Hcur r eq_refl) as [_ ->]. by rewrite Ha.
      * by rewrite Ha.
Qed.

Lemma words_are_words s : Forall (fun a => is_word a = true) (String.words s).
Proof. by apply words_go_are_words. Qed.

Lemma load_commands_db_snoc json e :
  load_commands_db (json ++ [e])
  = <[(db_file e, db_directory e) := load_command (db_command e)]>
      (load_commands_db json).
Proof. unfold load_commands_db. by rewrite foldl_app. Qed.

(** X7.  The command database [_init] loads maps [(file, directory)] to the
    command of the last record with these two fields; no loaded command
    holds [/dev/null], an empty word or a word with white space. *)
Theorem commands_db_holds_the_last_record json file directory :
  load_commands_db json !! (file, directory)
  = (fun e => load_command (db_command e))
      <$> last (filter (fun e => (db_file e, db_directory e) = (file, directory))
                  json)
  ∧ ∀ key cmd, load_commands_db json !! key = Some cmd →
      ("/dev/null" ∉ cmd) ∧ Forall (fun a => is_word a = true) cmd.
Proof.
  split.
  - induction json as [|e json IH] using rev_ind; [done|].
    rewrite load_commands_db_snoc, filter_app.
    destruct (decide ((db_file e, db_directory e) = (file, directory)))
      as [Heq|Hne].
    + rewrite filter_cons_True by done. rewrite filter_nil, last_snoc, Heq.
      by rewrite lookup_insert_eq.
    + rewrite filter_cons_False by done. rewrite filter_nil, app_nil_r.
      by rewrite lookup_insert_ne.
  - induction json as [|e json IH] using rev_ind.
    + intros key cmd Hk. unfold load_commands_db in Hk. simpl in Hk.
      by rewrite lookup_empty in Hk.
    + intros key cmd. rewrite load_commands_db_snoc.
      destruct (decide ((db_file e, db_directory e) = key)) as [<-|Hne].
      * rewrite lookup_insert_eq. intros [= <-]. unfold load_command. split.
        -- intros (p & Hp & _)%list_elem_of_fmap.
           destruct (String.eqb_spec p "/dev/null"); done.
        -- apply Forall_fmap, Forall_forall. intros p Hp. simpl.
           destruct (String.eqb_spec p "/dev/null"); [done|].
           by apply (proj1 (Forall_forall _ _) (words_are_words (db_command e))).
      * rewrite lookup_insert_ne by done. apply IH.
Qed.

(** ** Rule files *)

Section rule_files.
Context `{Collaborators}.

(** X6.  [_get_backend_file] creates a rule file only when the normalised
    object directory has none: when it has one the state is unchanged; when
    it has none a fresh [BackendTupfile] of that directory is stored under
    it; no other key changes; and a second call that leads to the same key
    returns it with the state unchanged. *)
Theorem backend_files_are_created_once relativedir objdir srcdir st :
  let k := (_get_backend_file relativedir objdir srcdir st).1 in
  let st' := (_get_backend_file relativedir objdir srcdir st).2 in
  (∀ b, _backend_files st !! k = Some b → st' = st)
  ∧ (_backend_files st !! k = None →
     ∃ s, _backend_files st' !! k
          = Some (BackendTupfile_init s k (topsrcdir (environment st))
                    (topobjdir (environment st))))
  ∧ (∀ k', k' ≠ k → _backend_files st' !! k' = _backend_files st !! k')
  ∧ (∀ relativedir' objdir' srcdir',
       (_get_backend_file relativedir' objdir' srcdir' st').1 = k →
       _get_backend_file relativedir' objdir' srcdir' st' = (k, st')).
Proof.
  intros k st'.
  destruct (get_backend_file_spec relativedir objdir srcdir st)
    as (Hsome & _ & Hother & Hnew & He & _).
  fold k st' in Hsome, Hother, Hnew, He.
  split; [|split; [done|split; [done|]]].
  - intros b. subst k st'. unfold _get_backend_file.
    destruct (_backend_files st !! mozpath_normpath _) eqn:Hk; simpl; [done|].
    by rewrite Hk.
  - intros r' o' s'. unfold _get_backend_file at 1 2.
    destruct (_backend_files st' !! mozpath_normpath _) eqn:Hk; simpl.
    + by intros ->.
    + intros Hk'. rewrite Hk' in Hk. destruct Hsome as [b Hb]. congruence.
Qed.
End rule_files.

Lemma manifest_add_all_grows adds m t s :
  manifest_lookup m t = Some s →
  ∃ s', manifest_lookup (manifest_add_all adds m) t = Some s' ∧ s ⊆ s'.
Proof.
  revert m s. induction adds as [|[k e] adds IH]; intros m s Hs; simpl.
  - by exists s.
  - destruct (manifest_add_grows k e m t s Hs) as (s1 & Hs1 & Hsub1).
    destruct (IH _ _ Hs1) as (s2 & Hs2 & Hsub2).
    exists s2. split; [done | by etrans].
Qed.

Lemma manifest_add_all_elem adds m k e :
  (k, e) ∈ adds →
  ∃ s, manifest_lookup (manifest_add_all adds m) k = Some s ∧ e ∈ s.
Proof.
  revert m. induction adds as [|[k0 e0] adds IH]; intros m Hin.
  - by apply elem_of_nil in Hin.
  - apply elem_of_cons in Hin as [[= <- <-]|Hin]; [|by apply IH].
    simpl.
    destruct (manifest_add_all_grows adds (manifest_add k e m) k
                (default ∅ (manifest_lookup m k) ∪ {[e]}))
      as (s & Hs & Hsub).
    { by rewrite manifest_lookup_add, decide_True. }
    exists s. split; [done|]. set_solver.
Qed.

Section manifest_lines.
Context `{Collaborators}.

End manifest_lines.

Section installs_of_generated.
Context `{Collaborators}.

Lemma rules_of_lookup st k b :
  _backend_files st !! k = Some b → rules_of st k = rules b.
Proof. intros Hb. unfold rules_of. by rewrite Hb. Qed.

(** X16.  A file of the object directory is installed by a rule of the
    directory that generates it, not of the install target: one [!tup_ln]
    rule is appended to the rule file of [f.context.relobjdir], from the
    full path of the file to its place below [$(MOZ_OBJ_ROOT)], with the
    includes group when that place is a header or [.cfg] file and with no
    group otherwise; the rules of every other directory stay. *)
Theorem generated_files_are_installed_by_their_directory target path bf f st :
  p_class f = data.ObjDirPath →
  is_artifact_build (environment st)
  && existsb (mozpath_match (target_basename f)) _compile_env_gen_files
  = false →
  str_in (context_relobjdir f) ["layout/style/test"; "toolkit/library"]
  = false →
  let output :=
    mozpath_join (mozpath_join (mozpath_join "$(MOZ_OBJ_ROOT)" target) path)
      (target_basename f) in
  let k := (_get_backend_file (context_relobjdir f) None None st).1 in
  output ≠ "" →
  ∃ st' r,
    install_file target path bf f st = Ok st'
    ∧ rules_of st' k = rules_of st k ++ [r]
    ∧ r_cmd r = ["!tup_ln"]
    ∧ r_inputs r = [full_path f]
    ∧ r_outputs r
      = (if header_like output then [output; _includes_group] else [output])
    ∧ ∀ k', k' ≠ k → rules_of st' k' = rules_of st k'.
Proof.
  intros Hclass Hart Hdir output k Hout. unfold install_file.
  rewrite Hclass, Hart, Hdir. simpl.
  destruct (get_backend_file_spec (context_relobjdir f) None None st)
    as ([b1 Hb1] & _ & Hother & Hnew & _).
  pose proof (rules_of_get_backend_file (context_relobjdir f) None None st)
    as Hrules.
  fold k in Hb1, Hother, Hnew.
  destruct (_get_backend_file (context_relobjdir f) None None st)
    as [k0 st1] eqn:Hg.
  simpl in *. subst k. fold output.
  unfold symlink_rule.
  assert (truthy (Some output) = true) as ->
    by (simpl; by apply negb_true_iff, String.eqb_neq).
  destruct (rule_emits ["!tup_ln"] (Some [full_path f]) None
              (Some [default "" (Some output)]) None None None false b1)
    as (r & Hr & Hcmd & Hin & _ & Houts & _).
  eexists _, r. split; [reflexivity|].
  split; [|split; [done|split; [done|split]]].
  - rewrite (rules_of_lookup _ k0 _ (lookup_on_backend_file_eq k0 _ st1 b1 Hb1)).
    rewrite Hr. f_equal. rewrite <- (Hrules k0). symmetry.
    by apply rules_of_lookup.
  - rewrite Houts. unfold emitted_outputs. simpl. rewrite orb_false_r.
    by destruct (header_like output).
  - intros k' Hne. rewrite <- (Hrules k'). unfold rules_of.
    by rewrite lookup_on_backend_file, decide_False.
Qed.

(** X17.  In an artifact build the files of the compile environment are
    left out: a generated file with an output that matches one of
    [_compile_env_gen_files] is refused by [consume_object] without a rule,
    and a file of the object directory whose name matches one is not
    installed. *)
Theorem artifact_builds_skip_compile_environment_files st :
  is_artifact_build (environment st) = true →
  (∀ c g o p,
     str_in (relativedir c) skipped_relativedirs = false →
     CommonBackend_consume_object (GeneratedFile c g) = false →
     o ∈ outputs g → p ∈ _compile_env_gen_files → mozpath_match o p = true →
     ∃ st', consume_object (GeneratedFile c g) st = Ok (false, st')
            ∧ ∀ k, rules_of st' k = rules_of st k)
  ∧ (∀ target path bf f p,
       p_class f = data.ObjDirPath →
       p ∈ _compile_env_gen_files →
       mozpath_match (target_basename f) p = true →
       install_file target path bf f st = Ok st).
Proof.
  intros Hart. split.
  - intros c g o p Hskip Hcb Ho Hp Hmatch.
    unfold consume_object. simpl. rewrite Hskip, Hcb.
    unfold _get_backend_file_for.
    pose proof (rules_of_get_backend_file
                  (mozpath_relpath (obj_objdir c) (topobjdir (environment st)))
                  (Some (obj_objdir c)) (Some (obj_srcdir c)) st) as Hrules.
    destruct (get_backend_file_spec
                (mozpath_relpath (obj_objdir c) (topobjdir (environment st)))
                (Some (obj_objdir c)) (Some (obj_srcdir c)) st)
      as (_ & _ & _ & _ & Henv & _).
    destruct (_get_backend_file _ _ _ st) as [k st1]. simpl in *.
    rewrite Henv, Hart.
    match goal with
    | |- context [existsb ?F (outputs g)] =>
        assert (existsb F (outputs g) = true) as ->
    end.
    { apply existsb_exists. exists o. split; [by apply list_elem_of_In|].
      rewrite !orb_true_iff. do 2 right.
      apply existsb_exists. exists p. split; [|done].
      by apply list_elem_of_In. }
    by eexists.
  - intros target path bf f p Hclass Hp Hmatch. unfold install_file.
    rewrite Hclass, Hart.
    assert (existsb (mozpath_match (target_basename f)) _compile_env_gen_files
            = true) as ->; [|done].
    apply existsb_exists. exists p. split; [by apply list_elem_of_In | done].
Qed.
End installs_of_generated.

(** ** The hooks *)

Lemma compare_Lt_le s1 s2 : String.compare s1 s2 = Lt → String.le s1 s2.
Proof. intros Hc. unfold String.le, String.leb. by rewrite Hc. Qed.

Lemma compare_le_cases s1 s2 :
  String.le s1 s2 → String.compare s1 s2 = Lt ∨ s1 = s2.
Proof.
  unfold String.le, String.leb.
  destruct (String.compare s1 s2) eqn:Hc; [|by left|done].
  intros _. right. by apply String.compare_eq_iff.
Qed.

Lemma compare_refl s : String.compare s s = Eq.
Proof.
  induction s as [|a s IH]; simpl; [done|].
  unfold Ascii.compare. by rewrite N.compare_refl.
Qed.

Lemma compare_Lt_trans s1 s2 s3 :
  String.compare s1 s2 = Lt → String.compare s2 s3 = Lt →
  String.compare s1 s3 = Lt.
Proof.
  intros H12 H23.
  destruct (compare_le_cases s1 s3) as [?| ->]; [|done|].
  - etrans; by apply compare_Lt_le.
  - rewrite String.compare_antisym, H23 in H12. done.
Qed.

Lemma list_leb_refl l : list_leb l l = true.
Proof. induction l as [|x l IH]; [done|]. simpl. by rewrite compare_refl. Qed.

Lemma list_leb_total l1 l2 : list_leb l1 l2 = true ∨ list_leb l2 l1 = true.
Proof.
  revert l2. induction l1 as [|x l1 IH]; intros [|y l2]; simpl; auto.
  rewrite (String.compare_antisym y x).
  destruct (String.compare x y); simpl; auto.
Qed.

Lemma list_leb_trans l1 l2 l3 :
  list_leb l1 l2 = true → list_leb l2 l3 = true → list_leb l1 l3 = true.
Proof.
  revert l2 l3. induction l1 as [|x l1 IH]; intros [|y l2] [|z l3]; simpl;
    try done.
  destruct (String.compare x y) eqn:Hxy; [|
    |done].
  - apply String.compare_eq_iff in Hxy as ->.
    destruct (String.compare y z); [apply IH|done..].
  - destruct (String.compare y z) eqn:Hyz; [| |done].
    + apply String.compare_eq_iff in Hyz as <-. by rewrite Hxy.
    + by rewrite (compare_Lt_trans x y z).
Qed.

Global Instance pair_le_total : Total pair_le.
Proof.
  intros [a1 a2] [b1 b2]. unfold pair_le. simpl.
  rewrite (String.compare_antisym b1 a1).
  destruct (String.compare a1 b1); simpl; auto.
  destruct (list_leb_total a2 b2) as [->| ->]; simpl; auto.
Qed.

Global Instance pair_le_trans : Transitive pair_le.
Proof.
  intros [a1 a2] [b1 b2] [c1 c2]. unfold pair_le. simpl.
  destruct (String.compare a1 b1) eqn:Hab; [| |done].
  - apply String.compare_eq_iff in Hab as ->.
    destruct (String.compare b1 c1); [|done..].
    intros ?%Is_true_true ?%Is_true_true.
    by apply Is_true_true, (list_leb_trans a2 b2 c2).
  - destruct (String.compare b1 c1) eqn:Hbc; [| |done].
    + apply String.compare_eq_iff in Hbc as <-. by rewrite Hab.
    + by rewrite (compare_Lt_trans a1 b1 c1).
Qed.

Lemma sorted_pairs_spec l :
  sorted_pairs l ≡ₚ l ∧ StronglySorted pair_le (sorted_pairs l).
Proof.
  split; [apply merge_sort_Permutation|].
  apply StronglySorted_merge_sort; apply _.
Qed.

Lemma header_like_xpt s : header_like (s +:+ ".xpt") = false.
Proof.
  unfold header_like.
  rewrite (py_last_app 2 s ".xpt"), (py_last_app 4 s ".xpt") by (simpl; lia).
  reflexivity.
Qed.

Lemma header_like_h s : header_like (s +:+ ".h") = true.
Proof. apply header_like_spec. left. by exists s. Qed.

Section hook_loops.
Context `{Collaborators}.

Lemma rules_loop {A} k (g : A → BackendTupfile → BackendTupfile)
    (spec : A → rule_record → Prop) l st b :
  (∀ x b, ∃ r, rules (g x b) = rules b ++ [r] ∧ spec x r) →
  _backend_files st !! k = Some b →
  let st' := foldl (fun st x => on_backend_file k (g x) st) st l in
  ∃ rs b',
    _backend_files st' !! k = Some b'
    ∧ rules b' = rules b ++ rs
    ∧ Forall2 spec l rs
    ∧ frame st st'
    ∧ ∀ k', k' ≠ k → _backend_files st' !! k' = _backend_files st !! k'.
Proof.
  intros Hg. revert st b. induction l as [|x l IH]; intros st b Hb; simpl.
  - exists [], b. rewrite app_nil_r. repeat split; done.
  - destruct (Hg x b) as (r & Hr & Hspec).
    destruct (IH (on_backend_file k (g x) st) (g x b)
                (lookup_on_backend_file_eq k _ st b Hb))
      as (rs & b' & Hb' & Hrs & Hall & Hfr & Hother).
    exists (r :: rs), b'. split; [done|].
    split; [by rewrite Hrs, Hr, <- app_assoc|].
    split; [by constructor|]. split.
    + etrans; [apply frame_on_backend_file | exact Hfr].
    + intros k' Hne. rewrite Hother by done.
      by rewrite lookup_on_backend_file, decide_False.
Qed.

End hook_loops.

Section hook_rules.
Context `{Collaborators}.

(** X18.  [_handle_ipdl_sources] appends to the rule file of the IPDL
    directory one compile rule for each pair of the unified mapping, in the
    sorted order of the pairs, and no other rule (the rule that runs
    [ipdl.py] is commented out); commands the database lacks are counted
    under [.cpp] and under [NoneType], the class name of the object [None]
    it passes. *)
Theorem ipdl_sources_are_compiled_for_None ipdl_dir sorted_ipdl_sources
    mapping st key :
  let k := (_get_backend_file ipdl_dir None None st).1 in
  let st1 := (_get_backend_file ipdl_dir None None st).2 in
  let st' := _handle_ipdl_sources ipdl_dir sorted_ipdl_sources mapping st in
  let command p :=
    lookup_command (_commands_db st) p.1 (objdir (backend_file st1 k)) p.2 in
  let n := length (filter (fun p => missing (command p) = true) mapping) in
  sorted_pairs mapping ≡ₚ mapping
  ∧ StronglySorted pair_le (sorted_pairs mapping)
  ∧ (∃ rs,
       rules_of st' k = rules_of st k ++ rs
       ∧ Forall2
           (fun p r =>
              r_inputs r = [p.1]
              ∧ r_outputs r = ["%B.o"; _objects_group]
              ∧ r_extra_inputs r
                = Some ([_includes_group; _installed_files] ++ p.2)
              ∧ r_cmd r = (if missing (command p) then ["touch"; "%o"]
                           else or_nil (command p)))
           (sorted_pairs mapping) rs)
  ∧ default 0 (_missing_commands st' !! key)
    = default 0 (_missing_commands st !! key)
      + (if decide (key = ".cpp") then n else 0)
      + (if decide (key = "NoneType") then n else 0).
Proof.
  intros k st1 st' command n.
  destruct (sorted_pairs_spec mapping) as [Hperm Hsorted].
  split; [done|]. split; [done|].
  destruct (get_backend_file_spec ipdl_dir None None st)
    as (Hsome & _ & _ & _ & _ & _ & Hmiss & Hdb & _).
  fold k st1 in Hsome, Hmiss, Hdb.
  apply lookup_backend_file in Hsome.
  destruct (write_sources_pairs_loop k "NoneType" ".cpp"
              (sorted_pairs mapping) st1 _ Hsome)
    as (rs & Hrs & Hsome' & Hall & Hcount).
  assert (st' = foldl (fun st '(f, unified_inputs) =>
                         _write_sources k "NoneType" f ".cpp" unified_inputs st)
                  st1 (sorted_pairs mapping)) as Hst'.
  { subst st' k st1. unfold _handle_ipdl_sources.
    by destruct (_get_backend_file ipdl_dir None None st). }
  rewrite <- Hst' in Hrs, Hsome', Hcount. rewrite Hdb in Hall, Hcount.
  split.
  - exists rs. split; [|exact Hall].
    rewrite (rules_of_lookup _ _ _ (lookup_backend_file _ _ Hsome')), Hrs.
    f_equal. rewrite <- (rules_of_lookup _ _ _ Hsome).
    apply rules_of_get_backend_file.
  - rewrite Hcount, Hmiss. subst n.
    set (P := fun p : string * list string => missing _ = true).
    assert (length (filter P (sorted_pairs mapping))
            = length (filter P mapping)) as ->; [|done].
    by apply Permutation_length, filter_Permutation.
Qed.

Lemma preprocess_emits bf input_file destdir st b :
  _backend_files st !! bf = Some b →
  ∃ r b',
    _backend_files (_preprocess bf input_file destdir st) !! bf = Some b'
    ∧ rules b' = rules b ++ [r]
    ∧ r_inputs r = [input_file]
    ∧ shell_exported b' = shell_exported b
    ∧ (∀ k, k ≠ bf →
         _backend_files (_preprocess bf input_file destdir st) !! k
         = _backend_files st !! k).
Proof.
  intros Hb. unfold _preprocess.
  match goal with
  | |- context [on_backend_file ?k (rule ?c ?i ?ei ?o ?dd ?eo ?gr ?u) ?s] =>
      destruct (rule_emits c i ei o dd eo gr u b) as (r & Hr & _ & Hin & _);
      exists r, (rule c i ei o dd eo gr u b)
  end.
  split; [by apply lookup_on_backend_file_eq|]. split; [done|].
  split; [done|]. split; [apply rule_shell_exported|]. intros k Hne.
  by rewrite lookup_on_backend_file, decide_False.
Qed.

Lemma preprocess_loop bf destdir l st b :
  _backend_files st !! bf = Some b →
  let st' := foldl (fun st source => _preprocess bf source destdir st) st l in
  ∃ rs b',
    _backend_files st' !! bf = Some b'
    ∧ rules b' = rules b ++ rs
    ∧ Forall2 (fun source r => r_inputs r = [source]) l rs
    ∧ shell_exported b' = shell_exported b
    ∧ environment st' = environment st.
Proof.
  revert st b. induction l as [|x l IH]; intros st b Hb; simpl.
  - exists [], b. rewrite app_nil_r. repeat split; done.
  - destruct (preprocess_emits bf x destdir st b Hb)
      as (r & b1 & Hb1 & Hr & Hin & Hsh & _).
    destruct (IH _ _ Hb1) as (rs & b' & Hb' & Hrs & Hall & Hsh' & Henv).
    exists (r :: rs), b'. split; [done|].
    split; [by rewrite Hrs, Hr, <- app_assoc|].
    split; [by constructor|]. split; [congruence|]. by rewrite Henv.
Qed.

(** X19.  [_handle_webidl_build] appends to the rule file of
    [dom/bindings] one preprocessor rule for each preprocessed source, in
    sorted order, and then the code generation rule: inputs the non-static
    basenames, command the [webidl] action on [topsrcdir/dom/bindings],
    outputs the four files of the action followed by the expected build
    output files, with the includes group when one of these is a header;
    the rule file exports the shell. *)
Theorem webidl_codegen_rule_comes_last all_preprocessed_sources
    all_non_static_basenames expected_build_output_files st :
  let k := (_get_backend_file "dom/bindings" None None st).1 in
  let st' :=
    _handle_webidl_build all_preprocessed_sources all_non_static_basenames
      expected_build_output_files st in
  ∃ pre r,
    rules_of st' k = rules_of st k ++ pre ++ [r]
    ∧ Forall2 (fun source p => r_inputs p = [source])
        (sorted all_preprocessed_sources) pre
    ∧ r_inputs r = all_non_static_basenames
    ∧ r_cmd r
      = ["$(PYTHON)"; "-m"; "mozbuild.action.webidl";
         mozpath_join (mozpath_join (topsrcdir (environment st)) "dom")
           "bindings"]
    ∧ r_outputs r
      = ["_cache/webidlyacc.py"; "codegen.json"; "codegen.pp"; "parser.out"]
        ++ expected_build_output_files
        ++ (if existsb header_like expected_build_output_files
            then [_includes_group] else [])
    ∧ shell_exported (backend_file st' k) = true.
Proof.
  intros k st'. subst st'. unfold _handle_webidl_build.
  destruct (get_backend_file_spec "dom/bindings" None None st)
    as ([b Hb] & _ & _ & _ & Henv & _).
  pose proof (rules_of_get_backend_file "dom/bindings" None None st k) as Hrules.
  fold k in Hb.
  destruct (_get_backend_file "dom/bindings" None None st) as [k0 st1].
  simpl in *. subst k.
  pose proof (lookup_on_backend_file_eq k0 export_shell st1 b Hb) as Hb1.
  destruct (preprocess_loop k0 None (sorted all_preprocessed_sources) _ _ Hb1)
    as (pre & b2 & Hb2 & Hpre & Hall & Hsh2 & Henv2).
  change (environment (on_backend_file k0 export_shell st1))
    with (environment st1) in Henv2.
  match goal with
  | |- context [on_backend_file ?k (rule ?c ?i ?ei ?o ?dd ?eo ?gr ?u) ?s] =>
      destruct (rule_emits c i ei o dd eo gr u b2)
        as (r & Hr & Hcmd & Hin & _ & Hout & _);
      pose proof (rule_shell_exported c i ei o dd eo gr u b2) as Hsh;
      pose proof (lookup_on_backend_file_eq k (rule c i ei o dd eo gr u) s b2
                    Hb2) as Hb3
  end.
  exists pre, r.
  rewrite (rules_of_lookup _ _ _ Hb3), (backend_file_lookup _ _ _ Hb3).
  rewrite Hr, Hpre, rules_export_shell, <- Hrules, (rules_of_lookup _ _ _ Hb).
  split; [by rewrite <- app_assoc|]. split; [done|]. split; [done|].
  split; [by rewrite Hcmd, Henv2, Henv|]. split.
  - rewrite Hout. unfold emitted_outputs. simpl.
    by destruct (existsb header_like expected_build_output_files).
  - by rewrite Hsh, Hsh2, export_shell_exported.
Qed.
End hook_rules.

Lemma string_app_assoc (a b c : string) : (a +:+ b) +:+ c = a +:+ (b +:+ c).
Proof.
  induction a as [|x a IH]; [done|].
  change ((String x a +:+ b) +:+ c) with (String x ((a +:+ b) +:+ c)).
  by rewrite IH.
Qed.

Lemma rule_emits_record cmd inputs extra_inputs outputs display extra_outputs
    output_group check_unchanged bf :
  rules (rule cmd inputs extra_inputs outputs display extra_outputs
           output_group check_unchanged bf)
  = rules bf
    ++ [{| r_inputs := or_nil inputs;
           r_extra_inputs := extra_inputs;
           r_display :=
             (let d := if truthy display then default "" display else "" in
              let flags := if check_unchanged then "o" else "" in
              if truthy (Some d) then flags +:+ " " +:+ d else flags);
           r_cmd := cmd;
           r_outputs := emitted_outputs (or_nil outputs) output_group;
           r_extra_outputs := extra_outputs |}].
Proof.
  unfold rule. rewrite rules_write_entry_rule, rules_include_rules.
  do 2 f_equal. unfold emitted_outputs.
  destruct (existsb header_like (or_nil outputs)); simpl; [done|].
  destruct (truthy output_group); [done|]. by rewrite app_nil_r.
Qed.

Section idl_rules.
Context `{Collaborators}.

Lemma steps_loop {A} k (step : TupOnly → A → TupOnly)
    (g : A → BackendTupfile → BackendTupfile)
    (spec : A → rule_record → Prop) l st b :
  (∀ st x, step st x = on_backend_file k (g x) st) →
  (∀ x b, ∃ r, rules (g x b) = rules b ++ [r] ∧ spec x r) →
  _backend_files st !! k = Some b →
  let st' := foldl step st l in
  ∃ rs b',
    _backend_files st' !! k = Some b'
    ∧ rules b' = rules b ++ rs
    ∧ Forall2 spec l rs
    ∧ frame st st'
    ∧ ∀ k', k' ≠ k → _backend_files st' !! k' = _backend_files st !! k'.
Proof.
  intros Hstep Hg Hb.
  assert (foldl step st l = foldl (fun st x => on_backend_file k (g x) st) st l)
    as ->; [|by apply rules_loop].
  clear Hb. revert st. induction l as [|x l IH]; intros st; simpl; [done|].
  by rewrite Hstep, IH.
Qed.

(** X20.  Outside artifact builds [_handle_idl_manager] appends one
    [!tup_ln] rule for each idl source to the rule file of [dist/idl], and
    one rule for each module, in sorted order, to the rule file of
    [xpcom/xpidl]: display [XPIDL module], the command of
    [xpidl-process.py] on the sorted idls of the module, outputs the [.xpt]
    file of the module and one header for each idl, with the includes group
    when the module has an idl. *)
Theorem idl_modules_get_one_rule_each manager st :
  is_artifact_build (environment st) = false →
  let k1 :=
    mozpath_normpath (mozpath_join (topobjdir (environment st)) "dist/idl") in
  let k2 :=
    mozpath_normpath (mozpath_join (topobjdir (environment st)) "xpcom/xpidl") in
  k1 ≠ k2 →
  let st' := _handle_idl_manager manager st in
  ∃ links rs,
    rules_of st' k1 = rules_of st k1 ++ links
    ∧ Forall2
        (fun source r =>
           r_cmd r = ["!tup_ln"] ∧ r_inputs r = [source]
           ∧ r_outputs r
             = [mozpath_basename source;
                if header_like (mozpath_basename source) then _includes_group
                else _installed_files])
        (idls manager) links
    ∧ rules_of st' k2 = rules_of st k2 ++ rs
    ∧ Forall2 (xpidl_rule manager)
        (sorted (map_to_list (modules manager)).*1) rs.
Proof.
  intros Hart k1 k2 Hne st'. subst st'. unfold _handle_idl_manager.
  rewrite Hart.
  (* dist/idl *)
  destruct (get_backend_file_spec "dist/idl" None None st)
    as ([b1 Hb1] & _ & _ & _ & Henv1 & _).
  pose proof (rules_of_get_backend_file "dist/idl" None None st) as Hrules1.
  pose proof (get_backend_file_key "dist/idl" st) as Hk1. fold k1 in Hk1.
  destruct (_get_backend_file "dist/idl" None None st) as [k1' st1].
  simpl in Hb1, Henv1, Hrules1, Hk1. subst k1'.
  destruct (rules_loop k1
              (fun source => symlink_rule source None (Some _installed_files))
              (fun source r =>
                 r_cmd r = ["!tup_ln"] ∧ r_inputs r = [source]
                 ∧ r_outputs r
                   = [mozpath_basename source;
                      if header_like (mozpath_basename source)
                      then _includes_group else _installed_files])
              (idls manager) st1 b1)
    as (links & b1' & Hb1' & Hlinks & Hall1 & Hfr1 & Hother1); [|done|].
  { intros source b. unfold symlink_rule. simpl.
    destruct (rule_emits ["!tup_ln"] (Some [source]) None
                (Some [mozpath_basename source]) None None
                (Some _installed_files) false b)
      as (r & Hr & Hcmd & Hin & _ & Hout & _).
    exists r. split; [done|]. split; [done|]. split; [done|].
    rewrite Hout. unfold emitted_outputs. simpl. rewrite orb_false_r.
    by destruct (header_like _). }
  set (st2 := foldl _ st1 (idls manager)) in *.
  (* xpcom/xpidl *)
  assert (environment st2 = environment st) as Henv2
    by (destruct Hfr1 as (_ & -> & _); done).
  destruct (get_backend_file_spec "xpcom/xpidl" None None st2)
    as ([b3 Hb3] & _ & Hother3 & _).
  pose proof (rules_of_get_backend_file "xpcom/xpidl" None None st2) as Hrules3.
  pose proof (get_backend_file_key "xpcom/xpidl" st2) as Hk2.
  rewrite Henv2 in Hk2. fold k2 in Hk2.
  destruct (_get_backend_file "xpcom/xpidl" None None st2) as [k2' st3].
  simpl in Hb3, Hother3, Hrules3, Hk2. subst k2'.
  pose proof (lookup_on_backend_file_eq k2 export_shell st3 b3 Hb3) as Hb4.
  match goal with
  | |- context [foldl ?step (on_backend_file k2 export_shell st3) ?l] =>
      destruct (steps_loop k2 step
                  (fun module =>
                     let '(dest, idls) := modules manager !!! module in
                     rule
                       (["$(PYTHON_PATH)"; "$(PLY_INCLUDE)";
                         "-I$(IDL_PARSER_DIR)"; "-I$(IDL_PARSER_CACHE_DIR)";
                         "$(topsrcdir)/python/mozbuild/mozbuild/action/xpidl-process.py";
                         "--cache-dir"; "$(IDL_PARSER_CACHE_DIR)"; "$(DIST)/idl";
                         "$(DIST)/include";
                         "$(MOZ_OBJ_ROOT)/" +:+ dest +:+ "/components"; module]
                        ++ sorted idls)
                       (Some ["$(MOZ_OBJ_ROOT)/xpcom/idl-parser/xpidl/xpidllex.py";
                              "$(MOZ_OBJ_ROOT)/xpcom/idl-parser/xpidl/xpidlyacc.py";
                              _installed_files])
                       None
                       (Some (["$(MOZ_OBJ_ROOT)/" +:+ dest +:+ "/components/"
                               +:+ module +:+ ".xpt"]
                              ++ ((fun f => "$(MOZ_OBJ_ROOT)/dist/include/"
                                            +:+ f +:+ ".h") <$> sorted idls)))
                       (Some ("XPIDL " +:+ module)) None None true)
                  (xpidl_rule manager) l (on_backend_file k2 export_shell st3)
                  (export_shell b3))
        as (rs & b5 & Hb5 & Hrs & Hall2 & Hfr2 & Hother2);
        [| |exact Hb4|]
  end.
  { intros s module. by destruct (modules manager !!! module). }
  { intros module b. unfold xpidl_rule.
    destruct (modules manager !!! module) as [dest idls0].
    rewrite rule_emits_record. eexists. split; [reflexivity|]. simpl.
    split; [done|]. split; [done|].
    - unfold emitted_outputs. simpl.
      rewrite <- !string_app_assoc, header_like_xpt. simpl.
      assert (existsb header_like
                ((fun f => "$(MOZ_OBJ_ROOT)/dist/include/" +:+ f +:+ ".h")
                   <$> sorted idls0)
              = match idls0 with [] => false | _ => true end) as ->.
      { pose proof (sorted_Permutation_self idls0) as Hp.
        destruct (sorted idls0) as [|f fs].
        - apply Permutation_nil_l in Hp. by subst.
        - rewrite fmap_cons. cbn [existsb].
          rewrite <- string_app_assoc, header_like_h. simpl.
          destruct idls0; [by apply Permutation_nil_r in Hp | done]. }
      by destruct idls0. }
  exists links, rs.
  match goal with
  | |- context [set_manifest_entries ?m ?s] =>
      change (rules_of (set_manifest_entries m s)) with (rules_of s)
  end.
  split; [|split; [done|split; [|done]]].
  - unfold rules_of at 1. rewrite Hother2 by done.
    rewrite lookup_on_backend_file, decide_False by done.
    rewrite Hother3 by done. rewrite Hb1'. simpl. rewrite Hlinks. f_equal.
    rewrite <- (Hrules1 k1). symmetry. by apply rules_of_lookup.
  - rewrite (rules_of_lookup _ _ _ Hb5), Hrs, rules_export_shell. f_equal.
    rewrite <- (rules_of_lookup _ _ _ Hb3), (Hrules3 k2), <- (Hrules1 k2).
    unfold rules_of. by rewrite Hother1.
Qed.
End idl_rules.

Section Idl_manifests.
Context `{Collaborators}.

Lemma handle_idl_manager_entries manager st :
  is_artifact_build (environment st) = false →
  _manifest_entries (_handle_idl_manager manager st)
  = manifest_add_all (idl_manifest_adds manager) (_manifest_entries st).
Proof.
  intros Hart. unfold _handle_idl_manager. rewrite Hart.
  pose proof (frame_get_backend_file "dist/idl" None None st) as Hf1.
  destruct (_get_backend_file "dist/idl" None None st) as [k1 st1].
  simpl in Hf1.
  match goal with
  | |- context [_get_backend_file "xpcom/xpidl" None None ?s] =>
      assert (frame st1 s) as Hf2
        by (apply foldl_frame; intros; apply frame_on_backend_file);
      pose proof (frame_get_backend_file "xpcom/xpidl" None None s) as Hf3;
      destruct (_get_backend_file "xpcom/xpidl" None None s) as [k2 st3]
  end.
  simpl in Hf3.
  match goal with
  | |- context [foldl ?step (on_backend_file k2 export_shell st3) ?l] =>
      assert (frame st3 (foldl step (on_backend_file k2 export_shell st3) l))
        as Hf4
  end.
  { etrans; [apply (frame_on_backend_file k2 export_shell)|].
    apply foldl_frame. intros s module.
    destruct (modules manager !!! module). apply frame_on_backend_file. }
  simpl.
  assert (frame st (foldl
                      (fun st module =>
                         let '(dest, idls) := modules manager !!! module in _)
                      (on_backend_file k2 export_shell st3) _)) as (-> & _)
    by (etrans; [exact Hf1|]; etrans; [exact Hf2|]; by etrans).
  unfold idl_manifest_adds, manifest_add_all. rewrite foldl_app.
  rewrite foldl_fmap. f_equal.
  generalize (_manifest_entries st) as m.
  induction (interface_manifests manager) as [|[mf xpts] l IH]; intros m;
    [done|].
  simpl. rewrite foldl_app, foldl_fmap. apply IH.
Qed.

(** X21.  In an artifact build [_handle_idl_manager] does nothing.
    Otherwise every chrome manifest of the manager gets the line
    [manifest components/interfaces.manifest], every interface manifest
    gets a line [interfaces xpt] for each of its entries, and no manifest
    loses a line. *)
Theorem idl_manager_registers_interface_manifests manager st :
  (is_artifact_build (environment st) = true →
   _handle_idl_manager manager st = st)
  ∧ (is_artifact_build (environment st) = false →
     let entries := _manifest_entries (_handle_idl_manager manager st) in
     (∀ c, c ∈ chrome_manifests manager →
        ∃ lines, manifest_lookup entries c = Some lines
                 ∧ "manifest components/interfaces.manifest" ∈ lines)
     ∧ (∀ manifest xpts xpt,
          (manifest, xpts) ∈ interface_manifests manager → xpt ∈ xpts →
          ∃ lines, manifest_lookup entries manifest = Some lines
                   ∧ "interfaces " +:+ xpt ∈ lines)
     ∧ (∀ target lines,
          manifest_lookup (_manifest_entries st) target = Some lines →
          ∃ lines', manifest_lookup entries target = Some lines'
                    ∧ lines ⊆ lines')).
Proof.
  split.
  - intros Hart. unfold _handle_idl_manager. by rewrite Hart.
  - intros Hart entries. subst entries.
    rewrite (handle_idl_manager_entries manager st Hart).
    split; [|split].
    + intros c Hc. apply manifest_add_all_elem.
      unfold idl_manifest_adds. apply elem_of_app. right.
      apply list_elem_of_fmap. by exists c.
    + intros mf xpts xpt Hmf Hxpt. apply manifest_add_all_elem.
      unfold idl_manifest_adds. apply elem_of_app. left.
      apply list_elem_of_bind. exists (mf, xpts). split; [|done].
      apply list_elem_of_fmap. by exists xpt.
    + intros t lines. apply manifest_add_all_grows.
Qed.
End Idl_manifests.

(** ** The whole of [consume_finished] *)

Section Full_run.
Context `{Collaborators}.

Lemma consume_finished_calls calls st :
  consume_finished calls st
  = consume_finished [] (CommonBackend_consume_finished calls st).
Proof. reflexivity. Qed.

Lemma idl_entries_fold manager m :
  foldl (fun m c => manifest_add c "manifest components/interfaces.manifest" m)
    (foldl (fun m '(manifest, entries) =>
              foldl (fun m xpt =>
                       manifest_add manifest ("interfaces " +:+ xpt) m)
                    m entries)
           m (interface_manifests manager))
    (chrome_manifests manager)
  = manifest_add_all (idl_manifest_adds manager) m.
Proof.
  unfold idl_manifest_adds, manifest_add_all. rewrite foldl_app, foldl_fmap.
  f_equal. revert m.
  induction (interface_manifests manager) as [|[mf xpts] l IH]; intros m;
    [done|].
  simpl. rewrite foldl_app, foldl_fmap. apply IH.
Qed.

(** The IDL hook is a step that keeps the manifests and the written files,
    followed by the additions to the manifests. *)
Lemma handle_idl_manager_shape manager st :
  is_artifact_build (environment st) = false →
  ∃ st4,
    advances st st4 ∧ frame st st4
    ∧ _handle_idl_manager manager st
      = set_manifest_entries
          (manifest_add_all (idl_manifest_adds manager) (_manifest_entries st4))
          st4.
Proof.
  intros Hart. unfold _handle_idl_manager. rewrite Hart.
  pose proof (advances_get_backend_file "dist/idl" None None st) as Ha1.
  pose proof (frame_get_backend_file "dist/idl" None None st) as Hf1.
  destruct (_get_backend_file "dist/idl" None None st) as [k1 st1].
  simpl in Ha1, Hf1.
  match goal with
  | |- context [_get_backend_file "xpcom/xpidl" None None ?s] =>
      assert (advances st1 s) as Ha2
        by (apply (foldl_preorder advances); intros;
            apply advances_on_backend_file; intros;
            apply extends_symlink_rule);
      assert (frame st1 s) as Hf2
        by (apply foldl_frame; intros; apply frame_on_backend_file);
      pose proof (advances_get_backend_file "xpcom/xpidl" None None s) as Ha3;
      pose proof (frame_get_backend_file "xpcom/xpidl" None None s) as Hf3;
      destruct (_get_backend_file "xpcom/xpidl" None None s) as [k2 st3]
  end.
  simpl in Ha3, Hf3.
  match goal with
  | |- context [foldl ?step (on_backend_file k2 export_shell st3) ?l] =>
      assert (advances st3 (foldl step (on_backend_file k2 export_shell st3) l))
        as Ha4;
      [|assert (frame st3
                  (foldl step (on_backend_file k2 export_shell st3) l))
          as Hf4;
        [|exists (foldl step (on_backend_file k2 export_shell st3) l)]]
  end.
  - etrans; [apply advances_on_backend_file; intros; apply extends_export_shell|].
    apply (foldl_preorder advances). intros s module.
    destruct (modules manager !!! module).
    apply advances_on_backend_file. intros. apply extends_rule.
  - etrans; [apply (frame_on_backend_file k2 export_shell)|].
    apply foldl_frame. intros s module.
    destruct (modules manager !!! module). apply frame_on_backend_file.
  - split; [etrans; [exact Ha1|]; etrans; [exact Ha2|]; by etrans|].
    split; [etrans; [exact Hf1|]; etrans; [exact Hf2|]; by etrans|].
    simpl. by rewrite idl_entries_fold.
Qed.

Lemma advances_handle_idl_manager manager st :
  advances st (_handle_idl_manager manager st).
Proof.
  destruct (is_artifact_build (environment st)) eqn:Hart.
  - unfold _handle_idl_manager. by rewrite Hart.
  - destruct (handle_idl_manager_shape manager st Hart)
      as (st4 & Ha & _ & ->).
    etrans; [exact Ha|]. apply advances_set_manifest_entries.
    intros t s. apply manifest_add_all_grows.
Qed.

Lemma advances_handle_ipdl_sources ipdl_dir sorted_ipdl_sources mapping st :
  advances st (_handle_ipdl_sources ipdl_dir sorted_ipdl_sources mapping st).
Proof.
  unfold _handle_ipdl_sources.
  pose proof (advances_get_backend_file ipdl_dir None None st) as Ha.
  destruct (_get_backend_file ipdl_dir None None st) as [k st1]. simpl in Ha.
  etrans; [exact Ha|]. apply (foldl_preorder advances).
  intros s [source extra_sources]. apply advances_write_sources.
Qed.

Lemma frame_handle_ipdl_sources ipdl_dir sorted_ipdl_sources mapping st :
  frame st (_handle_ipdl_sources ipdl_dir sorted_ipdl_sources mapping st).
Proof.
  unfold _handle_ipdl_sources.
  pose proof (frame_get_backend_file ipdl_dir None None st) as Hf.
  destruct (_get_backend_file ipdl_dir None None st) as [k st1]. simpl in Hf.
  etrans; [exact Hf|]. apply foldl_frame.
  intros s [source extra_sources]. apply frame_write_sources.
Qed.

Lemma advances_handle_webidl_build sources basenames expected st :
  advances st (_handle_webidl_build sources basenames expected st).
Proof.
  unfold _handle_webidl_build.
  pose proof (advances_get_backend_file "dom/bindings" None None st) as Ha.
  destruct (_get_backend_file "dom/bindings" None None st) as [k st1].
  simpl in Ha. etrans; [exact Ha|].
  etrans; [|apply advances_on_backend_file; intros; apply extends_rule].
  etrans; [apply advances_on_backend_file; intros; apply extends_export_shell|].
  apply (foldl_preorder advances). intros s source. apply advances_preprocess.
Qed.

Lemma frame_handle_webidl_build sources basenames expected st :
  frame st (_handle_webidl_build sources basenames expected st).
Proof.
  unfold _handle_webidl_build.
  pose proof (frame_get_backend_file "dom/bindings" None None st) as Hf.
  destruct (_get_backend_file "dom/bindings" None None st) as [k st1].
  simpl in Hf. etrans; [exact Hf|].
  etrans; [|apply frame_on_backend_file].
  etrans; [apply (frame_on_backend_file k export_shell)|].
  apply foldl_frame. intros s source. apply frame_preprocess.
Qed.

Lemma advances_call_hook st call : advances st (call_hook st call).
Proof.
  destruct call; simpl.
  - apply advances_handle_idl_manager.
  - apply advances_handle_ipdl_sources.
  - apply advances_handle_webidl_build.
Qed.

(** A hook writes no file, and adds lines to the manifests. *)
Lemma call_hook_keeps st call :
  written (call_hook st call) = written st
  ∧ ∃ adds,
      _manifest_entries (call_hook st call)
      = manifest_add_all adds (_manifest_entries st).
Proof.
  destruct call as [manager|d s m|s b e]; simpl.
  - destruct (is_artifact_build (environment st)) eqn:Hart.
    + unfold _handle_idl_manager. rewrite Hart. split; [done|]. by exists [].
    + destruct (handle_idl_manager_shape manager st Hart)
        as (st4 & _ & (Hm & _ & _ & Hw) & ->).
      split; [done|]. exists (idl_manifest_adds manager). simpl.
      by rewrite Hm.
  - destruct (frame_handle_ipdl_sources d s m st) as (Hm & _ & _ & Hw).
    split; [done|]. exists []. by rewrite Hm.
  - destruct (frame_handle_webidl_build s b e st) as (Hm & _ & _ & Hw).
    split; [done|]. exists []. by rewrite Hm.
Qed.

Lemma advances_inherited calls st :
  advances st (CommonBackend_consume_finished calls st).
Proof.
  unfold CommonBackend_consume_finished. apply (foldl_preorder advances).
  intros. apply advances_call_hook.
Qed.

Lemma inherited_keeps calls st :
  written (CommonBackend_consume_finished calls st) = written st
  ∧ ∃ adds,
      _manifest_entries (CommonBackend_consume_finished calls st)
      = manifest_add_all adds (_manifest_entries st).
Proof.
  unfold CommonBackend_consume_finished. revert st.
  induction calls as [|call calls IH]; intros st; simpl.
  - split; [done|]. by exists [].
  - destruct (IH (call_hook st call)) as (Hw & adds2 & Hm).
    destruct (call_hook_keeps st call) as (Hw1 & adds1 & Hm1).
    split; [congruence|]. exists (adds1 ++ adds2).
    rewrite Hm, Hm1. unfold manifest_add_all. by rewrite foldl_app.
Qed.

Lemma advances_whole_consume_finished calls st st' :
  consume_finished calls st = Ok st' → advances st st'.
Proof.
  rewrite consume_finished_calls. intros Hf.
  etrans; [apply (advances_inherited calls)|].
  by apply advances_consume_finished.
Qed.

(** X3.  Nothing is retracted.  Through the walk and the whole of
    [consume_finished] (the hooks the inherited method calls, the
    manifests, the postponed objects) a rule file that exists stays under
    its key and name; its rules, its sources and its text only grow at the
    end; no counter of missing commands decreases; a manifest keeps its
    lines; the walk writes no file and [consume_finished] only adds written
    files. *)
Theorem emitted_rules_are_append_only objs calls st st1 st2 :
  consume objs st = Ok st1 →
  consume_finished calls st1 = Ok st2 →
  (∀ k b, _backend_files st !! k = Some b →
     ∃ b1 b2,
       _backend_files st1 !! k = Some b1
       ∧ _backend_files st2 !! k = Some b2
       ∧ name b2 = name b
       ∧ rules b `prefix_of` rules b1 ∧ rules b1 `prefix_of` rules b2
       ∧ _sources b `prefix_of` _sources b2
       ∧ ∃ text1 text2,
           contents b1 = contents b +:+ text1
           ∧ contents b2 = contents b1 +:+ text2)
  ∧ (∀ key, default 0 (_missing_commands st !! key)
            ≤ default 0 (_missing_commands st2 !! key))
  ∧ (∀ target lines,
       manifest_lookup (_manifest_entries st) target = Some lines →
       ∃ lines', manifest_lookup (_manifest_entries st2) target = Some lines'
                 ∧ lines ⊆ lines')
  ∧ written st1 = written st
  ∧ written st `prefix_of` written st2.
Proof.
  intros Hw Hf.
  pose proof (advances_consume _ _ _ Hw) as H1.
  pose proof (advances_whole_consume_finished _ _ _ Hf) as H2.
  assert (advances st st2) as (_ & _ & _ & _ & Hm & Hx & Hwr) by (by etrans).
  split; [|split; [done|split; [done|split; [|done]]]].
  - intros k b Hk.
    destruct H1 as (_ & _ & Hf1 & _). destruct H2 as (_ & _ & Hf2 & _).
    destruct (Hf1 k b Hk) as (b1 & Hk1 & Hn1 & _ & Hname1 & Hfh1 & Hs1 & _).
    destruct (Hf2 k b1 Hk1) as (b2 & Hk2 & Hn2 & _ & Hname2 & Hfh2 & Hs2 & _).
    exists b1, b2. repeat split; try done.
    + congruence.
    + by apply rules_prefix.
    + by apply rules_prefix.
    + by etrans.
    + destruct (contents_prefix _ _ Hfh1) as [t1 Ht1].
      destruct (contents_prefix _ _ Hfh2) as [t2 Ht2]. by exists t1, t2.
  - by destruct (consume_manifest _ _ _ Hw) as (_ & _ & ?).
Qed.

(** X4.  After a walk from the initial state the objects postponed in the
    rule files are generated files with the output [application.ini.h] and
    programs, shared libraries and static libraries, and [consume_finished]
    (hooks of the inherited method, manifests, postponed objects, closing
    of the rule files) does not raise, whatever hooks are called. *)
Theorem deferred_phase_succeeds env json objs calls st :
  consume objs (_init env json) = Ok st →
  (∀ k b obj,
     _backend_files st !! k = Some b →
     obj ∈ delayed_generated_files b →
     match obj with
     | GeneratedFile _ g => "application.ini.h" ∈ outputs g
     | Link l => is_Program l || is_SharedLibrary l || is_StaticLibrary l = true
     | _ => False
     end)
  ∧ ∃ st', consume_finished calls st = Ok st'.
Proof.
  intros Hw.
  assert (delayed_ok st) as Hok.
  { eapply delayed_ok_advances; [|by eapply advances_consume].
    intros k b Hk. simpl in Hk. by rewrite lookup_empty in Hk. }
  split.
  - intros k b obj Hk Hobj.
    by apply (proj1 (Forall_forall _ _) (Hok k b Hk) obj).
  - rewrite consume_finished_calls. apply consume_finished_succeeds.
    eapply delayed_ok_advances; [exact Hok | apply advances_inherited].
Qed.

(** X5.  [consume_finished] after a walk from the initial state writes the
    manifests, in the order in which they were first added to, then every
    rule file that exists once the inherited method has called its hooks
    (those the walk created and those the hooks created), once, in the
    sorted order of the object directories and with the text it has in the
    end.  It writes nothing else up to there: a rule file the loop over the
    postponed objects creates is not written. *)
Theorem run_writes_each_rule_file_once env json objs calls st st' :
  consume objs (_init env json) = Ok st →
  consume_finished calls st = Ok st' →
  let st_h := CommonBackend_consume_finished calls st in
  written st'
  = ((fun te => (mozpath_join (topobjdir env) te.1, manifest_content te.2))
       <$> _manifest_entries st_h)
    ++ ((fun k => (mozpath_join k "Tupfile", contents (backend_file st' k)))
          <$> sorted (map_to_list (_backend_files st_h)).*1).
Proof.
  intros Hw Hf st_h.
  assert (advances (_init env json) st_h) as (Henv & _ & _ & Hnew & _).
  { etrans; [by eapply advances_consume | apply advances_inherited]. }
  assert (written st_h = []) as Hwr.
  { unfold st_h. destruct (inherited_keeps calls st) as (-> & _).
    by destruct (consume_manifest _ _ _ Hw) as (_ & _ & ->). }
  rewrite consume_finished_calls in Hf. fold st_h in Hf.
  unfold consume_finished in Hf.
  change (for_each finish
            (sorted (map_to_list (_backend_files (write_manifests st_h))).*1)
            (write_manifests st_h) = Ok st') in Hf.
  rewrite backend_files_write_manifests in Hf.
  apply finish_loop in Hf as (_ & Hwritten & _).
  - rewrite Hwritten, written_write_manifests, Hwr, Henv. simpl. f_equal.
    apply list_fmap_ext. intros i k Hk%list_elem_of_lookup_2. f_equal.
    pose proof (proj1 (Forall_forall _ _)
                  (sorted_keys_present (_backend_files st_h)) k Hk) as [b Hb].
    unfold backend_file. rewrite backend_files_write_manifests.
    rewrite lookup_total_alt, Hb. simpl.
    by destruct (Hnew k b Hb (lookup_empty _)) as (_ & ? & _).
  - apply sorted_keys_NoDup.
  - rewrite backend_files_write_manifests. apply sorted_keys_present.
Qed.

(** X2.  In every rule file of a full run, whatever hooks the inherited
    [consume_finished] calls, the line [include_rules] stands at most once,
    and no rule comes before it: either the file has no rule and no such
    line, or it has the line exactly once with no rule before it. *)
Theorem rule_files_include_rules_before_rules env json objs calls st k b :
  run env json objs calls = Ok st →
  _backend_files st !! k = Some b →
  (rules b = [] ∧ Text ("include_rules" +:+ nl) ∉ fh b)
  ∨ ∃ pre post,
      fh b = pre ++ Text ("include_rules" +:+ nl) :: post
      ∧ (∀ r, RuleLine r ∉ pre)
      ∧ (Text ("include_rules" +:+ nl) ∉ pre)
      ∧ Text ("include_rules" +:+ nl) ∉ post.
Proof.
  unfold run. destruct (consume objs (_init env json)) as [st1|e] eqn:Hw;
    [|done]. simpl. intros Hf Hb.
  assert (advances (_init env json) st) as (_ & _ & _ & Hnew & _).
  { etrans; [by eapply advances_consume
            | by eapply advances_whole_consume_finished]. }
  destruct (Hnew k b Hb (lookup_empty _)) as (_ & _ & _ & Hh).
  unfold headed in Hh. destruct (rules_included b); [by right | by left].
Qed.

(** X15.  In a full run, whatever hooks the inherited [consume_finished]
    calls, a chrome manifest entry below [dist/bin] that the walk handles
    ends in the written files: the file of its path is written with its
    line, and, when the path is not the top-level [chrome.manifest] of the
    install target, that top-level file is written with a [manifest] line
    for the path. *)
Theorem chrome_manifest_lines_are_written env json objs calls st c m :
  run env json objs calls = Ok st →
  ChromeManifestEntry c m ∈ objs →
  str_in (relativedir c) skipped_relativedirs = false →
  CommonBackend_consume_object (ChromeManifestEntry c m) = false →
  startswith (cm_install_target m) "dist/bin" = true →
  let top_level := mozpath_join (cm_install_target m) "chrome.manifest" in
  (∃ lines,
     (mozpath_join (topobjdir env) (cm_path m), manifest_content lines)
       ∈ written st
     ∧ cm_entry m ∈ lines)
  ∧ (cm_path m ≠ top_level →
     ∃ lines,
       (mozpath_join (topobjdir env) top_level, manifest_content lines)
         ∈ written st
       ∧ "manifest " +:+ mozpath_relpath (cm_path m) (cm_install_target m)
           ∈ lines).
Proof.
  unfold run. destruct (consume objs (_init env json)) as [st1|e] eqn:Hw;
    [|done]. simpl. intros Hf Hin Hskip Hcb Hbin.
  set (top_level := mozpath_join (cm_install_target m) "chrome.manifest").
  rewrite consume_finished_calls in Hf.
  set (st_h := CommonBackend_consume_finished calls st1) in *.
  destruct (consume_manifest _ _ _ Hw) as (Hm & Henv & _).
  simpl in Hm, Henv.
  destruct (inherited_keeps calls st1) as (_ & adds & Hmh).
  fold st_h in Hmh. rewrite Hm in Hmh.
  assert (environment st_h = env) as Henvh.
  { unfold st_h. destruct (advances_inherited calls st1) as (-> & _).
    exact Henv. }
  assert (NoDup (_manifest_entries st_h).*1) as Hnd
    by (rewrite Hmh; do 2 apply manifest_keys_NoDup_add_all; constructor).
  assert (∀ k e, (k, e) ∈ manifest_adds (ChromeManifestEntry c m) →
            ∃ lines, (mozpath_join (topobjdir env) k, manifest_content lines)
                       ∈ written st ∧ e ∈ lines) as Hline.
  { intros k e Hke.
    destruct (manifest_add_all_elem (objs ≫= manifest_adds) [] k e)
      as (s & Hs & He).
    { apply list_elem_of_bind. by exists (ChromeManifestEntry c m). }
    destruct (manifest_add_all_grows adds _ k s Hs) as (s' & Hs' & Hsub).
    rewrite <- Hmh in Hs'.
    apply (manifest_lookup_elem_of _ _ _ Hnd) in Hs'.
    exists s'. split; [|by apply Hsub].
    destruct (advances_after_manifests _ _ Hf)
      as (_ & _ & _ & _ & _ & _ & Hpre).
    eapply elem_of_prefix; [|exact Hpre].
    rewrite written_write_manifests, Henvh. apply elem_of_app. right.
    apply list_elem_of_fmap. by exists (k, s'). }
  assert (manifest_adds (ChromeManifestEntry c m)
          = (if negb (String.eqb (cm_path m) top_level)
             then [(top_level,
                    "manifest "
                    +:+ mozpath_relpath (cm_path m) (cm_install_target m))]
             else [])
            ++ [(cm_path m, cm_entry m)]) as Hadds.
  { unfold manifest_adds. simpl. by rewrite Hskip, Hcb, Hbin. }
  split.
  - apply Hline. rewrite Hadds. apply elem_of_app. right. by left.
  - intros Hne. apply Hline. rewrite Hadds. apply elem_of_app. left.
    destruct (String.eqb_spec (cm_path m) top_level); [done|]. by left.
Qed.
End Full_run.

(** ** The command database writer *)

Lemma db_lookup_setdefault key d f db key' :
  compiledb.db_lookup (compiledb.setdefault key d f db) key'
  = if decide (key = key')
    then Some (f (default d (compiledb.db_lookup db key)))
    else compiledb.db_lookup db key'.
Proof.
  induction db as [|[k v] db IH]; simpl.
  - destruct (decide (key = key')); done.
  - destruct (decide (k = key)) as [->|Hne]; simpl.
    + destruct (decide (key = key')); done.
    + rewrite IH. destruct (decide (k = key')) as [->|];
        [by rewrite decide_False by done | done].
Qed.

Lemma db_keys_setdefault key d f db :
  (compiledb.setdefault key d f db).*1
  = if bool_decide (key ∈ db.*1) then db.*1 else db.*1 ++ [key].
Proof.
  induction db as [|[k v] db IH]; [done|].
  cbn [compiledb.setdefault]. rewrite !fmap_cons. cbn [fst].
  destruct (decide (k = key)) as [->|Hne].
  - rewrite fmap_cons. cbn [fst]. by rewrite bool_decide_eq_true_2 by left.
  - rewrite fmap_cons, IH. cbn [fst]. case_bool_decide as Hk.
    + by rewrite bool_decide_eq_true_2 by (by right).
    + rewrite bool_decide_eq_false_2; [done|].
      intros [?|?]%elem_of_cons; congruence.
Qed.

Lemma append_var_app cenv name db :
  compiledb.append_var cenv name db = db ++ compiledb.append_var cenv name [].
Proof.
  unfold compiledb.append_var.
  destruct (compiledb.falsy _); [by rewrite app_nil_r|].
  destruct (compiledb.substs cenv !! name) as [[s|l]|]; try done.
  by rewrite app_nil_r.
Qed.

Section db_templates.
Context `{Collaborators} `{compiledb.Outside}.

Lemma compiler_flags_app objdir reldir cenv suffix db :
  suffix ≠ ".s" → suffix ≠ ".S" →
  compiledb.compiler_flags objdir reldir cenv suffix db
  = db ++ compiledb.compiler_flags objdir reldir cenv suffix [].
Proof.
  intros Hs HS. unfold compiledb.compiler_flags.
  rewrite (proj2 (String.eqb_neq _ _) Hs), (proj2 (String.eqb_neq _ _) HS).
  repeat match goal with
         | |- context [if ?b then _ else _] => destruct b
         end.
  all: repeat (rewrite (append_var_app _ _ (_ ++ _))
               || rewrite (append_var_app _ _ (compiledb.append_var _ _ _))).
  all: by rewrite <- ?app_assoc.
Qed.
End db_templates.

Lemma setdefault_constant key d v db :
  compiledb.setdefault key d (fun _ => v)
    (compiledb.setdefault key d (fun _ => v) db)
  = compiledb.setdefault key d (fun _ => v) db.
Proof.
  induction db as [|[k w] db IH]; simpl.
  - by rewrite decide_True.
  - destruct (decide (k = key)) as [->|Hne]; simpl.
    + by rewrite decide_True.
    + rewrite decide_False by done. by rewrite IH.
Qed.

Lemma elem_of_append_var cenv name db x :
  x ∈ db → x ∈ compiledb.append_var cenv name db.
Proof.
  intros Hx. rewrite append_var_app. apply elem_of_app. by left.
Qed.

Ltac find_right :=
  first [ solve [apply list_elem_of_here]
        | solve [apply elem_of_cons; right; find_right]
        | solve [apply elem_of_app; right; find_right] ].

Lemma linker_flags_app cenv command db :
  compiledb.linker_flags cenv command db
  = db ++ compiledb.linker_flags cenv command [].
Proof.
  unfold compiledb.linker_flags.
  repeat (rewrite (append_var_app _ _ (_ ++ _))
          || rewrite (append_var_app _ _ (compiledb.append_var _ _ _))).
  by rewrite <- ?app_assoc.
Qed.

Lemma linker_flags_head cenv command :
  ∃ rest, compiledb.linker_flags cenv command [] = command :: rest
          ∧ "<OBJS>" ∈ rest.
Proof.
  unfold compiledb.linker_flags.
  repeat (rewrite (append_var_app _ _ (_ ++ _))
          || rewrite (append_var_app _ _ (compiledb.append_var _ _ _))).
  rewrite <- ?app_assoc. simpl. eexists. split; [reflexivity|].
  find_right.
Qed.

Ltac find_elem :=
  first [ solve [apply list_elem_of_here]
        | solve [apply elem_of_append_var; find_elem]
        | solve [apply elem_of_app; right; apply list_elem_of_here]
        | solve [apply elem_of_app; left; find_elem] ].

Section db_entries.
Context `{Collaborators} `{compiledb.Outside}.

Lemma compiler_flags_defines objdir reldir cenv suffix :
  suffix ≠ ".s" → suffix ≠ ".S" →
  "$(DEFINES)" ∈ compiledb.compiler_flags objdir reldir cenv suffix [].
Proof.
  intros Hs HS. unfold compiledb.compiler_flags.
  rewrite (proj2 (String.eqb_neq _ _) Hs), (proj2 (String.eqb_neq _ _) HS).
  repeat match goal with
         | |- context [if ?b then _ else _] => destruct b
         end.
  all: find_elem.
Qed.

(** X22.  [_compiler_db_entry] for a suffix with a compiler changes the
    entry of its key only and keeps the order of the keys.  For [.s] and
    [.S] the entry is a fixed command and a second call changes nothing.
    For the other suffixes the flags, [$(DEFINES)] among them, are appended
    to what the entry held: a second call for the same key appends them a
    second time. *)
Theorem compile_entries_accumulate objdir reldir cenv filename suffix unified
    compiler st :
  compiledb.COMPILERS suffix = Some compiler →
  let key := (objdir, filename, unified) in
  let template := ["$(" +:+ compiler +:+ ")"; "-o"; "/dev/null"; "-c"] in
  let before := default template (compiledb.db_lookup (compiledb._db st) key) in
  let st1 :=
    compiledb._compiler_db_entry objdir reldir cenv filename suffix unified st in
  let st2 :=
    compiledb._compiler_db_entry objdir reldir cenv filename suffix unified st1 in
  (∀ key', key' ≠ key →
     compiledb.db_lookup (compiledb._db st1) key'
     = compiledb.db_lookup (compiledb._db st) key')
  ∧ (compiledb._db st).*1 `prefix_of` (compiledb._db st1).*1
  ∧ (suffix = ".s" →
     compiledb.db_lookup (compiledb._db st1) key
     = Some ["$(AS)"; "-o"; "/dev/null"; "$(ASFLAGS)"; "$(MOZBUILD_ASFLAGS)";
             "$(AS_DASH_C_FLAG)"]
     ∧ compiledb._db st2 = compiledb._db st1)
  ∧ (suffix = ".S" →
     compiledb.db_lookup (compiledb._db st1) key
     = Some ["$(AS)"; "-o"; "/dev/null"; "$(DEFINES)"; "$(ASFLAGS)";
             "$(MOZBUILD_ASFLAGS)"; "$(LOCAL_INCLUDES)"; "-c"]
     ∧ compiledb._db st2 = compiledb._db st1)
  ∧ (suffix ≠ ".s" → suffix ≠ ".S" →
     ∃ flags,
       "$(DEFINES)" ∈ flags
       ∧ compiledb.db_lookup (compiledb._db st1) key = Some (before ++ flags)
       ∧ compiledb.db_lookup (compiledb._db st2) key
         = Some (before ++ flags ++ flags)).
Proof.
  intros Hc key template before st1 st2.
  subst st2 st1. unfold compiledb._compiler_db_entry. rewrite Hc. simpl.
  set (rd := if truthy reldir then _ else _).
  split; [|split; [|split; [|split]]].
  - intros key' Hne. by rewrite db_lookup_setdefault, decide_False.
  - rewrite db_keys_setdefault. case_bool_decide; [done|].
    by apply prefix_app_r.
  - intros ->. rewrite db_lookup_setdefault, decide_True by done.
    split; [done|].
    change (compiledb.compiler_flags objdir rd cenv ".s")
      with (fun _ : list string =>
              ["$(AS)"; "-o"; "/dev/null"; "$(ASFLAGS)"; "$(MOZBUILD_ASFLAGS)";
               "$(AS_DASH_C_FLAG)"]).
    apply setdefault_constant.
  - intros ->. rewrite db_lookup_setdefault, decide_True by done.
    split; [done|].
    change (compiledb.compiler_flags objdir rd cenv ".S")
      with (fun _ : list string =>
              ["$(AS)"; "-o"; "/dev/null"; "$(DEFINES)"; "$(ASFLAGS)";
               "$(MOZBUILD_ASFLAGS)"; "$(LOCAL_INCLUDES)"; "-c"]).
    apply setdefault_constant.
  - intros Hs HS.
    exists (compiledb.compiler_flags objdir rd cenv suffix []).
    split; [by apply compiler_flags_defines|].
    rewrite !db_lookup_setdefault, !decide_True by done. simpl.
    fold key template before.
    rewrite (compiler_flags_app objdir rd cenv suffix before) by done.
    split; [done|].
    rewrite (compiler_flags_app objdir rd cenv suffix (before ++ _)) by done.
    by rewrite <- app_assoc.
Qed.

(** X23.  [CompileDBBackend.consume_object] raises for no object: the test
    on [StaticLibrary], a name [database.py] does not import, is never
    reached from it.  For a program or a shared library it appends to the
    entry of [(objdir, file name, None)] the linker command, which starts
    with the call of [expandlibs_exec.py] for [$(CXX)] or [$(CC)] and holds
    the placeholder [<OBJS>]. *)
Theorem database_walk_never_raises obj st :
  (∃ st', compiledb.consume_object obj st = Ok st')
  ∧ ∀ l config defines lib_defines is_unit_test,
      obj = compiledb.Linkable l config defines lib_defines is_unit_test →
      is_Program l || is_SharedLibrary l = true →
      str_in (relativedir (l_context l)) compiledb.skipped_relativedirs
      = false →
      compiledb.CommonBackend_consume_object obj = false →
      let key :=
        (obj_objdir (l_context l),
         if is_Program l then program l else lib_name l, None) in
      ∃ st' flags,
        compiledb.consume_object obj st = Ok st'
        ∧ compiledb.db_lookup (compiledb._db st') key
          = Some (default [] (compiledb.db_lookup (compiledb._db st) key)
                  ++ flags)
        ∧ "<OBJS>" ∈ flags
        ∧ head flags
          = Some ("SHELL=$(SHELL) $(PYTHON) -B $(MOZILLA_DIR)/config/expandlibs_exec.py --uselist -- $("
                  +:+ (if is_Program l then "CXX" else "CC") +:+ ")").
Proof.
  split.
  - unfold compiledb.consume_object.
    destruct (str_in _ _); [by eauto|].
    destruct (compiledb.CommonBackend_consume_object obj); [by eauto|].
    destruct obj; try (by eauto).
    unfold compiledb._linker_db_entry.
    destruct (is_Program l); [by eauto|].
    destruct (is_SharedLibrary l); [by eauto|].
    destruct (_ && _); [|by eauto]. destruct (bool_decide _); by eauto.
  - intros l config defines lib_defines is_unit_test -> Hl Hskip Hcb key.
    unfold compiledb.consume_object. simpl. rewrite Hskip, Hcb.
    unfold compiledb._linker_db_entry. subst key.
    destruct (is_Program l) eqn:HP.
    + destruct (linker_flags_head config
                  "SHELL=$(SHELL) $(PYTHON) -B $(MOZILLA_DIR)/config/expandlibs_exec.py --uselist -- $(CXX)")
        as (rest & Hrest & Hobjs).
      eexists _, _. split; [reflexivity|]. simpl.
      rewrite db_lookup_setdefault, decide_True by done.
      rewrite linker_flags_app, Hrest. split; [done|]. split; [by right|done].
    + simpl in Hl. rewrite Hl.
      destruct (linker_flags_head config
                  "SHELL=$(SHELL) $(PYTHON) -B $(MOZILLA_DIR)/config/expandlibs_exec.py --uselist -- $(CC)")
        as (rest & Hrest & Hobjs).
      eexists _, _. split; [reflexivity|]. simpl.
      rewrite db_lookup_setdefault, decide_True by done.
      rewrite linker_flags_app, Hrest. split; [done|]. split; [by right|done].
Qed.
End db_entries.

Section db_records.
Context `{Collaborators} `{compiledb.Outside}.

(** X24.  When the expansion loop of [consume_finished] ends, its result
    is the command after some number of turns, and one more turn would
    change nothing; a command a turn leaves unchanged is returned after one
    turn; more fuel does not change a result. *)
Theorem expansion_stops_at_a_fixed_point fuel variables cmd :
  (∀ c, compiledb.expand fuel variables cmd = Some c →
     compiledb.expand_once variables c = c
     ∧ ∃ n, n < fuel
            ∧ c = Nat.iter (S n) (compiledb.expand_once variables) cmd)
  ∧ (compiledb.expand_once variables cmd = cmd →
     compiledb.expand (S fuel) variables cmd = Some cmd)
  ∧ (∀ c more, compiledb.expand fuel variables cmd = Some c →
       compiledb.expand (fuel + more) variables cmd = Some c).
Proof.
  split; [|split].
  - revert cmd. induction fuel as [|fuel IH]; intros cmd c; simpl; [done|].
    destruct (decide (compiledb.expand_once variables cmd = cmd)) as [Heq|Hne].
    + intros [= <-]. split.
      * rewrite Heq. exact Heq.
      * exists 0. split; [lia|]. reflexivity.
    + intros Hc. destruct (IH _ _ Hc) as (Hfix & n & Hn & ->).
      split; [done|]. exists (S n). split; [lia|].
      by rewrite <- !Nat.iter_succ_r.
  - intros Heq. cbn [compiledb.expand]. destruct (decide _); [by rewrite Heq | done].
  - revert cmd. induction fuel as [|fuel IH]; intros cmd c more; simpl;
      [done|].
    destruct (decide _); [done|]. apply IH.
Qed.

Lemma records_need_environments fuel st db directory filename unified cmd :
  ((directory, filename, unified), cmd) ∈ db →
  compiledb._envs st !! directory = None →
  ∀ rs, compiledb.records fuel st db ≠ Some (Ok rs).
Proof.
  intros Hin Henv. induction db as [|e db IH]; [by apply elem_of_nil in Hin|].
  intros rs. simpl.
  apply elem_of_cons in Hin as [<-|Hin].
  - simpl. by rewrite Henv.
  - destruct (compiledb.record_of fuel st e) as [[r|m]|]; [|done..].
    specialize (IH Hin).
    destruct (compiledb.records fuel st db) as [[rs'|m]|]; [|done..].
    by destruct (IH rs').
Qed.

Lemma records_spec fuel st db :
  (∀ e, e ∈ db →
     ∃ env, compiledb._envs st !! e.1.1.1 = Some env
            ∧ is_Some (compiledb.expand fuel
                         (compiledb.variables_of e.1.1.1 env st)
                         (db_arguments e.2 e.1.1.2 e.1.2))) →
  ∃ rs, compiledb.records fuel st db = Some (Ok rs)
        ∧ Forall2 (written_for fuel st) db rs.
Proof.
  induction db as [|[[[d f] u] cmd] db IH]; intros Hall; simpl.
  - exists []. split; [done|constructor].
  - destruct (Hall ((d, f, u), cmd)) as (env & Henv & c & Hc); [by left|].
    simpl in Henv, Hc. rewrite Henv, Hc. simpl.
    destruct IH as (rs & -> & Hrs); [by intros e He; apply Hall; right|].
    eexists. split; [reflexivity|]. constructor; [|done].
    exists env, c. by repeat split.
Qed.

(** X25.  [consume_finished] returns no list when the directory of an
    entry has no environment (the lookup [self._envs[directory]] raises).
    When every entry has one and its expansion ends, the list has one record
    for each entry, in the order of the entries: directory and file as in
    the key, and as command the expanded template with the file (or the
    unified file) appended, followed by the flags of the source, each
    argument quoted. *)
Theorem database_has_one_record_per_entry fuel st :
  (∀ directory filename unified cmd,
     ((directory, filename, unified), cmd) ∈ compiledb._db st →
     compiledb._envs st !! directory = None →
     ∀ rs, compiledb.consume_finished fuel st ≠ Some (Ok rs))
  ∧ ((∀ e, e ∈ compiledb._db st →
        ∃ env, compiledb._envs st !! e.1.1.1 = Some env
               ∧ is_Some (compiledb.expand fuel
                            (compiledb.variables_of e.1.1.1 env st)
                            (db_arguments e.2 e.1.1.2 e.1.2))) →
     ∃ rs, compiledb.consume_finished fuel st = Some (Ok rs)
           ∧ Forall2
               (fun entry r =>
                  let '((directory, filename, unified), cmd) := entry in
                  ∃ env c,
                    compiledb._envs st !! directory = Some env
                    ∧ compiledb.expand fuel
                        (compiledb.variables_of directory env st)
                        (db_arguments cmd filename unified) = Some c
                    ∧ db_directory r = directory
                    ∧ db_file r = mozpath_join directory filename
                    ∧ db_command r
                      = join_sp
                          (shell_quote
                             <$> (c ++ default []
                                         (compiledb._per_source_flags st
                                          !! filename))))
               (compiledb._db st) rs).
Proof.
  split.
  - intros directory filename unified cmd Hin Henv.
    by eapply records_need_environments.
  - apply records_spec.
Qed.

(** X26.  What the database writer writes, the tup backend reads back: when
    every argument of a record is a word that quoting leaves unchanged, the
    loaded database maps the file and directory of the record to these
    arguments, with [/dev/null] replaced by [%o]. *)
Theorem tup_reads_back_the_database_records fuel st directory filename unified
    cmd r :
  compiledb.record_of fuel st ((directory, filename, unified), cmd)
  = Some (Ok r) →
  ∃ env c,
    compiledb._envs st !! directory = Some env
    ∧ compiledb.expand fuel (compiledb.variables_of directory env st)
        (db_arguments cmd filename unified) = Some c
    ∧ let args :=
        c ++ default [] (compiledb._per_source_flags st !! filename) in
      Forall (fun a => is_word a = true ∧ shell_quote a = a) args →
      load_commands_db [r] !! (mozpath_join directory filename, directory)
      = Some ((fun p => if String.eqb p "/dev/null" then "%o" else p) <$> args).
Proof.
  simpl. destruct (compiledb._envs st !! directory) as [env|]; [|done].
  destruct (compiledb.expand fuel _ _) as [c|] eqn:Hc; [|done]. simpl.
  intros [= <-]. exists env, c. split; [done|]. split; [done|].
  intros Hargs.
  set (args := c ++ default [] (compiledb._per_source_flags st !! filename))
    in *.
  unfold load_commands_db. simpl.
  rewrite lookup_insert_eq. f_equal. unfold load_command. simpl.
  assert (shell_quote <$> args = args) as ->.
  { clear -Hargs. induction Hargs as [|a l [_ Ha] _ IH]; [done|].
    by rewrite fmap_cons, Ha, IH. }
  rewrite words_join_words; [done|].
  eapply Forall_impl; [exact Hargs|]. by intros a [? _].
Qed.
End db_records.

Section C5.
Context `{Collaborators} `{compiledb.Outside}.


End C5.

Lemma registers_nil st : registers [] st st.
Proof.
  split; [|done]. intros key. split; [by left|].
  intros [?|?%elem_of_nil]; done.
Qed.

Lemma registers_app ks1 ks2 st1 st2 st3 :
  registers ks1 st1 st2 → registers ks2 st2 st3 →
  registers (ks1 ++ ks2) st1 st3.
Proof.
  intros (Hk1 & Hp1 & Hn1) (Hk2 & Hp2 & Hn2). split; [|split].
  - intros key. rewrite Hk2, Hk1, elem_of_app. tauto.
  - by etrans.
  - auto.
Qed.

Section db_keys.
Context `{Collaborators} `{compiledb.Outside}.

Lemma registers_compiler_db_entry objdir reldir cenv filename suffix unified st :
  is_Some (compiledb.COMPILERS suffix) →
  registers [(objdir, filename, unified)] st
    (compiledb._compiler_db_entry objdir reldir cenv filename suffix unified st).
Proof.
  intros [compiler Hc]. unfold compiledb._compiler_db_entry. rewrite Hc.
  unfold registers. simpl. rewrite db_keys_setdefault.
  case_bool_decide as Hin.
  - split; [|done]. intros key. rewrite list_elem_of_singleton.
    split; [by left|]. by intros [?| ->].
  - split; [|split].
    + intros key. by rewrite elem_of_app.
    + by apply prefix_app_r.
    + intros Hnd. apply NoDup_app. split; [done|].
      split; [|apply NoDup_singleton].
      intros x Hx ->%list_elem_of_singleton. done.
Qed.

Lemma registers_constituents objdir relativedir config suffix u l st :
  is_Some (compiledb.COMPILERS suffix) →
  registers ((fun entry => (objdir, entry, Some u)) <$> l) st
    (foldl (fun st entry =>
              compiledb._compiler_db_entry objdir (Some relativedir) config
                entry suffix (Some u) st) st l).
Proof.
  intros Hc. revert st. induction l as [|e l IH]; intros st.
  - apply registers_nil.
  - apply (registers_app [(objdir, e, Some u)] _ st
             (compiledb._compiler_db_entry objdir (Some relativedir) config e
                suffix (Some u) st)).
    + by apply registers_compiler_db_entry.
    + apply IH.
Qed.

Lemma registers_process_unified_sources objdir relativedir config mapping
    suffix st :
  is_Some (compiledb.COMPILERS suffix) →
  registers (unified_db_keys objdir mapping) st
    (compiledb._process_unified_sources objdir relativedir config mapping suffix
       st).
Proof.
  intros Hc. revert st. induction mapping as [|f mapping IH]; intros st.
  - apply registers_nil.
  - apply (registers_app
             ((objdir, f.1, None)
              :: ((fun entry => (objdir, entry, Some f.1)) <$> f.2))
             (unified_db_keys objdir mapping) st
             (foldl (fun st entry =>
                       compiledb._compiler_db_entry objdir (Some relativedir)
                         config entry suffix (Some f.1) st)
                (compiledb._compiler_db_entry objdir (Some relativedir) config
                   f.1 suffix None st) f.2)).
    + apply (registers_app [(objdir, f.1, None)] _ st
               (compiledb._compiler_db_entry objdir (Some relativedir) config
                  f.1 suffix None st)).
      * by apply registers_compiler_db_entry.
      * by apply registers_constituents.
    + apply IH.
Qed.

(** X27.  [_process_unified_sources] does nothing for a suffix without
    compiler.  For a suffix with one, the keys of the database after it are
    those before it and one key for each unified file and for each of its
    constituents; the keys that were there keep their places, and no key is
    added twice. *)
Theorem unified_sources_register_their_keys objdir relativedir config mapping
    suffix st :
  let st' :=
    compiledb._process_unified_sources objdir relativedir config mapping suffix
      st in
  (compiledb.COMPILERS suffix = None → st' = st)
  ∧ (is_Some (compiledb.COMPILERS suffix) →
     (∀ key, key ∈ (compiledb._db st').*1
             ↔ key ∈ (compiledb._db st).*1
               ∨ key ∈ unified_db_keys objdir mapping)
     ∧ (compiledb._db st).*1 `prefix_of` (compiledb._db st').*1
     ∧ (NoDup (compiledb._db st).*1 → NoDup (compiledb._db st').*1)).
Proof.
  intros st'. subst st'. split.
  - intros Hc. unfold compiledb._process_unified_sources.
    assert (∀ f u s, compiledb._compiler_db_entry objdir (Some relativedir)
                       config f suffix u s = s) as Hid
      by (intros; unfold compiledb._compiler_db_entry; by rewrite Hc).
    revert st. induction mapping as [|f mapping IH]; intros st; [done|].
    cbn [foldl]. rewrite Hid.
    assert (foldl (fun st entry =>
                     compiledb._compiler_db_entry objdir (Some relativedir)
                       config entry suffix (Some f.1) st) st f.2 = st) as ->;
      [|apply IH].
    induction (f.2) as [|e l IHl]; [done|]. cbn [foldl]. by rewrite Hid.
  - apply registers_process_unified_sources.
Qed.
End db_keys.

Lemma local_flag_set objdir var v st var' :
  local_flag (compiledb.set_local_flag objdir var v st) objdir var'
  = if decide (var = var') then Some v else local_flag st objdir var'.
Proof.
  unfold local_flag, compiledb.set_local_flag. simpl.
  rewrite lookup_insert_eq. simpl. rewrite lookup_insert.
  destruct (decide (var = var')); done.
Qed.

Lemma local_flag_del objdir var st var' :
  local_flag (compiledb.del_local_flag objdir var st) objdir var'
  = if decide (var = var') then None else local_flag st objdir var'.
Proof.
  unfold local_flag, compiledb.del_local_flag. simpl.
  rewrite lookup_insert_eq. simpl. rewrite lookup_delete.
  destruct (decide (var = var')); done.
Qed.

Section db_flags.
Context `{Collaborators} `{compiledb.Outside}.

Lemma traversal_flags objdir config vars st var :
  local_flag
    (foldl (fun st var =>
              let value := compiledb.substs config !! var in
              if compiledb.falsy value then st
              else from_option
                     (fun v => compiledb.set_local_flag objdir var v st) st value)
       st vars) objdir var
  = if bool_decide (var ∈ vars)
       && negb (compiledb.falsy (compiledb.substs config !! var))
    then compiledb.substs config !! var
    else local_flag st objdir var.
Proof.
  revert st. induction vars as [|x vars IH]; intros st; [done|].
  cbn [foldl]. rewrite IH. clear IH.
  destruct (decide (var = x)) as [->|Hne].
  - rewrite (bool_decide_eq_true_2 (x ∈ x :: vars)) by left. simpl.
    destruct (compiledb.falsy (compiledb.substs config !! x)) eqn:Hf; simpl.
    + by rewrite andb_false_r.
    + destruct (compiledb.substs config !! x) as [v|] eqn:Hx; [|done]. simpl.
      rewrite local_flag_set, decide_True by done.
      by destruct (bool_decide _).
  - assert (bool_decide (var ∈ x :: vars) = bool_decide (var ∈ vars)) as ->.
    { apply bool_decide_ext. rewrite elem_of_cons.
      split; [by intros [?|?] | by right]. }
    destruct (_ && _); [done|].
    destruct (compiledb.falsy (compiledb.substs config !! x)); [done|].
    destruct (compiledb.substs config !! x) as [v|]; [|done]. simpl.
    by rewrite local_flag_set, decide_False.
Qed.

Lemma passthru_flags objdir (variables : gmap string compiledb.value) vars st
    var :
  var ∉ vars →
  local_flag
    (foldl (fun st var =>
              match variables !! var with
              | Some v => compiledb.set_local_flag objdir var v st
              | None => st
              end) st vars) objdir var
  = local_flag st objdir var.
Proof.
  revert st. induction vars as [|x vars IH]; intros st Hnot; [done|].
  apply not_elem_of_cons in Hnot as [Hne Hnot].
  cbn [foldl]. rewrite IH by done.
  destruct (variables !! x); [|done].
  by rewrite local_flag_set, decide_False.
Qed.

Lemma consume_traversal c config st var :
  str_in (relativedir c) compiledb.skipped_relativedirs = false →
  compiledb.CommonBackend_consume_object
    (compiledb.DirectoryTraversal c config) = false →
  ∃ st',
    compiledb.consume_object (compiledb.DirectoryTraversal c config) st = Ok st'
    ∧ local_flag st' (obj_objdir c) var
      = (if bool_decide (var ∈ ["STL_FLAGS"; "VISIBILITY_FLAGS";
                                "WARNINGS_AS_ERRORS"])
            && negb (compiledb.falsy (compiledb.substs config !! var))
         then compiledb.substs config !! var
         else local_flag st (obj_objdir c) var).
Proof.
  intros Hskip Hcb. unfold compiledb.consume_object.
  cbn [compiledb.context_of]. rewrite Hskip, Hcb.
  eexists. split; [reflexivity|]. by rewrite traversal_flags.
Qed.

Lemma consume_passthru c variables st :
  str_in (relativedir c) compiledb.skipped_relativedirs = false →
  compiledb.CommonBackend_consume_object
    (compiledb.VariablePassthru c variables) = false →
  ∃ st',
    compiledb.consume_object (compiledb.VariablePassthru c variables) st
    = Ok st'
    ∧ local_flag st' (obj_objdir c) "STL_FLAGS"
      = (if compiledb.falsy (variables !! "DISABLE_STL_WRAPPING")
         then local_flag st (obj_objdir c) "STL_FLAGS" else None).
Proof.
  intros Hskip Hcb. unfold compiledb.consume_object.
  cbn [compiledb.context_of]. rewrite Hskip, Hcb.
  eexists. split; [reflexivity|].
  set (st0 := if compiledb.falsy (variables !! "IS_GYP_DIR") then st else _).
  assert (local_flag st0 (obj_objdir c) "STL_FLAGS"
          = local_flag st (obj_objdir c) "STL_FLAGS") as Hf0
    by (subst st0; by destruct (compiledb.falsy _)).
  set (st1 := foldl _ st0 compiledb.passthru_variables).
  assert (local_flag st1 (obj_objdir c) "STL_FLAGS"
          = local_flag st (obj_objdir c) "STL_FLAGS") as Hf1.
  { subst st1. rewrite passthru_flags; [done|].
    unfold compiledb.passthru_variables. solve_notin. }
  set (st2 := if negb (compiledb.falsy (variables !! "DISABLE_STL_WRAPPING"))
                 && _ then _ else st1).
  assert (local_flag st2 (obj_objdir c) "STL_FLAGS"
          = (if compiledb.falsy (variables !! "DISABLE_STL_WRAPPING")
             then local_flag st (obj_objdir c) "STL_FLAGS" else None)) as Hf2.
  { subst st2. destruct (compiledb.falsy (variables !! "DISABLE_STL_WRAPPING"));
      simpl; [done|].
    case_bool_decide as Hin.
    - by rewrite local_flag_del, decide_True.
    - fold (local_flag st1 (obj_objdir c) "STL_FLAGS") in Hin.
      destruct (local_flag st1 (obj_objdir c) "STL_FLAGS") eqn:Hl; [|done].
      destruct Hin. by eauto. }
  clearbody st2. destruct (_ && _); [|exact Hf2].
  by rewrite local_flag_del, decide_False.
Qed.

(** X28.  [DISABLE_STL_WRAPPING] only removes [STL_FLAGS] that are there.
    For a directory whose configuration has [STL_FLAGS] and whose
    [VariablePassthru] sets [DISABLE_STL_WRAPPING]: when the passthru comes
    after the [DirectoryTraversal] the directory ends without [STL_FLAGS],
    and when it comes before, the traversal sets them and they stay. *)
Theorem stl_wrapping_depends_on_the_order c config variables flags st :
  str_in (relativedir c) compiledb.skipped_relativedirs = false →
  compiledb.CommonBackend_consume_object
    (compiledb.DirectoryTraversal c config) = false →
  compiledb.CommonBackend_consume_object
    (compiledb.VariablePassthru c variables) = false →
  compiledb.substs config !! "STL_FLAGS" = Some flags →
  compiledb.falsy (Some flags) = false →
  compiledb.falsy (variables !! "DISABLE_STL_WRAPPING") = false →
  ∃ st1 st2 st1' st2',
    compiledb.consume_object (compiledb.DirectoryTraversal c config) st
    = Ok st1
    ∧ compiledb.consume_object (compiledb.VariablePassthru c variables) st1
      = Ok st2
    ∧ compiledb.consume_object (compiledb.VariablePassthru c variables) st
      = Ok st1'
    ∧ compiledb.consume_object (compiledb.DirectoryTraversal c config) st1'
      = Ok st2'
    ∧ default ∅ (compiledb._local_flags st2 !! obj_objdir c) !! "STL_FLAGS"
      = None
    ∧ default ∅ (compiledb._local_flags st2' !! obj_objdir c) !! "STL_FLAGS"
      = Some flags.
Proof.
  intros Hskip Hdt Hvp Hstl Hflags Hdisable.
  destruct (consume_traversal c config st "STL_FLAGS" Hskip Hdt)
    as (st1 & Hst1 & _).
  destruct (consume_passthru c variables st1 Hskip Hvp) as (st2 & Hst2 & H2).
  destruct (consume_passthru c variables st Hskip Hvp) as (st1' & Hst1' & _).
  destruct (consume_traversal c config st1' "STL_FLAGS" Hskip Hdt)
    as (st2' & Hst2' & H2').
  exists st1, st2, st1', st2'. repeat split; try done.
  - fold (local_flag st2 (obj_objdir c) "STL_FLAGS").
    by rewrite H2, Hdisable.
  - fold (local_flag st2' (obj_objdir c) "STL_FLAGS").
    rewrite H2', Hstl, Hflags. done.
Qed.
End db_flags.

(** ** The claims on the example inputs *)

Section Examples.
Import examples.
#[local] Existing Instance posix.collaborators.
#[local] Existing Instance samples.outside.

(** C1 as stated fails: two directories install a file [foo.js] into
    [dist/bin], and the rule file of [/obj/dist/bin] gets two distinct rules
    with the concrete output [foo.js]. *)
Lemma C1_counterexample :
  ∃ r1 r2,
    rules_in "/obj/dist/bin" (run env None clashing_installs []) = [r1; r2]
    ∧ r1 ≠ r2
    ∧ ("foo.js" ∈ r_outputs r1)
    ∧ ("foo.js" ∈ r_outputs r2)
    ∧ is_group "foo.js" = false.
Proof.
  do 2 eexists. split; [by_computation|].
  split; [discriminate|]. split; [apply list_elem_of_here|].
  split; [apply list_elem_of_here | reflexivity].
Qed.

(** The amended C1 on two installs with different names. *)
Lemma C1_witness :
  Forall plain_install installs
  ∧ NoDup (installs ≫= install_names env)
  ∧ run env None installs [] = Ok (state_of (run env None installs []))
  ∧ ∀ r1 r2 o,
      rules_of (state_of (run env None installs [])) "/obj/dist/bin" !! 0
      = Some r1 →
      rules_of (state_of (run env None installs [])) "/obj/dist/bin" !! 1
      = Some r2 →
      o ∈ concrete_outputs r1 → o ∉ concrete_outputs r2.
Proof.
  assert (Forall plain_install installs) as Hplain
    by (repeat constructor; discriminate).
  assert (NoDup (installs ≫= install_names env)) as Hnames
    by (apply (bool_decide_unpack _); by_computation).
  assert (run env None installs [] = Ok (state_of (run env None installs [])))
    as Hrun by by_computation.
  split; [exact Hplain|]. split; [exact Hnames|]. split; [exact Hrun|].
  intros r1 r2 o.
  apply (C1_single_producer_of_installs env None installs
           (state_of (run env None installs [])) Hplain Hnames Hrun
           "/obj/dist/bin" 0 1 r1 r2 o).
  discriminate.
Defined.



(** C3 as stated fails: the caller asks for the installed-files group, an
    output ends in [.h], and the rule is attached to the includes group
    only. *)
Lemma C3_counterexample :
  ∃ r,
    rules (rule ["gen"] None None (Some ["foo.h"]) None None
             (Some _installed_files) true tupfile) = [r]
    ∧ ("foo.h" ∈ r_outputs r)
    ∧ (_installed_files ∉ r_outputs r)
    ∧ r_outputs r = ["foo.h"; _includes_group].
Proof.
  eexists. split; [reflexivity|]. simpl.
  split; [apply list_elem_of_here|].
  split; [solve_notin | reflexivity].
Qed.

(** C4 as stated fails: a call without outputs and with the command
    [touch %o] emits a rule record. *)
Lemma C4_counterexample :
  ∃ r,
    rules (rule ["touch"; "%o"] None None (Some []) None None None true
             tupfile) = [r]
    ∧ r_cmd r = ["touch"; "%o"] ∧ r_outputs r = [].
Proof. eexists. repeat split. Qed.



(** C6 as stated fails for links: without database the program [p] is
    linked by [ld.gold], not by a placeholder, and nothing is counted. *)
Lemma C6_counterexample :
  ∃ r,
    rules_in "/obj/p" (run env None [Link progR] []) = [r]
    ∧ r_cmd r = ["ld.gold"; "-o"; "%o"; "/obj/r/libr.a"]
    ∧ r_cmd r ≠ ["touch"; "%o"]
    ∧ _missing_commands (state_of (run env None [Link progR] [])) = ∅.
Proof.
  eexists. split; [by_computation|]. simpl.
  split; [reflexivity|]. split; [discriminate | by_computation].
Qed.

(** The amended C6 without database: a compile and a link in [/obj/a]. *)
Lemma C6_witness :
  _backend_files st_a !! "/obj/a" = Some tupfile
  ∧ (∃ r,
       rules (backend_file
                (_write_sources "/obj/a" "Sources" "/src/a/a.c" ".c" [] st_a)
                "/obj/a") = rules tupfile ++ [r]
       ∧ r_cmd r = ["touch"; "%o"])
  ∧ (∃ r,
       rules (backend_file (_process_program "/obj/a" progE st_a) "/obj/a")
       = rules tupfile ++ [r]
       ∧ _missing_commands (_process_program "/obj/a" progE st_a)
         = _missing_commands st_a).
Proof.
  assert (_backend_files st_a !! "/obj/a" = Some tupfile) as Hbf
    by by_computation.
  split; [exact Hbf|].
  destruct (C6_missing_command "/obj/a" st_a tupfile "Sources" "/src/a/a.c"
              ".c" [] progE Hbf) as [Hcompile Hlink].
  split.
  - destruct (Hcompile ltac:(by_computation)) as (r & Hr & Hcmd & _).
    exists r. split; [exact Hr | exact Hcmd].
  - destruct (Hlink ltac:(by_computation) ltac:(by_computation))
      as (r & Hr & _ & Hmiss).
    exists r. split; [exact Hr | exact Hmiss].
Defined.

(** C7 as stated fails: two [Sources] objects of one directory, walked in
    either order, leave different source closures. *)
Lemma C7_counterexample :
  [sources "a" ["/src/a/b.c"]; sources "a" ["/src/a/a.c"]]
  ≡ₚ [sources "a" ["/src/a/a.c"]; sources "a" ["/src/a/b.c"]]
  ∧ closure_in "/obj/a"
      (run env None [sources "a" ["/src/a/b.c"]; sources "a" ["/src/a/a.c"]] [])
    = ["b.o"; "a.o"]
  ∧ closure_in "/obj/a"
      (run env None [sources "a" ["/src/a/a.c"]; sources "a" ["/src/a/b.c"]] [])
    = ["a.o"; "b.o"].
Proof. split; [apply perm_swap|]. split; by_computation. Qed.

(** The amended C7 on two manifest entries walked in either order. *)
Lemma C7_witness :
  _backend_files st_a !! "/obj/a" = Some tupfile
  ∧ manifests_ba ≡ₚ manifests_ab
  ∧ consume manifests_ba (_init env None)
    = Ok (state_of (consume manifests_ba (_init env None)))
  ∧ consume manifests_ab (_init env None)
    = Ok (state_of (consume manifests_ab (_init env None)))
  ∧ written
      (write_manifests (state_of (consume manifests_ba (_init env None))))
    ≡ₚ written
         (write_manifests (state_of (consume manifests_ab (_init env None)))).
Proof.
  assert (_backend_files st_a !! "/obj/a" = Some tupfile) as Hbf
    by by_computation.
  assert (consume manifests_ba (_init env None)
          = Ok (state_of (consume manifests_ba (_init env None)))) as Hba
    by by_computation.
  assert (consume manifests_ab (_init env None)
          = Ok (state_of (consume manifests_ab (_init env None)))) as Hab
    by by_computation.
  split; [exact Hbf|].
  split; [apply perm_swap|]. split; [exact Hba|]. split; [exact Hab|].
  exact (proj1 (proj2
    (C7_order_independence env None manifests_ba manifests_ab _ _
       (ctx "a") sources_a "/obj/a" st_a tupfile
       Hbf (perm_swap _ _ _) Hba Hab))).
Defined.

(** C8 as stated fails for programs: the path of the Rust library [r] is in
    the link plan and in the link command of the program [p], whether or
    not [RustLibrary] derives from [StaticLibrary]. *)
Lemma C8_counterexample :
  is_RustLibrary libR = true
  ∧ (@link_plan (posix.collaborators_with true) progR).1 = ["/obj/r/libr.a"]
  ∧ (@link_plan (posix.collaborators_with false) progR).1 = ["/obj/r/libr.a"]
  ∧ r_cmd <$> rules_in "/obj/p" (run env None [Link progR] [])
    = [["ld.gold"; "-o"; "%o"; "/obj/r/libr.a"]].
Proof. repeat split. Qed.

(** The amended C8 on the Rust library [r] as a dependency of the static
    library [a]. *)
Lemma C8_witness :
  is_RustLibrary libR = true
  ∧ is_Library libA = true
  ∧ link_library libA libR = ([], []).
Proof.
  split; [reflexivity|]. split; [reflexivity|].
  exact (proj1 (C8_rust_library_in_link_plan libA libR eq_refl) eq_refl).
Defined.

(** C9 on the static library [a]. *)
Lemma C9_witness :
  _backend_files st_a !! "/obj/a" = Some tupfile
  ∧ ∃ r,
      rules (backend_file (_process_program "/obj/a" libA st_a) "/obj/a")
      = rules tupfile ++ [r]
      ∧ r_outputs r = ["liba.a.desc"].
Proof.
  assert (_backend_files st_a !! "/obj/a" = Some tupfile) as Hbf
    by by_computation.
  split; [exact Hbf|].
  destruct (C9_static_library_descriptor "/obj/a" libA st_a tupfile Hbf)
    as (r & Hr & _ & Hstatic).
  exists r. split; [exact Hr|]. exact (proj2 (Hstatic eq_refl)).
Defined.

(** C10 on a generated file without script. *)
Lemma C10_witness :
  truthy (script {| script := None; method := Some "main";
                    outputs := ["gen.c"]; inputs := []; flags := [] |})
  && truthy (Some "main") = false
  ∧ process_delayed "/obj/a" (generated None) st_a = Ok st_a.
Proof.
  split; [reflexivity|].
  exact (proj1 (proj2 (C10_generated_file_without_script (ctx "a")
                         {| script := None; method := Some "main";
                            outputs := ["gen.c"]; inputs := []; flags := [] |}
                         st_a "/obj/a" eq_refl))).
Defined.

End Examples.

(** ** The further properties on the example inputs *)

Section More_examples.
Import examples samples.
#[local] Existing Instance posix.collaborators.
#[local] Existing Instance samples.outside.

(** X2 on the rule file of [dist/idl] after the run over [installs] with
    the IDL and the IPDL hook. *)
Lemma rule_files_include_rules_before_rules_witness :
  run env None installs calls_idl_ipdl = Ok ran_installs_hooks
  ∧ _backend_files ran_installs_hooks !! "/obj/dist/idl"
    = Some (backend_file ran_installs_hooks "/obj/dist/idl")
  ∧ ((rules (backend_file ran_installs_hooks "/obj/dist/idl") = []
      ∧ Text ("include_rules" +:+ nl)
          ∉ fh (backend_file ran_installs_hooks "/obj/dist/idl"))
     ∨ ∃ pre post,
         fh (backend_file ran_installs_hooks "/obj/dist/idl")
         = pre ++ Text ("include_rules" +:+ nl) :: post
         ∧ (∀ r, RuleLine r ∉ pre)
         ∧ (Text ("include_rules" +:+ nl) ∉ pre)
         ∧ Text ("include_rules" +:+ nl) ∉ post).
Proof.
  assert (run env None installs calls_idl_ipdl = Ok ran_installs_hooks)
    as Hrun by by_computation.
  assert (_backend_files ran_installs_hooks !! "/obj/dist/idl"
          = Some (backend_file ran_installs_hooks "/obj/dist/idl")) as Hb
    by by_computation.
  split; [exact Hrun|]. split; [exact Hb|].
  exact (rule_files_include_rules_before_rules env None installs
           calls_idl_ipdl ran_installs_hooks "/obj/dist/idl" _ Hrun Hb).
Defined.

(** X3 on the walk over the sources of [a] from a state that has the rule
    file of [/obj/a], followed by [consume_finished] with the IDL hook. *)
Lemma emitted_rules_are_append_only_witness :
  consume [sources "a" ["/src/a/a.c"]] st_a = Ok walked_a
  ∧ consume_finished [handle_idl_manager manager] walked_a = Ok finished_a
  ∧ (∃ b1 b2,
       _backend_files walked_a !! "/obj/a" = Some b1
       ∧ _backend_files finished_a !! "/obj/a" = Some b2
       ∧ rules tupfile `prefix_of` rules b1
       ∧ rules b1 `prefix_of` rules b2)
  ∧ written walked_a = written st_a
  ∧ written st_a `prefix_of` written finished_a.
Proof.
  assert (consume [sources "a" ["/src/a/a.c"]] st_a = Ok walked_a) as Hw
    by by_computation.
  assert (consume_finished [handle_idl_manager manager] walked_a
          = Ok finished_a) as Hf by by_computation.
  assert (_backend_files st_a !! "/obj/a" = Some tupfile) as Hb
    by by_computation.
  split; [exact Hw|]. split; [exact Hf|].
  destruct (emitted_rules_are_append_only _ _ st_a walked_a finished_a Hw Hf)
    as (Hfiles & _ & _ & Hw1 & Hw2).
  split; [|split; [exact Hw1 | exact Hw2]].
  destruct (Hfiles "/obj/a" tupfile Hb)
    as (b1 & b2 & Hb1 & Hb2 & _ & Hr1 & Hr2 & _).
  exists b1, b2. split; [exact Hb1|]. split; [exact Hb2|].
  split; [exact Hr1 | exact Hr2].
Defined.

(** X4 on the walk over [graph], which postpones four linkables, with the
    IDL and the IPDL hook called afterwards. *)
Lemma deferred_phase_succeeds_witness :
  consume graph (_init env None)
  = Ok (state_of (consume graph (_init env None)))
  ∧ ∃ st', consume_finished calls_idl_ipdl
             (state_of (consume graph (_init env None))) = Ok st'.
Proof.
  assert (consume graph (_init env None)
          = Ok (state_of (consume graph (_init env None)))) as Hw
    by by_computation.
  split; [exact Hw|].
  exact (proj2 (deferred_phase_succeeds env None graph calls_idl_ipdl _ Hw)).
Defined.

(** X5 on the run over [installs] with the IDL and the IPDL hook: the rule
    files of the hooks are written with those of the walk. *)
Lemma run_writes_each_rule_file_once_witness :
  consume installs (_init env None) = Ok walked_installs
  ∧ consume_finished calls_idl_ipdl walked_installs = Ok ran_installs_hooks
  ∧ written ran_installs_hooks
    = ((fun te => (mozpath_join (topobjdir env) te.1, manifest_content te.2))
         <$> _manifest_entries
               (CommonBackend_consume_finished calls_idl_ipdl walked_installs))
      ++ ((fun k => (mozpath_join k "Tupfile",
                     contents (backend_file ran_installs_hooks k)))
            <$> ["/obj/browser"; "/obj/dist/bin"; "/obj/dist/idl";
                 "/obj/ipc/ipdl"; "/obj/toolkit"; "/obj/xpcom/xpidl"]).
Proof.
  assert (consume installs (_init env None) = Ok walked_installs) as Hw
    by by_computation.
  assert (consume_finished calls_idl_ipdl walked_installs
          = Ok ran_installs_hooks) as Hf by by_computation.
  assert (sorted (map_to_list
                    (_backend_files
                       (CommonBackend_consume_finished calls_idl_ipdl
                          walked_installs))).*1
          = ["/obj/browser"; "/obj/dist/bin"; "/obj/dist/idl";
             "/obj/ipc/ipdl"; "/obj/toolkit"; "/obj/xpcom/xpidl"]) as Hkeys
    by by_computation.
  split; [exact Hw|]. split; [exact Hf|].
  rewrite <- Hkeys.
  exact (run_writes_each_rule_file_once env None installs calls_idl_ipdl
           walked_installs ran_installs_hooks Hw Hf).
Defined.

(** X9 on a generated file without outputs, met after the sources of [a]
    and before [installs]. *)
Lemma generated_file_without_outputs_raises_witness :
  outputs (generated_data []) = []
  ∧ consume [sources "a" ["/src/a/a.c"]] (_init env None)
    = Ok (state_of (consume [sources "a" ["/src/a/a.c"]] (_init env None)))
  ∧ ∃ e,
      consume_object (GeneratedFile (ctx "a") (generated_data []))
        (state_of (consume [sources "a" ["/src/a/a.c"]] (_init env None)))
      = Raise e
      ∧ consume ([sources "a" ["/src/a/a.c"]]
                 ++ GeneratedFile (ctx "a") (generated_data []) :: installs)
          (_init env None)
        = Raise e.
Proof.
  assert (consume [sources "a" ["/src/a/a.c"]] (_init env None)
          = Ok (state_of (consume [sources "a" ["/src/a/a.c"]]
                            (_init env None)))) as Hw by by_computation.
  split; [reflexivity|]. split; [exact Hw|].
  apply (generated_file_without_outputs_raises (ctx "a") (generated_data [])
           [sources "a" ["/src/a/a.c"]] installs (_init env None) _);
    [by_computation | reflexivity | reflexivity | by_computation | reflexivity
    | exact Hw].
Defined.

(** X10 on a generated header of [/obj/a]. *)
Lemma generated_file_rule_witness :
  _backend_files st_a !! "/obj/a" = Some tupfile
  ∧ outputs (generated_data ["gen.h"]) ≠ []
  ∧ ∃ st' r,
      _process_generated_file "/obj/a" (ctx "a") (generated_data ["gen.h"])
        st_a = Ok st'
      ∧ rules (backend_file st' "/obj/a") = rules tupfile ++ [r]
      ∧ r_cmd r
        = ["$(PYTHON)"; "-m"; "mozbuild.action.file_generate"; "gen.py";
           "main"; "gen.h"; "gen.h.pp"]
      ∧ r_outputs r = ["gen.h"; "gen.h.pp"; _includes_group].
Proof.
  assert (_backend_files st_a !! "/obj/a" = Some tupfile) as Hb
    by by_computation.
  assert (outputs (generated_data ["gen.h"]) ≠ []) as Hout by discriminate.
  split; [exact Hb|]. split; [exact Hout|].
  destruct (generated_file_rule "/obj/a" (ctx "a") (generated_data ["gen.h"])
              st_a tupfile Hb eq_refl eq_refl Hout)
    as (st' & r & Hst' & Hr & Hcmd & _ & Houts & _).
  exists st', r. split; [exact Hst'|]. split; [exact Hr|].
  split; [exact Hcmd | exact Houts].
Defined.

(** X11 on a style sheet preprocessed after the defines [-DFOO]. *)
Lemma preprocess_takes_the_target_defines_witness :
  _backend_files st_a !! "/obj/a" = Some tupfile
  ∧ ∃ r,
      rules (backend_file
               (_preprocess "/obj/a" "a.css" None
                  (_process_defines "/obj/a" ["-DFOO"] false st_a)) "/obj/a")
      = rules tupfile ++ [r]
      ∧ r_inputs r = ["a.css"]
      ∧ r_cmd r
        = ["$(PYTHON)"; "-m"; "mozbuild.action.preprocessor"; "-DFOO";
           "$(ACDEFINES)"; "%f"; "-o"; "%o"; "--marker=%%"].
Proof.
  assert (_backend_files st_a !! "/obj/a" = Some tupfile) as Hb
    by by_computation.
  split; [exact Hb|].
  destruct (preprocess_takes_the_target_defines "/obj/a" ["-DFOO"] false
              "a.css" None st_a tupfile Hb) as (r & Hr & Hin & Hcmd & _).
  exists r. split; [exact Hr|]. split; [exact Hin | exact Hcmd].
Defined.

(** X12 on unified sources that have files but no mapping. *)
Lemma unified_sources_without_mapping_emit_nothing_witness :
  s_class unified_without_mapping = data.UnifiedSources
  ∧ have_unified_mapping unified_without_mapping = false
  ∧ files unified_without_mapping = ["/src/a/a.cpp"]
  ∧ _process_sources (ctx "a") unified_without_mapping "/obj/a" st_a = st_a.
Proof.
  split; [reflexivity|]. split; [reflexivity|]. split; [reflexivity|].
  exact (unified_sources_without_mapping_emit_nothing (ctx "a")
           unified_without_mapping "/obj/a" st_a eq_refl eq_refl).
Defined.

(** X13 on the two sources of [a], given out of order. *)
Lemma sources_get_one_compile_rule_each_witness :
  _backend_files st_a !! "/obj/a" = Some tupfile
  ∧ ∃ rs,
      rules (backend_file (_process_sources (ctx "a") sources_a "/obj/a" st_a)
               "/obj/a") = rules tupfile ++ rs
      ∧ Forall2 (fun f r => r_inputs r = [f] ∧ r_cmd r = ["touch"; "%o"])
          ["/src/a/a.c"; "/src/a/b.c"] rs.
Proof.
  assert (_backend_files st_a !! "/obj/a" = Some tupfile) as Hb
    by by_computation.
  assert (sorted (source_files sources_a) = ["/src/a/a.c"; "/src/a/b.c"])
    as Hs by by_computation.
  split; [exact Hb|].
  destruct (sources_get_one_compile_rule_each (ctx "a") sources_a "/obj/a"
              st_a tupfile Hb) as (rs & Hrs & Hall).
  exists rs. split; [exact Hrs|]. rewrite Hs in Hall.
  eapply Forall2_impl; [exact Hall|].
  intros f r (Hin & _ & _ & Hcmd). split; [exact Hin | exact Hcmd].
Defined.

(** X14 on the same sources: the database is empty, both commands are
    missing. *)
Lemma missing_commands_are_counted_witness :
  _backend_files st_a !! "/obj/a" = Some tupfile
  ∧ default 0 (_missing_commands
                 (_process_sources (ctx "a") sources_a "/obj/a" st_a) !! ".c")
    = 2
  ∧ default 0 (_missing_commands
                 (_process_sources (ctx "a") sources_a "/obj/a" st_a)
               !! "Sources") = 2.
Proof.
  assert (_backend_files st_a !! "/obj/a" = Some tupfile) as Hb
    by by_computation.
  split; [exact Hb|]. split.
  - etrans; [exact (missing_commands_are_counted (ctx "a") sources_a "/obj/a"
                      st_a tupfile ".c" Hb)|].
    by_computation.
  - etrans; [exact (missing_commands_are_counted (ctx "a") sources_a "/obj/a"
                      st_a tupfile "Sources" Hb)|].
    by_computation.
Defined.

(** X15 on the first entry of [manifests_ab], with the IDL hook called. *)
Lemma chrome_manifest_lines_are_written_witness :
  run env None manifests_ab [handle_idl_manager manager]
  = Ok (state_of (run env None manifests_ab [handle_idl_manager manager]))
  ∧ ChromeManifestEntry (ctx "browser") chrome_a ∈ manifests_ab
  ∧ (∃ lines,
       (mozpath_join (topobjdir env) (cm_path chrome_a),
        manifest_content lines)
         ∈ written
             (state_of
                (run env None manifests_ab [handle_idl_manager manager]))
       ∧ cm_entry chrome_a ∈ lines)
  ∧ ∃ lines,
      (mozpath_join (topobjdir env) "dist/bin/chrome.manifest",
       manifest_content lines)
        ∈ written
            (state_of (run env None manifests_ab [handle_idl_manager manager]))
      ∧ "manifest chrome/a.manifest" ∈ lines.
Proof.
  assert (run env None manifests_ab [handle_idl_manager manager]
          = Ok (state_of
                  (run env None manifests_ab [handle_idl_manager manager])))
    as Hrun by by_computation.
  assert (ChromeManifestEntry (ctx "browser") chrome_a ∈ manifests_ab) as Hin
    by apply list_elem_of_here.
  split; [exact Hrun|]. split; [exact Hin|].
  destruct (chrome_manifest_lines_are_written env None manifests_ab
              [handle_idl_manager manager] _ (ctx "browser") chrome_a Hrun Hin)
    as [H1 H2]; [by_computation | reflexivity | by_computation |].
  split; [exact H1|]. apply H2. discriminate.
Defined.

(** X16 on a generated header of [a] installed into [dist/include]. *)
Lemma generated_files_are_installed_by_their_directory_witness :
  p_class generated_header = data.ObjDirPath
  ∧ is_artifact_build (environment st_a) = false
  ∧ ∃ st' r,
      install_file "dist/include" "" "/obj/dist/include" generated_header st_a
      = Ok st'
      ∧ rules_of st' "/obj/a" = rules_of st_a "/obj/a" ++ [r]
      ∧ r_cmd r = ["!tup_ln"]
      ∧ r_inputs r = ["/obj/a/gen.h"]
      ∧ r_outputs r
        = ["$(MOZ_OBJ_ROOT)/dist/include/gen.h"; _includes_group]
      ∧ rules_of st' "/obj/dist/include" = rules_of st_a "/obj/dist/include".
Proof.
  split; [reflexivity|]. split; [reflexivity|].
  destruct (generated_files_are_installed_by_their_directory "dist/include" ""
              "/obj/dist/include" generated_header st_a)
    as (st' & r & Hst' & Hr & Hcmd & Hin & Hout & Hother);
    [reflexivity | by_computation | by_computation
    | vm_compute; discriminate |].
  exists st', r. split; [exact Hst'|]. split; [exact Hr|].
  split; [exact Hcmd|]. split; [exact Hin|]. split; [exact Hout|].
  apply Hother. vm_compute; discriminate.
Defined.

(** X17 on the same header in an artifact build. *)
Lemma artifact_builds_skip_compile_environment_files_witness :
  is_artifact_build (environment (_init env_artifact None)) = true
  ∧ mozpath_match (target_basename generated_header) "*.h" = true
  ∧ install_file "dist/include" "" "/obj/dist/include" generated_header
      (_init env_artifact None)
    = Ok (_init env_artifact None).
Proof.
  assert (mozpath_match (target_basename generated_header) "*.h" = true)
    as Hm by by_computation.
  split; [reflexivity|]. split; [exact Hm|].
  apply (proj2 (artifact_builds_skip_compile_environment_files
                  (_init env_artifact None) eq_refl)
           "dist/include" "" "/obj/dist/include" generated_header "*.h");
    [reflexivity | | exact Hm].
  unfold _compile_env_gen_files. do 2 apply list_elem_of_further.
  apply list_elem_of_here.
Defined.

(** X20 on a manager with one idl and one module. *)
Lemma idl_modules_get_one_rule_each_witness :
  is_artifact_build (environment (_init env None)) = false
  ∧ ∃ links rs,
      rules_of (_handle_idl_manager manager (_init env None)) "/obj/dist/idl"
      = rules_of (_init env None) "/obj/dist/idl" ++ links
      ∧ Forall2 (fun source r => r_cmd r = ["!tup_ln"] ∧ r_inputs r = [source])
          ["/src/xpcom/base/nsISupports.idl"] links
      ∧ rules_of (_handle_idl_manager manager (_init env None))
          "/obj/xpcom/xpidl"
        = rules_of (_init env None) "/obj/xpcom/xpidl" ++ rs
      ∧ Forall2 (xpidl_rule manager) ["xpcom_base"] rs.
Proof.
  assert (sorted (map_to_list (modules manager)).*1 = ["xpcom_base"]) as Hs
    by by_computation.
  split; [reflexivity|].
  destruct (idl_modules_get_one_rule_each manager (_init env None))
    as (links & rs & Hlinks & Hall1 & Hrs & Hall2);
    [reflexivity | vm_compute; discriminate |].
  exists links, rs. split; [exact Hlinks|]. split.
  - eapply Forall2_impl; [exact Hall1|].
    intros source r (Hcmd & Hin & _). split; [exact Hcmd | exact Hin].
  - split; [exact Hrs|]. rewrite Hs in Hall2. exact Hall2.
Defined.

(** X22 on a C++ file of [/obj/a], entered twice. *)
Lemma compile_entries_accumulate_witness :
  compiledb.COMPILERS ".cpp" = Some "CXX"
  ∧ ∃ flags,
      ("$(DEFINES)" ∈ flags)
      ∧ compiledb.db_lookup
          (compiledb._db
             (compiledb._compiler_db_entry "/obj/a" (Some "a") config "a.cpp"
                ".cpp" None db_st)) ("/obj/a", "a.cpp", None)
        = Some (["$(CXX)"; "-o"; "/dev/null"; "-c"] ++ flags)
      ∧ compiledb.db_lookup
          (compiledb._db
             (compiledb._compiler_db_entry "/obj/a" (Some "a") config "a.cpp"
                ".cpp" None
                (compiledb._compiler_db_entry "/obj/a" (Some "a") config
                   "a.cpp" ".cpp" None db_st))) ("/obj/a", "a.cpp", None)
        = Some (["$(CXX)"; "-o"; "/dev/null"; "-c"] ++ flags ++ flags).
Proof.
  split; [reflexivity|].
  destruct (compile_entries_accumulate "/obj/a" (Some "a") config "a.cpp"
              ".cpp" None "CXX" db_st eq_refl) as (_ & _ & _ & _ & Hacc).
  destruct Hacc as (flags & Hd & H1 & H2); [discriminate | discriminate |].
  exists flags. split; [exact Hd|]. split; [exact H1 | exact H2].
Defined.

(** X26 on the record of a C file whose command has no variable. *)
Lemma tup_reads_back_the_database_records_witness :
  compiledb.record_of 2 db_st (("/obj/a", "a.c", None), ["cc"; "-c"])
  = Some (Ok record_a)
  ∧ load_commands_db [record_a] !! ("/obj/a/a.c", "/obj/a")
    = Some ["cc"; "-c"; "a.c"].
Proof.
  assert (compiledb.record_of 2 db_st (("/obj/a", "a.c", None), ["cc"; "-c"])
          = Some (Ok record_a)) as Hr by by_computation.
  split; [exact Hr|].
  destruct (tup_reads_back_the_database_records 2 db_st "/obj/a" "a.c" None
              ["cc"; "-c"] record_a Hr) as (env0 & c & Henv & Hc & Hload).
  assert (compiledb._envs db_st !! "/obj/a" = Some config) as Henv'
    by by_computation.
  rewrite Henv' in Henv. injection Henv as <-.
  vm_compute in Hc. injection Hc as <-.
  apply Hload. repeat constructor.
Defined.

(** X28 on the directory [/obj/a], whose configuration has [STL_FLAGS]. *)
Lemma stl_wrapping_depends_on_the_order_witness :
  compiledb.substs config !! "STL_FLAGS"
  = Some (compiledb.Str "-I/src/stl_wrappers")
  ∧ ∃ st1 st2 st1' st2',
      compiledb.consume_object (compiledb.DirectoryTraversal (ctx "a") config)
        db_st = Ok st1
      ∧ compiledb.consume_object
          (compiledb.VariablePassthru (ctx "a")
             {["DISABLE_STL_WRAPPING" := compiledb.Str "1"]}) st1 = Ok st2
      ∧ compiledb.consume_object
          (compiledb.VariablePassthru (ctx "a")
             {["DISABLE_STL_WRAPPING" := compiledb.Str "1"]}) db_st = Ok st1'
      ∧ compiledb.consume_object
          (compiledb.DirectoryTraversal (ctx "a") config) st1' = Ok st2'
      ∧ default ∅ (compiledb._local_flags st2 !! obj_objdir (ctx "a"))
          !! "STL_FLAGS" = None
      ∧ default ∅ (compiledb._local_flags st2' !! obj_objdir (ctx "a"))
          !! "STL_FLAGS" = Some (compiledb.Str "-I/src/stl_wrappers").
Proof.
  assert (compiledb.substs config !! "STL_FLAGS"
          = Some (compiledb.Str "-I/src/stl_wrappers")) as Hstl
    by by_computation.
  split; [exact Hstl|].
  apply (stl_wrapping_depends_on_the_order (ctx "a") config
           {["DISABLE_STL_WRAPPING" := compiledb.Str "1"]}
           (compiledb.Str "-I/src/stl_wrappers") db_st);
    [by_computation | reflexivity | reflexivity | exact Hstl | reflexivity
    | by_computation].
Defined.
End More_examples.
